(** * Sensor interpretation layer of the vehicle control unit

    A shallow embedding of [outputCalculations.c] and [sensors.h]:
    the sensor objects, the percentage helper [getPercent], the throttle
    calibration [calibrateTPS], the plausibility evaluation
    [GetThrottlePosition] and the wheel-speed conversions.

    Integer members are [Z] with their wrap-around written out.  The C
    types [float4] and [double] are IEEE-754 binary32 and binary64; they
    are modelled with the Standard Library's executable specification
    of IEEE arithmetic ([SpecFloat]), every operation rounding to nearest
    even in the format of its C type.

    The global sensor objects are the state.  [GetThrottlePosition] reads
    it; [calibrateTPS] rewrites it while it polls the real time clock, and
    what it polls (the clock and the samples deposited meanwhile) is a
    list of ticks given to the model. *)

From Stdlib Require Import ZArith List Bool Lia Znumtheory Permutation.
From Stdlib Require Import Floats.SpecFloat.
Import ListNotations.

Local Open Scope Z_scope.

(** ** Machine integers of IO_Driver.h *)

(** The vendor header names its integer types after their size in bytes:
    [ubyte1], [ubyte2] and [ubyte4] are unsigned integers of 8, 16 and 32
    bits. *)
Definition ubyte1 (n : Z) : Z := n mod 2 ^ 8.
Definition ubyte2 (n : Z) : Z := n mod 2 ^ 16.
Definition ubyte4 (n : Z) : Z := n mod 2 ^ 32.

Definition is_ubyte2 (n : Z) : Prop := 0 <= n < 2 ^ 16.

(** ** Floating point formats *)

(** [float4]: IEEE-754 binary32. *)
Module F32.
Definition prec : Z := 24.
Definition emax : Z := 128.

Definition of_Z (n : Z) : spec_float := binary_normalize prec emax n 0 false.
Definition add : spec_float -> spec_float -> spec_float := SFadd prec emax.
Definition sub : spec_float -> spec_float -> spec_float := SFsub prec emax.
Definition div : spec_float -> spec_float -> spec_float := SFdiv prec emax.
End F32.

(** [double]: IEEE-754 binary64. *)
Module F64.
Definition prec : Z := 53.
Definition emax : Z := 1024.

Definition of_Z (n : Z) : spec_float := binary_normalize prec emax n 0 false.
Definition mul : spec_float -> spec_float -> spec_float := SFmul prec emax.
Definition div : spec_float -> spec_float -> spec_float := SFdiv prec emax.

(** Widening a [float4] to [double] (the implicit conversion of the
    argument of [fabs]); every binary32 number is a binary64 number, so
    only the representation of the mantissa changes. *)
Definition of_float4 (x : spec_float) : spec_float :=
  match x with
  | S754_finite s m e => binary_normalize prec emax (cond_Zopp s (Zpos m)) e false
  | _ => x
  end.

(** A decimal literal [num / 10 ^ digits], correctly rounded. *)
Definition of_decimal (num : Z) (digits : Z) : spec_float :=
  div (of_Z num) (of_Z (10 ^ digits)).

(** Conversion of a [double] to an integer type discards the fractional
    part (C11 6.3.1.4); infinities and NaN have no integer part. *)
Definition truncate (x : spec_float) : option Z :=
  match x with
  | S754_zero _ => Some 0
  | S754_finite s m e =>
      Some (cond_Zopp s (match e with
                         | Zneg p => Zpos m / 2 ^ Zpos p
                         | _ => Zpos m * 2 ^ e
                         end))
  | _ => None
  end.
End F64.

(** Comparison operators of C on floating operands: any comparison with a
    NaN is false. *)
Definition fgt (x y : spec_float) : bool := SFltb y x.
Definition flt (x y : spec_float) : bool := SFltb x y.
Definition fle (x y : spec_float) : bool := SFleb x y.

Definition fzero : spec_float := S754_zero false.
Definition fone : spec_float := F32.of_Z 1.

(** ** sensors.h *)

Record Sensor : Type := mkSensor {
  canMessageIdOffset : Z;
  specMin : Z;
  specMax : Z;
  isCalibrated : bool;
  calibMin : Z;
  calibMax : Z;
  calibNormal : Z;
  sensorValue : Z;
  fresh : bool;
  calibratedValue : Z
}.

(** An initializer list [{ id, lo, hi }] whose bounds are [double]
    literals: each literal is converted to the [ubyte2] member it
    initializes, the members left out are zero.  C defines the conversion
    where the integer part fits the member, as it does for every literal
    of [sensors.h]. *)
Definition ubyte2_of_double (x : spec_float) : Z :=
  match F64.truncate x with
  | Some n => ubyte2 n
  | None => 0
  end.

Definition sensor_init (id : Z) (lo hi : spec_float) : Sensor :=
  mkSensor (ubyte1 id) (ubyte2_of_double lo) (ubyte2_of_double hi)
           false 0 0 0 0 false 0.

Definition sensor_init_id (id : Z) : Sensor :=
  mkSensor (ubyte1 id) 0 0 false 0 0 0 0 false 0.

(** The literals [0.5] and [4.5]. *)
Definition lit_0_5 : spec_float := F64.of_decimal 5 1.
Definition lit_4_5 : spec_float := F64.of_decimal 45 1.

Definition Sensor_TPS0 : Sensor := sensor_init 0 lit_0_5 lit_4_5.
Definition Sensor_TPS1 : Sensor := sensor_init 0 lit_4_5 lit_0_5.
Definition Sensor_BPS0 : Sensor := sensor_init 1 lit_0_5 lit_4_5.
Definition Sensor_WSS_FL : Sensor := sensor_init_id 3.
Definition Sensor_WSS_FR : Sensor := sensor_init_id 3.
Definition Sensor_WSS_RL : Sensor := sensor_init_id 3.
Definition Sensor_WSS_RR : Sensor := sensor_init_id 3.
Definition Sensor_WPS_FL : Sensor := sensor_init_id 4.
Definition Sensor_WPS_FR : Sensor := sensor_init_id 4.
Definition Sensor_WPS_RL : Sensor := sensor_init_id 4.
Definition Sensor_WPS_RR : Sensor := sensor_init_id 4.
Definition Sensor_LVBattery : Sensor := sensor_init_id 10.

Definition all_sensors : list Sensor :=
  [ Sensor_TPS0; Sensor_TPS1; Sensor_BPS0;
    Sensor_WSS_FL; Sensor_WSS_FR; Sensor_WSS_RL; Sensor_WSS_RR;
    Sensor_WPS_FL; Sensor_WPS_FR; Sensor_WPS_RL; Sensor_WPS_RR;
    Sensor_LVBattery ].

(** The two torque encoders are the only sensor objects the functions of
    [outputCalculations.c] read or write; the state carries those two
    globals. *)
Record State : Type := mkState {
  TPS0 : Sensor;
  TPS1 : Sensor
}.

Definition startup : State := mkState Sensor_TPS0 Sensor_TPS1.

(** ** outputCalculations.c *)

(** [getPercent]: the position of [value] between [min] and [max]. *)
Definition getPercent (value min max : spec_float) (zeroToOneOnly : bool)
  : spec_float :=
  let retVal := F32.div (F32.sub value min) (F32.sub max min) in
  if zeroToOneOnly then
    if fgt retVal fone then fone
    else if flt retVal fzero then fzero
    else retVal
  else retVal.

(** *** calibrateTPS *)

(** The sensor objects are written from outside while [calibrateTPS] spins
    on the real time clock.  What the function observes is a sequence of
    ticks: at each evaluation of the loop condition, the time elapsed
    since [timestamp_calibrationstart] as [IO_RTC_GetTimeUS] reports it and
    the samples the two [sensorValue] members hold by then. *)
Record Tick : Type := mkTick {
  elapsed_us : Z;
  sample0 : Z;
  sample1 : Z
}.

Definition set_sensorValue (v : Z) (s : Sensor) : Sensor :=
  mkSensor (canMessageIdOffset s) (specMin s) (specMax s) (isCalibrated s)
           (calibMin s) (calibMax s) (calibNormal s) (ubyte2 v) (fresh s)
           (calibratedValue s).

Definition set_isCalibrated (b : bool) (s : Sensor) : Sensor :=
  mkSensor (canMessageIdOffset s) (specMin s) (specMax s) b
           (calibMin s) (calibMax s) (calibNormal s) (sensorValue s) (fresh s)
           (calibratedValue s).

Definition set_calibMin (v : Z) (s : Sensor) : Sensor :=
  mkSensor (canMessageIdOffset s) (specMin s) (specMax s) (isCalibrated s)
           v (calibMax s) (calibNormal s) (sensorValue s) (fresh s)
           (calibratedValue s).

Definition set_calibMax (v : Z) (s : Sensor) : Sensor :=
  mkSensor (canMessageIdOffset s) (specMin s) (specMax s) (isCalibrated s)
           (calibMin s) v (calibNormal s) (sensorValue s) (fresh s)
           (calibratedValue s).

(** The samples of a tick, as deposited by the sampling code. *)
Definition deposit (t : Tick) (st : State) : State :=
  mkState (set_sensorValue (sample0 t) (TPS0 st))
          (set_sensorValue (sample1 t) (TPS1 st)).

(** "Reset calibration data". *)
Definition reset_sensor (s : Sensor) : Sensor :=
  set_isCalibrated false (set_calibMax (specMin s) (set_calibMin (specMax s) s)).

Definition reset_calibration (st : State) : State :=
  mkState (reset_sensor (TPS0 st)) (reset_sensor (TPS1 st)).

(** "Record min/max voltages": the two [if]s of one sensor. *)
Definition record_sensor (s : Sensor) : Sensor :=
  let s1 := if sensorValue s <? calibMin s
            then set_calibMin (sensorValue s) s else s in
  if sensorValue s1 >? calibMax s1
  then set_calibMax (sensorValue s1) s1 else s1.

Definition record_minmax (st : State) : State :=
  mkState (record_sensor (TPS0 st)) (record_sensor (TPS1 st)).

(** The [while] loop: it runs its body for as long as the clock reads
    less than [limit]; [None] when the observed ticks end before the clock
    reaches [limit]. *)
Fixpoint calibration_loop (limit : Z) (ticks : list Tick) (st : State)
  : option State :=
  match ticks with
  | [] => None
  | t :: rest =>
      if ubyte4 (elapsed_us t) <? limit
      then calibration_loop limit rest (record_minmax (deposit t st))
      else Some st
  end.

Definition commit_calibration (st : State) : State :=
  mkState (set_isCalibrated true (TPS0 st)) (set_isCalibrated true (TPS1 st)).

(** [(ubyte4)secondsToRunCalibration * 1000 * 1000] *)
Definition calibration_limit (secondsToRunCalibration : Z) : Z :=
  ubyte4 (ubyte4 (ubyte4 (ubyte1 secondsToRunCalibration) * 1000) * 1000).

Definition calibrateTPS (secondsToRunCalibration : Z) (ticks : list Tick)
  (st : State) : option State :=
  match calibration_loop (calibration_limit secondsToRunCalibration) ticks
          (reset_calibration st) with
  | Some st' => Some (commit_calibration st')
  | None => None
  end.

(** One turn of the loop body on the samples of a tick. *)
Definition observe (st : State) (t : Tick) : State :=
  record_minmax (deposit t st).

(** A run of the loop: the ticks at which the clock reads less than the
    limit, then one at which it has reached it. *)
Definition run_until (limit : Z) (body : list Tick) (t_end : Tick) : Prop :=
  Forall (fun t => ubyte4 (elapsed_us t) < limit) body /\
  limit <= ubyte4 (elapsed_us t_end).

Definition samples0 (ticks : list Tick) : list Z :=
  map (fun t => ubyte2 (sample0 t)) ticks.

Definition samples1 (ticks : list Tick) : list Z :=
  map (fun t => ubyte2 (sample1 t)) ticks.

(** The states of the two sensor objects at runtime: they start as
    initialized, the sampling code deposits samples, and calibration runs
    complete. *)
Inductive reachable : State -> Prop :=
| reach_startup : reachable startup
| reach_deposit (t : Tick) (st : State) :
    reachable st -> reachable (deposit t st)
| reach_calibrate (secs : Z) (ticks : list Tick) (st st' : State) :
    reachable st -> calibrateTPS secs ticks st = Some st' -> reachable st'.

(** *** GetThrottlePosition *)

(** The literal [.1] of the discrepancy test, a [double]. *)
Definition tolerance : spec_float := F64.of_decimal 1 1.

Definition out_of_range (s : Sensor) : bool :=
  (sensorValue s <? specMin s) || (sensorValue s >? specMax s).

Definition PedalPercent (s : Sensor) : spec_float :=
  getPercent (F32.of_Z (sensorValue s)) (F32.of_Z (calibMin s))
             (F32.of_Z (calibMax s)) false.

(** [fabs(TPS1PedalPercent - TPS0PedalPercent) > .1] *)
Definition discrepancy (st : State) : bool :=
  fgt (SFabs (F64.of_float4
                (F32.sub (PedalPercent (TPS1 st)) (PedalPercent (TPS0 st)))))
      tolerance.

Definition uncalibrated (st : State) : bool :=
  negb (isCalibrated (TPS0 st)) || negb (isCalibrated (TPS1 st)).

(** [TPSErrorState++] on a [ubyte1]. *)
Definition bump (c : bool) (n : Z) : Z := if c then ubyte1 (n + 1) else n.

(** The value of [TPSErrorState] when the function reaches its last
    [if]. *)
Definition TPSErrorState (st : State) : Z :=
  bump (uncalibrated st)
    (bump (discrepancy st)
       (bump (out_of_range (TPS1 st))
          (bump (out_of_range (TPS0 st)) 0))).

Definition GetThrottlePosition (st : State) : spec_float :=
  if TPSErrorState st >? 0 then fzero
  else F32.div (F32.add (PedalPercent (TPS0 st)) (PedalPercent (TPS1 st)))
               (F32.of_Z 2).

(** *** Wheel speed *)

Definition NUM_BUMPS : Z := 16.
Definition WHEEL_DIAMETER : Z := 18.
Definition NUM_BUMPS_D : spec_float := F64.of_Z NUM_BUMPS.
Definition WHEEL_DIAMETER_D : spec_float := F64.of_Z WHEEL_DIAMETER.

Definition freq_to_rpm (freq : spec_float) : spec_float :=
  F64.mul (F64.div freq NUM_BUMPS_D) (F64.of_Z 60).

(** The literal [3.14159265]. *)
Definition lit_pi : spec_float := F64.of_decimal 314159265 8.

Definition rpm_to_mph (rpm : spec_float) : spec_float :=
  F64.div (F64.mul (F64.mul (F64.mul lit_pi WHEEL_DIAMETER_D) rpm) (F64.of_Z 60))
          (F64.of_Z 63360).

(** * Definitions used by the statements *)

(** The number of binary digits of a positive integer. *)
Definition dig (n : Z) : Z := Z.log2 n + 1.

(** A mantissa with no bits shifted out of it. *)
Definition exact_record (m : Z) : shr_record := Build_shr_record m false false.

(** The canonical binary32 representation of a nonzero integer of less
    than 24 bits, with the sign apart. *)
Definition canon (s : bool) (n : Z) : spec_float :=
  S754_finite s (Z.to_pos (n * 2 ^ (24 - dig n))) (dig n - 24).

(** The binary32 number that is the integer [n], for [|n| < 2 ^ 24]. *)
Definition int_float (n : Z) : spec_float :=
  match n with
  | Z0 => S754_zero false
  | Zpos _ => canon false n
  | Zneg _ => canon true (- n)
  end.

(** Rounding of the quotient [N / D] to the nearest integer, ties to
    even. *)
Definition rne_div (N D : Z) : Z :=
  let q := N / D in
  let r := N mod D in
  match 2 * r ?= D with
  | Lt => q
  | Eq => if Z.even q then q else q + 1
  | Gt => q + 1
  end.

(** A rounded mantissa of 24 bits, or [2 ^ 24] when rounding carried into
    the next binade. *)
Definition pack (s : bool) (E M : Z) : spec_float :=
  if M =? 2 ^ 24 then S754_finite s (Z.to_pos (2 ^ 23)) (E + 1)
  else S754_finite s (Z.to_pos M) E.

(** [0 <= x <= 1], as C compares: false for a NaN. *)
Definition in_unit_interval (x : spec_float) : Prop :=
  fle fzero x = true /\ fle x fone = true.

(** Sensor states for the examples: a sensor with a sample and a
    calibration. *)
Definition with_reading (v cmin cmax : Z) (cal : bool) (s : Sensor) : Sensor :=
  set_isCalibrated cal (set_calibMax cmax (set_calibMin cmin (set_sensorValue v s))).

(** Two calibrated channels over 0..100 reading 52 and 48. *)
Definition plausible_state : State :=
  mkState (mkSensor 0 0 100 true 0 100 0 52 false 0)
          (mkSensor 0 0 100 true 0 100 0 48 false 0).

(** Two channels calibrated over 1..2 that both read 3, within the spec
    range 0..4. *)
Definition overtravel_state : State :=
  mkState (mkSensor 0 0 4 true 1 2 0 3 false 0)
          (mkSensor 0 0 4 true 1 2 0 3 false 0).

(** Two channels whose calibration bounds coincide. *)
Definition zero_span_state : State :=
  mkState (mkSensor 0 0 4 true 2 2 0 3 false 0)
          (mkSensor 0 0 4 true 2 2 0 3 false 0).

(** The voltages 0.5, 1.5, ..., 4.5 and the ticks that deposit them. *)
Definition voltage_sweep : list spec_float :=
  map (fun n => F64.of_decimal n 1) [5; 15; 25; 35; 45].

Definition sweep_ticks : list Tick :=
  map (fun x => mkTick 0 (ubyte2_of_double x) (ubyte2_of_double x)) voltage_sweep
  ++ [mkTick 1000000 0 0].

(** A run of one second over the samples 0, 1, ..., 4 of TPS0. *)
Definition sweep_body : list Tick :=
  [ mkTick 0 0 4; mkTick 200000 1 3; mkTick 400000 2 2;
    mkTick 600000 3 1; mkTick 800000 4 0 ].

Definition sweep_end : Tick := mkTick 1000000 4 0.

(** A run of one second during which both samples stay at 2. *)
Definition stuck_ticks : list Tick :=
  [ mkTick 0 2 2; mkTick 500000 2 2; mkTick 1000000 2 2 ].

(** The calibration data of the two channels agree in two states. *)
Definition same_calibration (st1 st2 : State) : Prop :=
  calibMin (TPS0 st1) = calibMin (TPS0 st2) /\
  calibMax (TPS0 st1) = calibMax (TPS0 st2) /\
  isCalibrated (TPS0 st1) = isCalibrated (TPS0 st2) /\
  calibMin (TPS1 st1) = calibMin (TPS1 st2) /\
  calibMax (TPS1 st1) = calibMax (TPS1 st2) /\
  isCalibrated (TPS1 st1) = isCalibrated (TPS1 st2).

Definition same_spec_bounds (st1 st2 : State) : Prop :=
  specMin (TPS0 st1) = specMin (TPS0 st2) /\
  specMax (TPS0 st1) = specMax (TPS0 st2) /\
  specMin (TPS1 st1) = specMin (TPS1 st2) /\
  specMax (TPS1 st1) = specMax (TPS1 st2).

(** The sweep of [sweep_body], downwards. *)
Definition sweep_body_down : list Tick :=
  [ mkTick 0 4 0; mkTick 200000 3 1; mkTick 400000 2 2;
    mkTick 600000 1 3; mkTick 800000 0 4 ].

(** The two sensor objects exchanged. *)
Definition swap_channels (st : State) : State := mkState (TPS1 st) (TPS0 st).

(** The members of a sensor object that [GetThrottlePosition] converts to
    [float4] hold 16-bit values. *)
Definition ubyte2_reading (s : Sensor) : Prop :=
  is_ubyte2 (sensorValue s) /\ is_ubyte2 (calibMin s) /\ is_ubyte2 (calibMax s).

(** No check but the discrepancy test fires: both channels calibrated and
    within their spec ranges. *)
Definition pins_plausible (st : State) : Prop :=
  isCalibrated (TPS0 st) = true /\ isCalibrated (TPS1 st) = true /\
  specMin (TPS0 st) <= sensorValue (TPS0 st) <= specMax (TPS0 st) /\
  specMin (TPS1 st) <= sensorValue (TPS1 st) <= specMax (TPS1 st).

Definition normal (m : positive) : Prop := 2 ^ 23 <= Zpos m < 2 ^ 24.

(** Zero, or a positive normal number of moderate exponent. *)
Definition unit_float (x : spec_float) : Prop :=
  x = S754_zero false \/
  exists m e, x = S754_finite false m e /\ normal m /\ -100 <= e <= 48.

(** Zero or a positive finite number. *)
Definition nonneg_float (x : spec_float) : Prop :=
  match x with
  | S754_zero false | S754_finite false _ _ => True
  | _ => False
  end.

(** [r] lies between [x] and [y], in either order. *)
Definition between (x r y : spec_float) : Prop :=
  (fle x r = true /\ fle r y = true) \/ (fle y r = true /\ fle r x = true).

(** The sample of a sensor lies within its calibrated range, which is not
    degenerate. *)
Definition within_calibration (s : Sensor) : Prop :=
  ubyte2_reading s /\ calibMin s < calibMax s /\
  calibMin s <= sensorValue s <= calibMax s.

(** The spec bounds of both channels are 16-bit values. *)
Definition ubyte2_spec_bounds (st : State) : Prop :=
  is_ubyte2 (specMin (TPS0 st)) /\ is_ubyte2 (specMax (TPS0 st)) /\
  is_ubyte2 (specMin (TPS1 st)) /\ is_ubyte2 (specMax (TPS1 st)).

(** What holds of the two channels while [calibrateTPS] spins, from the
    reset on. *)
Definition calibrating (st : State) : Prop :=
  calibMin (TPS1 st) = 0 /\ 4 <= calibMax (TPS1 st) /\
  0 <= calibMin (TPS0 st) <= 4 /\ 0 <= calibMax (TPS0 st) /\
  isCalibrated (TPS0 st) = false /\ isCalibrated (TPS1 st) = false.

(** The value of a double times [2 ^ k], when that is an integer. *)
Definition scaled_value (k : Z) (x : spec_float) : option Z :=
  match x with
  | S754_zero _ => Some 0
  | S754_finite s m e =>
      if 0 <=? e + k then Some (cond_Zopp s (Zpos m * 2 ^ (e + k)))
      else if Zpos m mod 2 ^ (- (e + k)) =? 0
           then Some (cond_Zopp s (Zpos m / 2 ^ (- (e + k))))
           else None
  | _ => None
  end.

(** The canonical binary64 representation of a positive integer of at
    most 53 bits, with the sign apart. *)
Definition canon64 (s : bool) (n : Z) : spec_float :=
  S754_finite s (Z.to_pos (n * 2 ^ (53 - dig n))) (dig n - 53).

(** The ground speed computed from a pulse frequency of [n] hertz. *)
Definition ground_speed (n : Z) : spec_float :=
  rpm_to_mph (freq_to_rpm (F64.of_Z n)).

(** Miles per hour per hertz, as the formulas have it with the literal
    3.14159265: [3.14159265 * 18 * 60 * (60 / 16) / 63360], a fraction. *)
Definition mph_per_hertz_num : Z := 314159265 * 18 * 60 * 60.
Definition mph_per_hertz_den : Z := 10 ^ 8 * 63360 * 16.

(** [x] is a positive double [m * 2 ^ e], [e < 0], within a relative
    distance of [2 ^ - bits] of [num / den]. *)
Definition close_to (bits num den : Z) (x : spec_float) : bool :=
  match x with
  | S754_finite false m e =>
      (e <? 0) &&
      (2 ^ bits * Z.abs (Zpos m * den - num * 2 ^ (- e)) <=? num * 2 ^ (- e))
  | _ => false
  end.

(** The ground speeds of [k] consecutive whole frequencies from [n] on
    are each close to the exact value and above the one before,
    [prev]. *)
Fixpoint speeds_rise (k : nat) (n : Z) (prev : spec_float) : bool :=
  match k with
  | O => true
  | S k' =>
      let x := ground_speed n in
      close_to 50 (n * mph_per_hertz_num) mph_per_hertz_den x &&
      flt prev x && speeds_rise k' (n + 1) x
  end.

(** The value of a finite number times [2 ^ 70]: an integer that holds
    the value exactly when the exponent is at least -70, as it is for the
    fractions [a / d] of 16-bit integers [a <= d], their differences and
    their means. *)
Definition val (x : spec_float) : Z :=
  match x with
  | S754_finite s m e => cond_Zopp s (Zpos m * 2 ^ (e + 70))
  | _ => 0
  end.

(** A zero, or a normal number of magnitude at most about 1. *)
Definition small_float (x : spec_float) : Prop :=
  (exists s, x = S754_zero s) \/
  exists s m e, x = S754_finite s m e /\ normal m /\ -70 <= e <= 0.

(** Zero, or a positive normal number of at most 1 and at least
    [2 ^ -17]. *)
Definition fraction_float (x : spec_float) : Prop :=
  x = S754_zero false \/
  exists m e, x = S754_finite false m e /\ normal m /\ -40 <= e <= -23.

(** The binary32 number [n * 2 ^ g], for [|n| < 2 ^ 24]: the integer [n]
    with its exponent moved by [g]. *)
Definition grid_float (g n : Z) : spec_float :=
  match int_float n with
  | S754_finite s m e => S754_finite s m (e + g)
  | x => x
  end.






(** * Facts about the binary32 operations *)

(** ** Digits, shifts *)

Lemma digits2_pos_size (p : positive) : digits2_pos p = Pos.size p.
Proof. induction p; simpl; congruence. Qed.

Lemma Zdigits2_dig (p : positive) : Zdigits2 (Zpos p) = dig (Zpos p).
Proof.
  unfold dig. simpl. rewrite digits2_pos_size.
  destruct p; simpl; try reflexivity; rewrite Pos.add_1_r; reflexivity.
Qed.

Lemma digits2_pos_dig (p : positive) : Zpos (digits2_pos p) = dig (Zpos p).
Proof. exact (Zdigits2_dig p). Qed.

Lemma dig_bounds (n : Z) : 0 < n -> 2 ^ (dig n - 1) <= n < 2 ^ dig n.
Proof.
  intros H. unfold dig. replace (Z.log2 n + 1 - 1) with (Z.log2 n) by lia.
  replace (Z.log2 n + 1) with (Z.succ (Z.log2 n)) by lia.
  apply Z.log2_spec; assumption.
Qed.

Lemma dig_unique (n k : Z) : 2 ^ (k - 1) <= n < 2 ^ k -> 0 < k -> dig n = k.
Proof.
  intros H Hk. unfold dig.
  rewrite (Z.log2_unique n (k - 1)); try lia.
  replace (Z.succ (k - 1)) with k by lia. exact H.
Qed.

Lemma dig_pos (n : Z) : 0 < n -> 0 < dig n.
Proof. intros H. unfold dig. pose proof (Z.log2_nonneg n). lia. Qed.

Lemma dig_mul_pow2 (n j : Z) : 0 < n -> 0 <= j -> dig (n * 2 ^ j) = dig n + j.
Proof.
  intros Hn Hj. unfold dig. rewrite Z.log2_mul_pow2 by assumption. lia.
Qed.

Lemma dig_le (a b : Z) : 0 < a -> a <= b -> dig a <= dig b.
Proof. intros Ha Hab. unfold dig. pose proof (Z.log2_le_mono a b Hab). lia. Qed.

Lemma dig_le_of_lt_pow2 (n k : Z) : 0 < n -> n < 2 ^ k -> 0 <= k -> dig n <= k.
Proof.
  intros Hn Hlt Hk. unfold dig.
  assert (Z.log2 n < k) by (apply Z.log2_lt_pow2; assumption). lia.
Qed.

Lemma iter_pos_nat {A : Type} (f : A -> A) (p : positive) (x : A) :
  iter_pos f p x = Nat.iter (Pos.to_nat p) f x.
Proof.
  revert x. induction p as [p IH | p IH | ]; intros x; cbn [iter_pos].
  - rewrite !IH, Pos2Nat.inj_xI.
    rewrite <- Nat.iter_add. rewrite <- Nat.iter_succ_r.
    f_equal. lia.
  - rewrite !IH, Pos2Nat.inj_xO. rewrite <- Nat.iter_add. f_equal. lia.
  - reflexivity.
Qed.

Lemma pos_iter_xO (m d : positive) :
  Zpos (Pos.iter xO m d) = Zpos m * 2 ^ Zpos d.
Proof.
  rewrite Pos2Nat.inj_iter.
  rewrite <- (positive_nat_Z d).
  induction (Pos.to_nat d) as [ | k IH]; simpl nat_rect.
  - simpl. lia.
  - rewrite Pos2Z.inj_xO, IH, Nat2Z.inj_succ, Z.pow_succ_r by lia. lia.
Qed.

Lemma shr_1_exact (m : Z) : 0 < m -> shr_1 (exact_record (2 * m)) = exact_record m.
Proof. intros H. destruct m; try lia. reflexivity. Qed.

Lemma shr_nat_exact (k : nat) (m : Z) :
  0 < m ->
  Nat.iter k shr_1 (exact_record (m * 2 ^ Z.of_nat k)) = exact_record m.
Proof.
  intros Hm. induction k as [ | k IH].
  - simpl. f_equal. lia.
  - rewrite Nat.iter_succ_r.
    replace (m * 2 ^ Z.of_nat (S k)) with (2 * (m * 2 ^ Z.of_nat k))
      by (rewrite Nat2Z.inj_succ, Z.pow_succ_r by lia; lia).
    rewrite shr_1_exact by lia. exact IH.
Qed.

Lemma shr_exact (m e k : Z) :
  0 < m -> 0 <= k ->
  shr (exact_record (m * 2 ^ k)) e k = (exact_record m, e + k).
Proof.
  intros Hm Hk. destruct k as [ | p | p]; try lia.
  - simpl. rewrite Z.mul_1_r, Z.add_0_r. reflexivity.
  - unfold shr. rewrite iter_pos_nat.
    rewrite <- (positive_nat_Z p) at 1.
    rewrite shr_nat_exact by assumption. reflexivity.
Qed.

(** ** Rounding a number that needs no rounding *)

Lemma Zdigits2_pos (z : Z) : 0 < z -> Zdigits2 z = dig z.
Proof. intros H. destruct z; try lia. apply Zdigits2_dig. Qed.

Lemma fexp32_normal (e : Z) : -125 <= e -> fexp 24 128 e = e - 24.
Proof. intros H. unfold fexp, emin. lia. Qed.

Lemma shr_fexp_exact (M e k : Z) :
  2 ^ 23 <= M < 2 ^ 24 -> 0 <= k -> -149 <= e + k ->
  shr_fexp 24 128 (M * 2 ^ k) e loc_Exact = (exact_record M, e + k).
Proof.
  intros HM Hk He. unfold shr_fexp.
  assert (HM0 : 0 < M) by lia.
  assert (Hp : 0 < M * 2 ^ k) by (apply Z.mul_pos_pos; [lia | apply Z.pow_pos_nonneg; lia]).
  rewrite Zdigits2_pos by exact Hp.
  rewrite dig_mul_pow2 by lia.
  rewrite (dig_unique M 24) by lia.
  rewrite fexp32_normal by lia.
  replace (24 + k + e - 24 - e) with k by lia.
  apply shr_exact; lia.
Qed.

Lemma binary_round_aux_exact (s : bool) (M e k : Z) :
  2 ^ 23 <= M < 2 ^ 24 -> 0 <= k -> -149 <= e + k <= 104 ->
  binary_round_aux 24 128 s (M * 2 ^ k) e loc_Exact
  = S754_finite s (Z.to_pos M) (e + k).
Proof.
  intros HM Hk He. unfold binary_round_aux.
  rewrite shr_fexp_exact by lia.
  cbn [exact_record shr_m loc_of_shr_record round_nearest_even].
  replace M with (M * 2 ^ 0) at 1 by (rewrite Z.pow_0_r; lia).
  rewrite shr_fexp_exact by lia.
  cbn [exact_record shr_m]. rewrite Z.add_0_r.
  destruct M as [ | p | p]; try lia.
  replace (e + k <=? 128 - 24) with true by (symmetry; apply Z.leb_le; lia).
  reflexivity.
Qed.

Lemma canon_mantissa (n : Z) :
  0 < n < 2 ^ 24 -> 2 ^ 23 <= n * 2 ^ (24 - dig n) < 2 ^ 24.
Proof.
  intros Hn.
  pose proof (dig_bounds n ltac:(lia)) as Hb.
  pose proof (dig_pos n ltac:(lia)) as Hd.
  assert (Hle : dig n <= 24) by (apply dig_le_of_lt_pow2; lia).
  assert (H24 : 2 ^ 24 = 2 ^ dig n * 2 ^ (24 - dig n))
    by (rewrite <- Z.pow_add_r by lia; f_equal; lia).
  assert (H23 : 2 ^ 23 = 2 ^ (dig n - 1) * 2 ^ (24 - dig n))
    by (rewrite <- Z.pow_add_r by lia; f_equal; lia).
  assert (Hp : 0 < 2 ^ (24 - dig n)) by (apply Z.pow_pos_nonneg; lia).
  rewrite H24, H23. split.
  - apply Z.mul_le_mono_nonneg_r; lia.
  - apply Z.mul_lt_mono_pos_r; lia.
Qed.

Lemma binary_round_exact (s : bool) (m : positive) (n j : Z) :
  0 < n < 2 ^ 24 -> 0 <= j <= 100 -> Zpos m = n * 2 ^ j ->
  binary_round 24 128 s m (- j) = canon s n.
Proof.
  intros Hn Hj Hm.
  pose proof (dig_pos n ltac:(lia)) as Hd.
  assert (Hle : dig n <= 24) by (apply dig_le_of_lt_pow2; lia).
  pose proof (canon_mantissa n Hn) as HM.
  unfold binary_round.
  rewrite digits2_pos_dig, Hm, dig_mul_pow2 by lia.
  rewrite fexp32_normal by lia.
  unfold shl_align.
  destruct (dig n + j + - j - 24 - - j) as [ | d | d] eqn:Hs.
  - (* already canonical *)
    assert (j = 24 - dig n) by lia. subst j.
    rewrite Hm.
    replace (n * 2 ^ (24 - dig n)) with (n * 2 ^ (24 - dig n) * 2 ^ 0)
      by (rewrite Z.pow_0_r; lia).
    rewrite binary_round_aux_exact by lia.
    unfold canon. f_equal. lia.
  - (* too many digits: the low ones are zero *)
    rewrite Hm.
    replace (n * 2 ^ j) with (n * 2 ^ (24 - dig n) * 2 ^ Zpos d)
      by (rewrite <- Z.mul_assoc, <- Z.pow_add_r by lia; do 2 f_equal; lia).
    rewrite binary_round_aux_exact by lia.
    unfold canon. f_equal. lia.
  - (* too few digits: shift left *)
    rewrite pos_iter_xO, Hm.
    replace (n * 2 ^ j * 2 ^ Zpos d) with (n * 2 ^ (24 - dig n) * 2 ^ 0)
      by (rewrite Z.pow_0_r, Z.mul_1_r, <- Z.mul_assoc, <- Z.pow_add_r by lia;
          do 2 f_equal; lia).
    rewrite binary_round_aux_exact by lia.
    unfold canon. f_equal. lia.
Qed.

Lemma binary_normalize_exact (n j : Z) :
  - 2 ^ 24 < n < 2 ^ 24 -> 0 <= j <= 100 ->
  binary_normalize 24 128 (n * 2 ^ j) (- j) false = int_float n.
Proof.
  intros Hn Hj.
  assert (Hp : 0 < 2 ^ j) by (apply Z.pow_pos_nonneg; lia).
  destruct n as [ | p | p]; simpl int_float.
  - reflexivity.
  - destruct (Zpos p * 2 ^ j) as [ | q | q] eqn:Hq; try lia.
    simpl binary_normalize. apply binary_round_exact; try lia.
  - destruct (Zneg p * 2 ^ j) as [ | q | q] eqn:Hq; try lia.
    simpl binary_normalize. apply binary_round_exact; try lia.
Qed.

Lemma of_Z_int_float (n : Z) :
  - 2 ^ 24 < n < 2 ^ 24 -> F32.of_Z n = int_float n.
Proof.
  intros Hn. unfold F32.of_Z, F32.prec, F32.emax.
  replace n with (n * 2 ^ 0) at 1 by (rewrite Z.pow_0_r; lia).
  change 0 with (- 0) at 2.
  apply binary_normalize_exact; lia.
Qed.

(** ** Subtraction of small integers is exact *)

Lemma shl_align_fst (mx : positive) (ex ez : Z) :
  ez <= ex -> Zpos (fst (shl_align mx ex ez)) = Zpos mx * 2 ^ (ex - ez).
Proof.
  intros H. unfold shl_align.
  destruct (ez - ex) as [ | d | d] eqn:Hd; cbn [fst]; try lia.
  - replace (ex - ez) with 0 by lia. rewrite Z.pow_0_r. lia.
  - rewrite pos_iter_xO. do 2 f_equal. lia.
Qed.

Lemma canon_aligned (n dm : Z) :
  0 < n < 2 ^ 24 -> dm <= dig n ->
  Zpos (Z.to_pos (n * 2 ^ (24 - dig n))) * 2 ^ (dig n - 24 - (dm - 24))
  = n * 2 ^ (24 - dm).
Proof.
  intros Hn Hdm.
  pose proof (canon_mantissa n Hn) as HM.
  assert (Hle : dig n <= 24) by (apply dig_le_of_lt_pow2; lia).
  rewrite Z2Pos.id by lia.
  rewrite <- Z.mul_assoc, <- Z.pow_add_r by lia. do 2 f_equal. lia.
Qed.

Lemma sub_int_float (a b : Z) :
  0 <= a < 2 ^ 23 -> 0 <= b < 2 ^ 23 ->
  F32.sub (int_float a) (int_float b) = int_float (a - b).
Proof.
  intros Ha Hb. unfold F32.sub, F32.prec, F32.emax.
  destruct a as [ | pa | pa]; destruct b as [ | pb | pb]; try lia;
    try reflexivity.
  cbn [int_float]. unfold canon at 1 2. cbn [SFsub cond_Zopp].
  set (da := dig (Zpos pa)). set (db := dig (Zpos pb)).
  assert (Hda : 0 < da <= 24)
    by (split; [apply dig_pos; lia | apply dig_le_of_lt_pow2; lia]).
  assert (Hdb : 0 < db <= 24)
    by (split; [apply dig_pos; lia | apply dig_le_of_lt_pow2; lia]).
  set (dm := Z.min da db).
  replace (Z.min (da - 24) (db - 24)) with (dm - 24) by (unfold dm; lia).
  rewrite !shl_align_fst by (unfold dm; lia).
  unfold da, db.
  rewrite !canon_aligned by (fold da db; unfold dm; lia).
  fold da db.
  replace (Zpos pa * 2 ^ (24 - dm) - Zpos pb * 2 ^ (24 - dm))
    with ((Zpos pa - Zpos pb) * 2 ^ (24 - dm)) by lia.
  replace (dm - 24) with (- (24 - dm)) by lia.
  apply binary_normalize_exact; unfold dm; lia.
Qed.

(** ** Division of normal numbers *)

Lemma new_location_cases (D r : Z) :
  0 < D -> 0 <= r < D ->
  (r = 0 /\ new_location D r = loc_Exact) \/
  (0 < r /\ new_location D r = loc_Inexact (2 * r ?= D)).
Proof.
  intros HD Hr. unfold new_location.
  destruct (Z.even D) eqn:Hev;
    unfold new_location_even, new_location_odd;
    destruct (Z.eqb_spec r 0) as [H0 | H0];
    try (left; split; [assumption | reflexivity]);
    right; (split; [lia | ]); try reflexivity.
  assert (Hodd : Z.odd D = true) by (rewrite <- Z.negb_even, Hev; reflexivity).
  apply Z.odd_spec in Hodd. destruct Hodd as [k Hk].
  f_equal.
  destruct (Z.compare_spec (2 * r + 1) D); destruct (Z.compare_spec (2 * r) D);
    try reflexivity; lia.
Qed.

Lemma round_new_location (q D r : Z) :
  0 < D -> 0 <= r < D ->
  round_nearest_even q (new_location D r)
  = match 2 * r ?= D with
    | Lt => q
    | Eq => if Z.even q then q else q + 1
    | Gt => q + 1
    end.
Proof.
  intros HD Hr.
  destruct (new_location_cases D r HD Hr) as [[H0 Hl] | [H0 Hl]]; rewrite Hl.
  - subst r. cbn [round_nearest_even].
    destruct (Z.compare_spec (2 * 0) D); lia.
  - destruct (2 * r ?= D); reflexivity.
Qed.

Lemma round_record_of_loc (q : Z) (l : location) :
  round_nearest_even (shr_m (shr_record_of_loc q l))
                     (loc_of_shr_record (shr_record_of_loc q l))
  = round_nearest_even q l.
Proof. destruct l as [ | [ | | ]]; reflexivity. Qed.

Lemma round_shr_1 (q D r : Z) :
  0 < D -> 0 <= r < D -> 0 < q ->
  let mrs := shr_1 (shr_record_of_loc q (new_location D r)) in
  round_nearest_even (shr_m mrs) (loc_of_shr_record mrs)
  = if Z.even q then Z.div2 q
    else if r =? 0 then (if Z.even (Z.div2 q) then Z.div2 q else Z.div2 q + 1)
         else Z.div2 q + 1.
Proof.
  intros HD Hr Hq.
  destruct (new_location_cases D r HD Hr) as [[H0 Hl] | [H0 Hl]]; rewrite Hl.
  - subst r. destruct q as [ | [p | p | ] | p]; try lia; reflexivity.
  - replace (r =? 0) with false by (symmetry; apply Z.eqb_neq; lia).
    destruct (2 * r ?= D); destruct q as [ | [p | p | ] | p]; try lia;
      reflexivity.
Qed.

Lemma rne_div_halved (N D : Z) :
  0 < D -> 0 <= N ->
  rne_div N (2 * D)
  = let q := N / D in
    let r := N mod D in
    if Z.even q then Z.div2 q
    else if r =? 0 then (if Z.even (Z.div2 q) then Z.div2 q else Z.div2 q + 1)
         else Z.div2 q + 1.
Proof.
  intros HD HN. cbv zeta.
  pose proof (Z.div_mod N D ltac:(lia)) as HND.
  pose proof (Z.mod_pos_bound N D HD) as Hr.
  set (q := N / D) in *. set (r := N mod D) in *.
  pose proof (Z.div2_odd q) as Hq2. rewrite Z.div2_div in *.
  assert (Hdiv : N / (2 * D) = q / 2).
  { unfold q. rewrite Z.mul_comm, <- Z.div_div by lia. reflexivity. }
  unfold rne_div.
  assert (Hmod : N mod (2 * D) = N - 2 * D * (q / 2)).
  { rewrite Z.mod_eq by lia. rewrite Hdiv. reflexivity. }
  rewrite Hmod, Hdiv.
  rewrite <- (Z.negb_odd q).
  destruct (Z.odd q); cbn [negb Z.b2z] in *;
    [destruct (Z.eqb_spec r 0) | ];
    destruct (Z.compare_spec (2 * (N - 2 * D * (q / 2))) (2 * D));
    first [reflexivity | nia].
Qed.

Lemma round_nearest_even_bounds (q : Z) (l : location) :
  q <= round_nearest_even q l <= q + 1.
Proof.
  destruct l as [ | [ | | ]]; cbn [round_nearest_even];
    try destruct (Z.even q); lia.
Qed.

Lemma shr_fexp_rounded (M e : Z) :
  2 ^ 23 <= M <= 2 ^ 24 -> -149 <= e ->
  shr_fexp 24 128 M e loc_Exact
  = if M =? 2 ^ 24 then (exact_record (2 ^ 23), e + 1) else (exact_record M, e).
Proof.
  intros HM He. destruct (Z.eqb_spec M (2 ^ 24)) as [Heq | Hne].
  - subst M. change (2 ^ 24) with (2 ^ 23 * 2 ^ 1).
    apply shr_fexp_exact; lia.
  - replace M with (M * 2 ^ 0) at 1 by (rewrite Z.pow_0_r; lia).
    rewrite shr_fexp_exact by lia. rewrite Z.add_0_r. reflexivity.
Qed.

Lemma pack_of_rounded (s : bool) (M e : Z) :
  2 ^ 23 <= M <= 2 ^ 24 -> -149 <= e <= 103 ->
  (let '(mrs, e') := shr_fexp 24 128 M e loc_Exact in
   match shr_m mrs with
   | 0 => S754_zero s
   | Zpos m => if e' <=? 128 - 24 then S754_finite s m e' else S754_infinity s
   | Zneg _ => S754_nan
   end) = pack s e M.
Proof.
  intros HM He. rewrite shr_fexp_rounded by lia. unfold pack.
  destruct (Z.eqb_spec M (2 ^ 24)) as [Heq | Hne]; cbn [exact_record shr_m].
  - replace (e + 1 <=? 128 - 24) with true by (symmetry; apply Z.leb_le; lia).
    reflexivity.
  - destruct M as [ | p | p]; try lia.
    replace (e <=? 128 - 24) with true by (symmetry; apply Z.leb_le; lia).
    reflexivity.
Qed.

Lemma binary_round_aux_24 (s : bool) (q e : Z) (l : location) :
  2 ^ 23 <= q < 2 ^ 24 -> -149 <= e <= 103 ->
  binary_round_aux 24 128 s q e l = pack s e (round_nearest_even q l).
Proof.
  intros Hq He. unfold binary_round_aux.
  assert (Hs : shr_fexp 24 128 q e l = (shr_record_of_loc q l, e)).
  { unfold shr_fexp. rewrite Zdigits2_pos by lia.
    rewrite (dig_unique q 24) by lia. rewrite fexp32_normal by lia.
    replace (24 + e - 24 - e) with 0 by lia. reflexivity. }
  rewrite Hs, round_record_of_loc.
  pose proof (round_nearest_even_bounds q l).
  apply pack_of_rounded; lia.
Qed.

Lemma shr_m_shr_1 (q : Z) (l : location) :
  0 < q -> shr_m (shr_1 (shr_record_of_loc q l)) = Z.div2 q.
Proof.
  intros Hq. destruct l as [ | [ | | ]]; destruct q as [ | [p | p | ] | p];
    try lia; reflexivity.
Qed.

Lemma binary_round_aux_25 (s : bool) (q e : Z) (l : location) :
  2 ^ 24 <= q < 2 ^ 25 -> -149 <= e + 1 <= 103 ->
  binary_round_aux 24 128 s q e l
  = pack s (e + 1)
      (round_nearest_even (shr_m (shr_1 (shr_record_of_loc q l)))
         (loc_of_shr_record (shr_1 (shr_record_of_loc q l)))).
Proof.
  intros Hq He. unfold binary_round_aux.
  assert (Hs : shr_fexp 24 128 q e l = (shr_1 (shr_record_of_loc q l), e + 1)).
  { unfold shr_fexp. rewrite Zdigits2_pos by lia.
    rewrite (dig_unique q 25) by lia. rewrite fexp32_normal by lia.
    replace (25 + e - 24 - e) with 1 by lia. reflexivity. }
  rewrite Hs.
  pose proof (round_nearest_even_bounds
                (shr_m (shr_1 (shr_record_of_loc q l)))
                (loc_of_shr_record (shr_1 (shr_record_of_loc q l)))) as Hb.
  rewrite shr_m_shr_1 in Hb |- * by lia.
  assert (2 ^ 23 <= Z.div2 q < 2 ^ 24).
  { rewrite Z.div2_div. split.
    - apply Z.div_le_lower_bound; lia.
    - apply Z.div_lt_upper_bound; lia. }
  apply pack_of_rounded; lia.
Qed.

(** The quotient of two normal binary32 numbers is the correctly rounded
    quotient of their mantissas, at the exponent the comparison of the
    mantissas decides. *)
Lemma div_normal (sx sy : bool) (mx my : positive) (ex ey : Z) :
  2 ^ 23 <= Zpos mx < 2 ^ 24 -> 2 ^ 23 <= Zpos my < 2 ^ 24 ->
  -100 <= ex - ey <= 100 ->
  F32.div (S754_finite sx mx ex) (S754_finite sy my ey)
  = if Zpos mx <? Zpos my
    then pack (xorb sx sy) (ex - ey - 24) (rne_div (Zpos mx * 2 ^ 24) (Zpos my))
    else pack (xorb sx sy) (ex - ey - 23)
              (rne_div (Zpos mx * 2 ^ 24) (2 * Zpos my)).
Proof.
  intros Hx Hy He. unfold F32.div, F32.prec, F32.emax.
  cbn [SFdiv]. unfold SFdiv_core_binary.
  rewrite !Zdigits2_pos by lia.
  rewrite (dig_unique (Zpos mx) 24), (dig_unique (Zpos my) 24) by lia.
  rewrite fexp32_normal by lia.
  replace (Z.min (24 + ex - (24 + ey) - 24) (ex - ey)) with (ex - ey - 24) by lia.
  replace (ex - ey - (ex - ey - 24)) with 24 by lia.
  rewrite Z.shiftl_mul_pow2 by lia.
  set (N := Zpos mx * 2 ^ 24). set (D := Zpos my).
  assert (HD : 0 < D) by (unfold D; lia).
  assert (HN : 0 <= N) by (unfold N; lia).
  pose proof (Z.div_mod N D ltac:(lia)) as HND.
  pose proof (Z.mod_pos_bound N D HD) as Hr.
  pose proof (rne_div_halved N D HD HN) as Hhalf. cbv zeta in Hhalf.
  assert (Hq' : N / D = fst (Z.div_eucl N D))
    by (unfold Z.div; destruct (Z.div_eucl N D); reflexivity).
  assert (Hr' : N mod D = snd (Z.div_eucl N D))
    by (unfold Z.modulo; destruct (Z.div_eucl N D); reflexivity).
  destruct (Z.div_eucl N D) as [q r]. cbn [fst snd] in Hq', Hr'.
  rewrite Hhalf. unfold rne_div. rewrite Hq', Hr' in *.
  destruct (Z.ltb_spec (Zpos mx) D) as [Hlt | Hge].
  - assert (2 ^ 23 <= q < 2 ^ 24) by (unfold N in *; nia).
    rewrite binary_round_aux_24 by lia.
    rewrite round_new_location by lia. reflexivity.
  - assert (2 ^ 24 <= q < 2 ^ 25) by (unfold N in *; nia).
    rewrite binary_round_aux_25 by lia.
    rewrite round_shr_1 by lia.
    replace (ex - ey - 24 + 1) with (ex - ey - 23) by lia.
    reflexivity.
Qed.

(** ** Rounding to nearest is monotone *)

Lemma rne_div_bounds (N D : Z) : N / D <= rne_div N D <= N / D + 1.
Proof.
  unfold rne_div. destruct (2 * (N mod D) ?= D); try destruct (Z.even (N / D)); lia.
Qed.

Lemma rne_div_mono (N1 N2 D : Z) :
  0 < D -> N1 <= N2 -> rne_div N1 D <= rne_div N2 D.
Proof.
  intros HD HN.
  pose proof (Z.div_le_mono N1 N2 D HD HN) as Hq.
  pose proof (rne_div_bounds N1 D) as H1.
  pose proof (rne_div_bounds N2 D) as H2.
  destruct (Z.eq_dec (N1 / D) (N2 / D)) as [Heq | Hne]; [ | lia].
  pose proof (Z.div_mod N1 D ltac:(lia)) as E1.
  pose proof (Z.div_mod N2 D ltac:(lia)) as E2.
  assert (Hr : N1 mod D <= N2 mod D) by (rewrite Heq in E1; nia).
  unfold rne_div. rewrite Heq.
  destruct (Z.compare_spec (2 * (N1 mod D)) D);
    destruct (Z.compare_spec (2 * (N2 mod D)) D);
    try destruct (Z.even (N2 / D)); lia.
Qed.

Lemma rne_div_scale (N D k : Z) :
  0 < D -> 0 < k -> rne_div (N * k) (D * k) = rne_div N D.
Proof.
  intros HD Hk. unfold rne_div.
  rewrite Z.div_mul_cancel_r by lia.
  rewrite Z.mul_mod_distr_r by lia.
  pose proof (Z.mod_pos_bound N D HD).
  destruct (Z.compare_spec (2 * (N mod D * k)) (D * k));
    destruct (Z.compare_spec (2 * (N mod D)) D); try reflexivity; nia.
Qed.

Lemma rne_div_exact (q D : Z) : 0 < D -> rne_div (q * D) D = q.
Proof.
  intros HD. unfold rne_div.
  rewrite Z.div_mul, Z.mod_mul by lia.
  destruct (Z.compare_spec (2 * 0) D); lia.
Qed.

(** ** Order of the rounded results *)

Lemma pack_positive (E M : Z) :
  2 ^ 23 <= M <= 2 ^ 24 -> exists m e, pack false E M = S754_finite false m e.
Proof. intros H. unfold pack. destruct (M =? 2 ^ 24); eauto. Qed.

Lemma pack_leb (E1 E2 M1 M2 : Z) :
  2 ^ 23 <= M1 <= 2 ^ 24 -> 2 ^ 23 <= M2 <= 2 ^ 24 ->
  E1 < E2 \/ (E1 = E2 /\ M1 <= M2) ->
  SFleb (pack false E1 M1) (pack false E2 M2) = true.
Proof.
  intros H1 H2 Hord. unfold pack.
  destruct (Z.eqb_spec M1 (2 ^ 24)); destruct (Z.eqb_spec M2 (2 ^ 24));
    unfold SFleb; cbn [SFcompare].
  - destruct (Z.compare_spec (E1 + 1) (E2 + 1)); try lia; reflexivity.
  - destruct (Z.compare_spec (E1 + 1) E2); try lia; try reflexivity.
    change (Pos.compare_cont Eq (Z.to_pos (2 ^ 23)) (Z.to_pos M2))
      with (Pos.compare (Z.to_pos (2 ^ 23)) (Z.to_pos M2)).
    rewrite <- Z2Pos.inj_compare by lia.
    destruct (Z.compare_spec (2 ^ 23) M2); try lia; reflexivity.
  - destruct (Z.compare_spec E1 (E2 + 1)); try lia; reflexivity.
  - destruct (Z.compare_spec E1 E2); try lia; try reflexivity.
    change (Pos.compare_cont Eq (Z.to_pos M1) (Z.to_pos M2))
      with (Pos.compare (Z.to_pos M1) (Z.to_pos M2)).
    rewrite <- Z2Pos.inj_compare by lia.
    destruct (Z.compare_spec M1 M2); try lia; reflexivity.
Qed.

Lemma rne_div_normal (m D : Z) :
  0 < D -> 2 ^ 23 * D <= m < 2 ^ 24 * D -> 2 ^ 23 <= rne_div m D <= 2 ^ 24.
Proof.
  intros HD Hm. pose proof (rne_div_bounds m D).
  assert (2 ^ 23 <= m / D) by (apply Z.div_le_lower_bound; lia).
  assert (m / D < 2 ^ 24) by (apply Z.div_lt_upper_bound; lia).
  lia.
Qed.

(** Division by a positive normal number is monotone in the dividend. *)
Lemma div_normal_mono (m1 m2 my : positive) (e1 e2 ey : Z) :
  2 ^ 23 <= Zpos m1 < 2 ^ 24 -> 2 ^ 23 <= Zpos m2 < 2 ^ 24 ->
  2 ^ 23 <= Zpos my < 2 ^ 24 ->
  -100 <= e1 - ey <= 100 -> -100 <= e2 - ey <= 100 ->
  e1 < e2 \/ (e1 = e2 /\ Zpos m1 <= Zpos m2) ->
  SFleb (F32.div (S754_finite false m1 e1) (S754_finite false my ey))
        (F32.div (S754_finite false m2 e2) (S754_finite false my ey)) = true.
Proof.
  intros H1 H2 Hy He1 He2 Hord.
  rewrite !div_normal by assumption. cbn [xorb].
  set (D := Zpos my) in *. set (A1 := Zpos m1) in *. set (A2 := Zpos m2) in *.
  destruct (Z.ltb_spec A1 D) as [L1 | G1]; destruct (Z.ltb_spec A2 D) as [L2 | G2];
    apply pack_leb; try (apply rne_div_normal; lia).
  - destruct Hord as [Hlt | [Heq Hle]]; [left; lia | right].
    split; [lia | apply rne_div_mono; lia].
  - left. lia.
  - destruct Hord as [Hlt | [Heq Hle]]; [ | lia].
    destruct (Z.eq_dec (e1 + 1) e2) as [Hs | Hs]; [right | left; lia].
    split; [lia | ].
    rewrite <- (rne_div_scale (A2 * 2 ^ 24) D 2) by lia.
    rewrite (Z.mul_comm D 2). apply rne_div_mono; lia.
  - destruct Hord as [Hlt | [Heq Hle]]; [left; lia | right].
    split; [lia | apply rne_div_mono; lia].
Qed.

(** ** Quotients of small integers *)

Lemma canon_leb_data (a1 a2 : Z) :
  0 < a1 <= a2 -> a2 < 2 ^ 24 ->
  dig a1 - 24 < dig a2 - 24 \/
  (dig a1 - 24 = dig a2 - 24 /\
   a1 * 2 ^ (24 - dig a1) <= a2 * 2 ^ (24 - dig a2)).
Proof.
  intros Ha H2.
  pose proof (dig_le a1 a2 ltac:(lia) ltac:(lia)) as Hd.
  destruct (Z.eq_dec (dig a1) (dig a2)) as [Heq | Hne]; [right | left; lia].
  split; [lia | ]. rewrite Heq.
  assert (dig a2 <= 24) by (apply dig_le_of_lt_pow2; lia).
  apply Z.mul_le_mono_nonneg_r; [apply Z.pow_nonneg | ]; lia.
Qed.

Lemma div_int_positive (a d : Z) :
  0 < a < 2 ^ 24 -> 0 < d < 2 ^ 24 ->
  exists m e, F32.div (int_float a) (int_float d) = S754_finite false m e.
Proof.
  intros Ha Hd.
  pose proof (canon_mantissa a Ha) as HA. pose proof (canon_mantissa d Hd) as HD.
  pose proof (dig_pos a ltac:(lia)). pose proof (dig_pos d ltac:(lia)).
  assert (dig a <= 24) by (apply dig_le_of_lt_pow2; lia).
  assert (dig d <= 24) by (apply dig_le_of_lt_pow2; lia).
  destruct a as [ | pa | pa]; destruct d as [ | pd | pd]; try lia.
  cbn [int_float]. unfold canon.
  rewrite div_normal by (rewrite ?Z2Pos.id; lia). cbn [xorb].
  rewrite !Z2Pos.id by lia.
  match goal with
  | |- context [?x <? ?y] => destruct (Z.ltb_spec x y)
  end; apply pack_positive; apply rne_div_normal; lia.
Qed.

Lemma div_int_mono (a1 a2 d : Z) :
  0 <= a1 <= a2 -> a2 < 2 ^ 24 -> 0 < d < 2 ^ 24 ->
  SFleb (F32.div (int_float a1) (int_float d))
        (F32.div (int_float a2) (int_float d)) = true.
Proof.
  intros Ha H2 Hd.
  destruct (Z.eq_dec a1 0) as [Hz1 | Hz1].
  - subst a1. destruct (Z.eq_dec a2 0) as [Hz2 | Hz2].
    + subst a2. destruct d; try lia. reflexivity.
    + destruct (div_int_positive a2 d ltac:(lia) Hd) as (m & e & Hq).
      rewrite Hq. destruct d; try lia. reflexivity.
  - pose proof (canon_leb_data a1 a2 ltac:(lia) H2) as Hord.
    pose proof (canon_mantissa a1 ltac:(lia)) as HA1.
    pose proof (canon_mantissa a2 ltac:(lia)) as HA2.
    pose proof (canon_mantissa d Hd) as HD.
    pose proof (dig_pos a1 ltac:(lia)). pose proof (dig_pos a2 ltac:(lia)).
    pose proof (dig_pos d ltac:(lia)).
    assert (dig a1 <= 24) by (apply dig_le_of_lt_pow2; lia).
    assert (dig a2 <= 24) by (apply dig_le_of_lt_pow2; lia).
    assert (dig d <= 24) by (apply dig_le_of_lt_pow2; lia).
    destruct a1 as [ | p1 | p1]; destruct a2 as [ | p2 | p2];
      destruct d as [ | pd | pd]; try lia.
    cbn [int_float]. unfold canon.
    apply div_normal_mono; rewrite ?Z2Pos.id; lia.
Qed.

Lemma div_int_self (d : Z) :
  0 < d < 2 ^ 24 -> F32.div (int_float d) (int_float d) = fone.
Proof.
  intros Hd.
  pose proof (canon_mantissa d Hd) as HD.
  destruct d as [ | pd | pd]; try lia.
  cbn [int_float]. unfold canon.
  rewrite div_normal by (rewrite ?Z2Pos.id; lia).
  rewrite Z.ltb_irrefl. rewrite !Z2Pos.id by lia.
  set (M := Zpos pd * 2 ^ (24 - dig (Zpos pd))) in *.
  replace (M * 2 ^ 24) with (2 ^ 23 * (2 * M)) by lia.
  rewrite rne_div_exact by lia.
  replace (dig (Zpos pd) - 24 - (dig (Zpos pd) - 24) - 23) with (-23) by lia.
  reflexivity.
Qed.

(** ** The quotient of small integers is correctly rounded *)

(** [F32.div] of two small positive integers is the quotient scaled into
    the 24-bit range, rounded to nearest even. *)
Lemma div_int_rounded (a d : Z) :
  0 < a < 2 ^ 24 -> 0 < d < 2 ^ 24 ->
  exists K,
    0 <= K <= 48 /\
    2 ^ 23 * d <= a * 2 ^ K < 2 ^ 24 * d /\
    F32.div (int_float a) (int_float d) = pack false (- K) (rne_div (a * 2 ^ K) d).
Proof.
  intros Ha Hd.
  pose proof (canon_mantissa a Ha) as HA. pose proof (canon_mantissa d Hd) as HD.
  pose proof (dig_pos a ltac:(lia)) as Hda. pose proof (dig_pos d ltac:(lia)) as Hdd.
  assert (Hda' : dig a <= 24) by (apply dig_le_of_lt_pow2; lia).
  assert (Hdd' : dig d <= 24) by (apply dig_le_of_lt_pow2; lia).
  destruct a as [ | pa | pa]; destruct d as [ | pd | pd]; try lia.
  cbn [int_float]. unfold canon.
  rewrite div_normal by (rewrite ?Z2Pos.id; lia). cbn [xorb].
  rewrite !Z2Pos.id by lia.
  set (a := Zpos pa) in *. set (d := Zpos pd) in *.
  set (A := a * 2 ^ (24 - dig a)) in *. set (D := d * 2 ^ (24 - dig d)) in *.
  destruct (Z.ltb_spec A D) as [Hlt | Hge].
  - exists (24 - dig a + dig d).
    set (P := 2 ^ (24 - dig d)).
    assert (HP : 0 < P) by (apply Z.pow_pos_nonneg; lia).
    assert (HN : A * 2 ^ 24 = a * 2 ^ (24 - dig a + dig d) * P).
    { unfold A, P. rewrite <- !Z.mul_assoc, <- !Z.pow_add_r by lia.
      do 2 f_equal. lia. }
    split; [lia | ]. split.
    + split.
      * apply (Z.mul_le_mono_pos_r _ _ P HP). rewrite <- HN.
        replace (2 ^ 23 * d * P) with (2 ^ 23 * D) by (unfold D, P; lia). lia.
      * apply (Z.mul_lt_mono_pos_r P _ _ HP). rewrite <- HN.
        replace (2 ^ 24 * d * P) with (2 ^ 24 * D) by (unfold D, P; lia). lia.
    + rewrite HN. unfold D. fold P. rewrite rne_div_scale by lia.
      f_equal. lia.
  - exists (23 - dig a + dig d).
    set (P := 2 ^ (25 - dig d)).
    assert (HP : 0 < P) by (apply Z.pow_pos_nonneg; lia).
    assert (HP2 : P = 2 * 2 ^ (24 - dig d)).
    { unfold P. replace (25 - dig d) with (Z.succ (24 - dig d)) by lia.
      rewrite Z.pow_succ_r by lia. reflexivity. }
    assert (HN : A * 2 ^ 24 = a * 2 ^ (23 - dig a + dig d) * P).
    { unfold A, P. rewrite <- !Z.mul_assoc, <- !Z.pow_add_r by lia.
      do 2 f_equal. lia. }
    assert (HD2 : 2 * D = d * P) by (unfold D; rewrite HP2; lia).
    split; [lia | ]. split.
    + split.
      * apply (Z.mul_le_mono_pos_r _ _ P HP). rewrite <- HN.
        replace (2 ^ 23 * d * P) with (2 ^ 23 * (2 * D)) by (rewrite HD2; lia). lia.
      * apply (Z.mul_lt_mono_pos_r P _ _ HP). rewrite <- HN.
        replace (2 ^ 24 * d * P) with (2 ^ 24 * (2 * D)) by (rewrite HD2; lia). lia.
    + rewrite HN, HD2. rewrite rne_div_scale by lia.
      f_equal. lia.
Qed.


Lemma pack_ltb (E1 E2 M1 M2 : Z) :
  2 ^ 23 <= M1 <= 2 ^ 24 -> 2 ^ 23 <= M2 <= 2 ^ 24 ->
  E1 + 1 < E2 \/ (E1 + 1 = E2 /\ (M1 < 2 ^ 24 \/ 2 ^ 23 < M2)) \/
  (E1 = E2 /\ M1 < M2) ->
  SFltb (pack false E1 M1) (pack false E2 M2) = true.
Proof.
  intros H1 H2 Hord. unfold pack.
  destruct (Z.eqb_spec M1 (2 ^ 24)); destruct (Z.eqb_spec M2 (2 ^ 24));
    unfold SFltb; cbn [SFcompare].
  - destruct (Z.compare_spec (E1 + 1) (E2 + 1)); try lia; reflexivity.
  - destruct (Z.compare_spec (E1 + 1) E2); try lia; try reflexivity.
    change (Pos.compare_cont Eq (Z.to_pos (2 ^ 23)) (Z.to_pos M2))
      with (Pos.compare (Z.to_pos (2 ^ 23)) (Z.to_pos M2)).
    rewrite <- Z2Pos.inj_compare by lia.
    destruct (Z.compare_spec (2 ^ 23) M2); try lia; reflexivity.
  - destruct (Z.compare_spec E1 (E2 + 1)); try lia; reflexivity.
  - destruct (Z.compare_spec E1 E2); try lia; try reflexivity.
    change (Pos.compare_cont Eq (Z.to_pos M1) (Z.to_pos M2))
      with (Pos.compare (Z.to_pos M1) (Z.to_pos M2)).
    rewrite <- Z2Pos.inj_compare by lia.
    destruct (Z.compare_spec M1 M2); try lia; reflexivity.
Qed.

Lemma pow2_le_mono (i j : Z) : 0 <= i <= j -> 2 ^ i <= 2 ^ j.
Proof. intros H. apply Z.pow_le_mono_r; lia. Qed.


(** ** Comparisons *)

Lemma SFcompare_swap (x y : spec_float) :
  SFcompare y x = option_map CompOpp (SFcompare x y).
Proof.
  destruct x as [sx | sx | | sx mx ex]; destruct y as [sy | sy | | sy my ey];
    try reflexivity;
    try (destruct sx; reflexivity); try (destruct sy; reflexivity);
    try (destruct sx, sy; reflexivity).
  cbn [SFcompare option_map].
  destruct sx, sy; try reflexivity;
    rewrite (Z.compare_antisym ey ex);
    destruct (ey ?= ex); cbn [CompOpp]; try reflexivity;
    rewrite (Pos.compare_cont_antisym mx my Eq); cbn [CompOpp];
    destruct (Pos.compare_cont Eq mx my); reflexivity.
Qed.

Lemma fle_not_fgt (x y : spec_float) : fle x y = true -> fgt x y = false.
Proof.
  unfold fle, fgt, SFleb, SFltb. rewrite (SFcompare_swap x y).
  destruct (SFcompare x y) as [[ | | ] | ]; cbn; congruence.
Qed.

Lemma fle_not_flt (x y : spec_float) : fle x y = true -> flt y x = false.
Proof. exact (fle_not_fgt x y). Qed.

(** * The percentage helper on sensor values *)

(** Sensor values reach [getPercent] as [ubyte2] members converted to
    [float4]; on such arguments both subtractions are exact. *)
Lemma getPercent_unbounded (v mn mx : Z) :
  is_ubyte2 v -> is_ubyte2 mn -> is_ubyte2 mx ->
  getPercent (F32.of_Z v) (F32.of_Z mn) (F32.of_Z mx) false
  = F32.div (int_float (v - mn)) (int_float (mx - mn)).
Proof.
  unfold is_ubyte2. intros Hv Hmn Hmx. unfold getPercent.
  rewrite !of_Z_int_float by lia.
  rewrite !sub_int_float by lia. reflexivity.
Qed.

Lemma getPercent_clamp (value min max : spec_float) :
  getPercent value min max true
  = let retVal := getPercent value min max false in
    if fgt retVal fone then fone
    else if flt retVal fzero then fzero else retVal.
Proof. reflexivity. Qed.

Lemma quotient_in_unit_interval (a d : Z) :
  0 <= a <= d -> 0 < d < 2 ^ 24 ->
  in_unit_interval (F32.div (int_float a) (int_float d)).
Proof.
  intros Ha Hd. split.
  - replace fzero with (F32.div (int_float 0) (int_float d))
      by (destruct d; try lia; reflexivity).
    apply div_int_mono; lia.
  - rewrite <- (div_int_self d Hd). apply div_int_mono; lia.
Qed.

Lemma getPercent_bounded_id (v mn mx : Z) :
  is_ubyte2 mn -> is_ubyte2 mx -> mn < mx -> mn <= v <= mx ->
  getPercent (F32.of_Z v) (F32.of_Z mn) (F32.of_Z mx) true
  = F32.div (int_float (v - mn)) (int_float (mx - mn)).
Proof.
  unfold is_ubyte2. intros Hmn Hmx Hlt Hv.
  rewrite getPercent_clamp. cbv zeta.
  rewrite getPercent_unbounded by (unfold is_ubyte2; lia).
  destruct (quotient_in_unit_interval (v - mn) (mx - mn)) as [H0 H1]; try lia.
  rewrite (fle_not_fgt _ _ H1), (fle_not_flt _ _ H0). reflexivity.
Qed.

(** The model computes the binary32 results: 2/3 is [0x3F2AAAAB], 0.52
    is [0x3F051EB8], and the literal [.1] is the [double]
    [0x3FB999999999999A]. *)
Example getPercent_two_thirds :
  getPercent (F32.of_Z 3) (F32.of_Z 1) (F32.of_Z 4) false
  = S754_finite false 11184811 (-24).
Proof. vm_compute. reflexivity. Qed.

Example PedalPercent_52 :
  PedalPercent (TPS0 plausible_state) = S754_finite false 8724152 (-24).
Proof. vm_compute. reflexivity. Qed.

Example tolerance_value :
  tolerance = S754_finite false 7205759403792794 (-56).
Proof. vm_compute. reflexivity. Qed.

(** * Claims *)

(** ** The plausibility evaluation *)

Lemma TPSErrorState_zero (st : State) :
  TPSErrorState st = 0 <->
  out_of_range (TPS0 st) = false /\ out_of_range (TPS1 st) = false /\
  discrepancy st = false /\ uncalibrated st = false.
Proof.
  unfold TPSErrorState.
  destruct (out_of_range (TPS0 st)), (out_of_range (TPS1 st)),
    (discrepancy st), (uncalibrated st); cbv; intuition congruence.
Qed.

Lemma TPSErrorState_range (st : State) : 0 <= TPSErrorState st <= 4.
Proof.
  unfold TPSErrorState.
  destruct (out_of_range (TPS0 st)), (out_of_range (TPS1 st)),
    (discrepancy st), (uncalibrated st); cbv; intuition congruence.
Qed.

Lemma out_of_range_spec (s : Sensor) :
  out_of_range s = true <->
  sensorValue s < specMin s \/ sensorValue s > specMax s.
Proof.
  unfold out_of_range. rewrite orb_true_iff, Z.ltb_lt, Z.gtb_gt. reflexivity.
Qed.


Lemma counted_fault_failsafe (st : State) :
  out_of_range (TPS0 st) = true \/ out_of_range (TPS1 st) = true \/
  discrepancy st = true \/ uncalibrated st = true ->
  0 < TPSErrorState st /\ GetThrottlePosition st = fzero.
Proof.
  intros Hfault.
  pose proof (TPSErrorState_range st) as Hr.
  assert (Hpos : 0 < TPSErrorState st).
  { destruct (Z.eq_dec (TPSErrorState st) 0) as [Hz | Hnz]; [ | lia].
    apply TPSErrorState_zero in Hz. destruct Hz as (R0 & R1 & Dc & Uc).
    intuition congruence. }
  split; [exact Hpos | ].
  unfold GetThrottlePosition.
  destruct (Z.gtb_spec (TPSErrorState st) 0); [reflexivity | lia].
Qed.

(** The example of the specification: fractions 0.52 and 0.48 agree
    within the tolerance and give one half. *)
Example plausible_state_half :
  GetThrottlePosition plausible_state = F32.div fone (F32.of_Z 2).
Proof. vm_compute. reflexivity. Qed.

(** With the spec bounds of TPS1 in ascending order (which the program as
    initialized never has), a calibrated, in-range, agreeing pair of
    channels whose samples lie above the calibrated range evaluates to 2:
    the fractions are computed without the bound. *)
Example overtravel_exceeds_one :
  TPSErrorState overtravel_state = 0 /\
  GetThrottlePosition overtravel_state = F32.of_Z 2 /\
  fle (GetThrottlePosition overtravel_state) fone = false.
Proof. vm_compute. repeat split; reflexivity. Qed.

(** With a zero calibration span on both channels the evaluation returns
    an infinity: the difference of the two infinite fractions is a NaN,
    which compares false against the tolerance. *)
Example zero_span_infinite :
  TPSErrorState zero_span_state = 0 /\
  GetThrottlePosition zero_span_state = S754_infinity false.
Proof. vm_compute. split; reflexivity. Qed.

(** ** Zero calibration span *)

(** C3, as stated, fails: with [max = min] the division is performed and
    its result returned; no error is reported. *)
Lemma zero_span_division_is_performed :
  getPercent (F32.of_Z 3) (F32.of_Z 3) (F32.of_Z 3) true = S754_nan /\
  getPercent (F32.of_Z 3) (F32.of_Z 3) (F32.of_Z 3) false = S754_nan /\
  getPercent (F32.of_Z 4) (F32.of_Z 3) (F32.of_Z 3) false = S754_infinity false.
Proof. vm_compute. repeat split; reflexivity. Qed.

(** C3 (amended). [getPercent] divides whatever the span: on sensor
    values with [max = min] it returns a NaN when [value = min] and
    otherwise the infinity of the sign of [value - min], which the bounded
    variant turns into 1 or 0; the NaN is returned by both variants. *)
Theorem getPercent_zero_span (v mn : Z) (zeroToOneOnly : bool) :
  is_ubyte2 v -> is_ubyte2 mn ->
  getPercent (F32.of_Z v) (F32.of_Z mn) (F32.of_Z mn) zeroToOneOnly
  = if v =? mn then S754_nan
    else if zeroToOneOnly then (if mn <? v then fone else fzero)
         else S754_infinity (v <? mn).
Proof.
  unfold is_ubyte2. intros Hv Hmn.
  assert (Hu : getPercent (F32.of_Z v) (F32.of_Z mn) (F32.of_Z mn) false
               = if v =? mn then S754_nan else S754_infinity (v <? mn)).
  { rewrite getPercent_unbounded by (unfold is_ubyte2; lia).
    replace (mn - mn) with 0 by lia.
    destruct (Z.eqb_spec v mn) as [Heq | Hne].
    - subst v. replace (mn - mn) with 0 by lia. reflexivity.
    - destruct (Z.ltb_spec v mn) as [Hlt | Hge];
        destruct (v - mn) as [ | p | p] eqn:Hd; try lia; reflexivity. }
  destruct zeroToOneOnly; [ | exact Hu].
  rewrite getPercent_clamp. cbv zeta. rewrite Hu.
  destruct (Z.eqb_spec v mn) as [Heq | Hne]; [reflexivity | ].
  destruct (Z.ltb_spec v mn) as [Hlt | Hge];
    destruct (Z.ltb_spec mn v); try lia; reflexivity.
Qed.

Lemma getPercent_zero_span_witness :
  is_ubyte2 7 /\ is_ubyte2 5 /\
  getPercent (F32.of_Z 7) (F32.of_Z 5) (F32.of_Z 5) false = S754_infinity false.
Proof.
  assert (U7 : is_ubyte2 7) by (unfold is_ubyte2; lia).
  assert (U5 : is_ubyte2 5) by (unfold is_ubyte2; lia).
  split; [exact U7 | ]. split; [exact U5 | ].
  exact (getPercent_zero_span 7 5 false U7 U5).
Defined.

(** ** Calibration *)

Lemma calibration_loop_run (limit : Z) (body rest : list Tick) (t_end : Tick)
  (st : State) :
  run_until limit body t_end ->
  calibration_loop limit (body ++ t_end :: rest) st
  = Some (fold_left observe body st).
Proof.
  intros [Hbody Hend]. revert st.
  induction Hbody as [ | t body Ht Hbody IH]; intros st; cbn [app calibration_loop fold_left].
  - destruct (Z.ltb_spec (ubyte4 (elapsed_us t_end)) limit); [lia | reflexivity].
  - destruct (Z.ltb_spec (ubyte4 (elapsed_us t)) limit); [ | lia].
    rewrite IH. reflexivity.
Qed.

Lemma calibrateTPS_run (secs : Z) (body rest : list Tick) (t_end : Tick)
  (st : State) :
  run_until (calibration_limit secs) body t_end ->
  calibrateTPS secs (body ++ t_end :: rest) st
  = Some (commit_calibration (fold_left observe body (reset_calibration st))).
Proof.
  intros Hrun. unfold calibrateTPS.
  rewrite (calibration_loop_run _ _ _ _ _ Hrun). reflexivity.
Qed.

Lemma record_sensor_fields (s : Sensor) :
  calibMin (record_sensor s) = Z.min (calibMin s) (sensorValue s) /\
  calibMax (record_sensor s) = Z.max (calibMax s) (sensorValue s) /\
  specMin (record_sensor s) = specMin s /\
  specMax (record_sensor s) = specMax s /\
  isCalibrated (record_sensor s) = isCalibrated s.
Proof.
  unfold record_sensor.
  destruct (Z.ltb_spec (sensorValue s) (calibMin s));
    cbn [sensorValue calibMax calibMin set_calibMin];
    match goal with
    | |- context [?a >? ?b] => destruct (Z.gtb_spec a b)
    end;
    cbn [sensorValue calibMax calibMin specMin specMax isCalibrated
         set_calibMin set_calibMax];
    repeat split; lia.
Qed.

Lemma observe_TPS0 (st : State) (t : Tick) :
  calibMin (TPS0 (observe st t)) = Z.min (calibMin (TPS0 st)) (ubyte2 (sample0 t)) /\
  calibMax (TPS0 (observe st t)) = Z.max (calibMax (TPS0 st)) (ubyte2 (sample0 t)) /\
  specMin (TPS0 (observe st t)) = specMin (TPS0 st) /\
  specMax (TPS0 (observe st t)) = specMax (TPS0 st) /\
  isCalibrated (TPS0 (observe st t)) = isCalibrated (TPS0 st).
Proof.
  unfold observe, record_minmax, deposit. cbn [TPS0 TPS1].
  exact (record_sensor_fields (set_sensorValue (sample0 t) (TPS0 st))).
Qed.

Lemma observe_TPS1 (st : State) (t : Tick) :
  calibMin (TPS1 (observe st t)) = Z.min (calibMin (TPS1 st)) (ubyte2 (sample1 t)) /\
  calibMax (TPS1 (observe st t)) = Z.max (calibMax (TPS1 st)) (ubyte2 (sample1 t)) /\
  specMin (TPS1 (observe st t)) = specMin (TPS1 st) /\
  specMax (TPS1 (observe st t)) = specMax (TPS1 st) /\
  isCalibrated (TPS1 (observe st t)) = isCalibrated (TPS1 st).
Proof.
  unfold observe, record_minmax, deposit. cbn [TPS0 TPS1].
  exact (record_sensor_fields (set_sensorValue (sample1 t) (TPS1 st))).
Qed.

Lemma observed_TPS0 (body : list Tick) (st : State) :
  calibMin (TPS0 (fold_left observe body st))
  = fold_left Z.min (samples0 body) (calibMin (TPS0 st)) /\
  calibMax (TPS0 (fold_left observe body st))
  = fold_left Z.max (samples0 body) (calibMax (TPS0 st)) /\
  specMin (TPS0 (fold_left observe body st)) = specMin (TPS0 st) /\
  specMax (TPS0 (fold_left observe body st)) = specMax (TPS0 st).
Proof.
  revert st. induction body as [ | t body IH]; intros st; cbn [fold_left samples0 map].
  - repeat split.
  - destruct (IH (observe st t)) as (A & B & C & D).
    destruct (observe_TPS0 st t) as (A' & B' & C' & D' & _).
    fold (samples0 body). rewrite A, B, C, D, A', B', C', D'. repeat split.
Qed.

Lemma observed_TPS1 (body : list Tick) (st : State) :
  calibMin (TPS1 (fold_left observe body st))
  = fold_left Z.min (samples1 body) (calibMin (TPS1 st)) /\
  calibMax (TPS1 (fold_left observe body st))
  = fold_left Z.max (samples1 body) (calibMax (TPS1 st)) /\
  specMin (TPS1 (fold_left observe body st)) = specMin (TPS1 st) /\
  specMax (TPS1 (fold_left observe body st)) = specMax (TPS1 st).
Proof.
  revert st. induction body as [ | t body IH]; intros st; cbn [fold_left samples1 map].
  - repeat split.
  - destruct (IH (observe st t)) as (A & B & C & D).
    destruct (observe_TPS1 st t) as (A' & B' & C' & D' & _).
    fold (samples1 body). rewrite A, B, C, D, A', B', C', D'. repeat split.
Qed.

Lemma fold_min_reaches (l : list Z) (init lo : Z) :
  In lo l -> Forall (fun v => lo <= v) l -> lo <= init ->
  fold_left Z.min l init = lo.
Proof.
  revert init. induction l as [ | x l IH]; intros init Hin Hall Hinit.
  - destruct Hin.
  - inversion Hall as [ | ? ? Hx Hl]; subst. cbn [fold_left].
    destruct Hin as [-> | Hin].
    + replace (Z.min init lo) with lo by lia.
      clear IH. revert Hl. clear. induction l as [ | y l IH]; intros Hl.
      * reflexivity.
      * inversion Hl; subst. cbn [fold_left].
        replace (Z.min lo y) with lo by lia. auto.
    + apply IH; try assumption. lia.
Qed.

Lemma fold_max_reaches (l : list Z) (init hi : Z) :
  In hi l -> Forall (fun v => v <= hi) l -> init <= hi ->
  fold_left Z.max l init = hi.
Proof.
  revert init. induction l as [ | x l IH]; intros init Hin Hall Hinit.
  - destruct Hin.
  - inversion Hall as [ | ? ? Hx Hl]; subst. cbn [fold_left].
    destruct Hin as [-> | Hin].
    + replace (Z.max init hi) with hi by lia.
      clear IH. revert Hl. clear. induction l as [ | y l IH]; intros Hl.
      * reflexivity.
      * inversion Hl; subst. cbn [fold_left].
        replace (Z.max hi y) with hi by lia. auto.
    + apply IH; try assumption. lia.
Qed.

Lemma reset_sensor_fields (s : Sensor) :
  calibMin (reset_sensor s) = specMax s /\
  calibMax (reset_sensor s) = specMin s /\
  isCalibrated (reset_sensor s) = false /\
  specMin (reset_sensor s) = specMin s /\
  specMax (reset_sensor s) = specMax s.
Proof. repeat split. Qed.

(** C8, as stated, fails: the members of a sensor object are 16-bit
    integers.  A sweep of the voltages 0.5, 1.5, ..., 4.5 reaches
    [sensorValue] as 0, 1, ..., 4, and the run commits 0 and 4, not 0.5
    and 4.5. *)
Lemma sweep_commits_truncated_bounds :
  match calibrateTPS 1 sweep_ticks startup with
  | Some st' =>
      calibMin (TPS0 st') = 0 /\ calibMax (TPS0 st') = 4 /\
      isCalibrated (TPS0 st') = true /\
      SFeqb (F64.of_Z (calibMin (TPS0 st'))) lit_0_5 = false /\
      SFeqb (F64.of_Z (calibMax (TPS0 st'))) lit_4_5 = false
  | None => False
  end.
Proof. vm_compute. repeat split; reflexivity. Qed.

(** C8 (amended). A calibration run first resets [calibMin] to [specMax]
    and [calibMax] to [specMin] and clears [isCalibrated]; every turn of
    its loop takes the minimum and the maximum with the sample, a 16-bit
    integer; when the clock reaches the limit the run ends and sets
    [isCalibrated].  Hence after a run whose samples of TPS0 sweep from
    [lo] to [hi], with [lo <= specMax] and [specMin <= hi], TPS0 has
    [calibMin = lo], [calibMax = hi] and [isCalibrated = true]. *)
Theorem calibration_records_extremes (secs lo hi : Z) (body rest : list Tick)
  (t_end : Tick) (st : State) :
  run_until (calibration_limit secs) body t_end ->
  In lo (samples0 body) -> In hi (samples0 body) ->
  Forall (fun v => lo <= v <= hi) (samples0 body) ->
  lo <= specMax (TPS0 st) -> specMin (TPS0 st) <= hi ->
  (calibMin (TPS0 (reset_calibration st)) = specMax (TPS0 st) /\
   calibMax (TPS0 (reset_calibration st)) = specMin (TPS0 st) /\
   isCalibrated (TPS0 (reset_calibration st)) = false /\
   calibMin (TPS1 (reset_calibration st)) = specMax (TPS1 st) /\
   calibMax (TPS1 (reset_calibration st)) = specMin (TPS1 st) /\
   isCalibrated (TPS1 (reset_calibration st)) = false) /\
  (forall s t,
     calibMin (TPS0 (observe s t)) = Z.min (calibMin (TPS0 s)) (ubyte2 (sample0 t)) /\
     calibMax (TPS0 (observe s t)) = Z.max (calibMax (TPS0 s)) (ubyte2 (sample0 t)) /\
     calibMin (TPS1 (observe s t)) = Z.min (calibMin (TPS1 s)) (ubyte2 (sample1 t)) /\
     calibMax (TPS1 (observe s t)) = Z.max (calibMax (TPS1 s)) (ubyte2 (sample1 t))) /\
  exists st',
    calibrateTPS secs (body ++ t_end :: rest) st = Some st' /\
    calibMin (TPS1 st') = fold_left Z.min (samples1 body) (specMax (TPS1 st)) /\
    calibMax (TPS1 st') = fold_left Z.max (samples1 body) (specMin (TPS1 st)) /\
    isCalibrated (TPS1 st') = true /\
    calibMin (TPS0 st') = fold_left Z.min (samples0 body) (specMax (TPS0 st)) /\
    calibMax (TPS0 st') = fold_left Z.max (samples0 body) (specMin (TPS0 st)) /\
    calibMin (TPS0 st') = lo /\ calibMax (TPS0 st') = hi /\
    isCalibrated (TPS0 st') = true.
Proof.
  intros Hrun Hlo Hhi Hall Hmax Hmin.
  split; [repeat split | ].
  split.
  { intros s t.
    destruct (observe_TPS0 s t) as (A & B & _).
    destruct (observe_TPS1 s t) as (C & D & _). auto. }
  eexists. split; [apply calibrateTPS_run; exact Hrun | ].
  cbn [commit_calibration TPS0 TPS1 set_isCalibrated calibMin calibMax isCalibrated].
  destruct (observed_TPS0 body (reset_calibration st)) as (A & B & _).
  destruct (observed_TPS1 body (reset_calibration st)) as (C & D & _).
  rewrite A, B, C, D.
  cbn [reset_calibration TPS0 TPS1 reset_sensor set_isCalibrated set_calibMax
       set_calibMin calibMin calibMax].
  repeat split.
  - apply fold_min_reaches; try assumption.
    eapply Forall_impl; [ | exact Hall]. cbv beta. intros; lia.
  - apply fold_max_reaches; try assumption.
    eapply Forall_impl; [ | exact Hall]. cbv beta. intros; lia.
Qed.

Lemma sweep_run : run_until (calibration_limit 1) sweep_body sweep_end.
Proof.
  split.
  - repeat constructor.
  - vm_compute. discriminate.
Qed.

Lemma calibration_records_extremes_witness :
  run_until (calibration_limit 1) sweep_body sweep_end /\
  In 0 (samples0 sweep_body) /\ In 4 (samples0 sweep_body) /\
  Forall (fun v => 0 <= v <= 4) (samples0 sweep_body) /\
  0 <= specMax (TPS0 startup) /\ specMin (TPS0 startup) <= 4 /\
  exists st',
    calibrateTPS 1 (sweep_body ++ sweep_end :: []) startup = Some st' /\
    calibMin (TPS0 st') = 0 /\ calibMax (TPS0 st') = 4 /\
    isCalibrated (TPS0 st') = true.
Proof.
  assert (I0 : In 0 (samples0 sweep_body)) by (vm_compute; tauto).
  assert (I4 : In 4 (samples0 sweep_body)) by (vm_compute; tauto).
  assert (A : Forall (fun v => 0 <= v <= 4) (samples0 sweep_body))
    by (repeat constructor; vm_compute; discriminate).
  assert (B0 : 0 <= specMax (TPS0 startup)) by (vm_compute; discriminate).
  assert (B4 : specMin (TPS0 startup) <= 4) by (vm_compute; discriminate).
  split; [exact sweep_run | ].
  split; [exact I0 | ]. split; [exact I4 | ]. split; [exact A | ].
  split; [exact B0 | ]. split; [exact B4 | ].
  destruct (calibration_records_extremes 1 0 4 sweep_body [] sweep_end startup
              sweep_run I0 I4 A B0 B4)
    as (_ & _ & st' & Hrun & _ & _ & _ & _ & _ & Hmin & Hmax & Hcal).
  exists st'. repeat split; assumption.
Defined.

(** C2, as stated, fails: a run during which the pedal does not move
    records equal bounds, and [isCalibrated] is set all the same. *)
Lemma stuck_pedal_is_committed :
  match calibrateTPS 1 stuck_ticks startup with
  | Some st' =>
      calibMin (TPS0 st') = 2 /\ calibMax (TPS0 st') = 2 /\
      isCalibrated (TPS0 st') = true
  | None => False
  end.
Proof. vm_compute. repeat split; reflexivity. Qed.

(** C2 (amended). A calibration run sets [isCalibrated] on both channels
    when the clock has reached the limit, whatever bounds the loop
    recorded: the bounds are committed as recorded, without a check, and
    nothing is reported. *)
Theorem calibration_commits_unchecked (secs : Z) (body rest : list Tick)
  (t_end : Tick) (st : State) :
  run_until (calibration_limit secs) body t_end ->
  exists st',
    calibrateTPS secs (body ++ t_end :: rest) st = Some st' /\
    isCalibrated (TPS0 st') = true /\ isCalibrated (TPS1 st') = true /\
    calibMin (TPS0 st') = calibMin (TPS0 (fold_left observe body (reset_calibration st))) /\
    calibMax (TPS0 st') = calibMax (TPS0 (fold_left observe body (reset_calibration st))) /\
    calibMin (TPS1 st') = calibMin (TPS1 (fold_left observe body (reset_calibration st))) /\
    calibMax (TPS1 st') = calibMax (TPS1 (fold_left observe body (reset_calibration st))).
Proof.
  intros Hrun. eexists.
  split; [apply calibrateTPS_run; exact Hrun | ].
  repeat split.
Qed.

Lemma stuck_run :
  run_until (calibration_limit 1) [mkTick 0 2 2; mkTick 500000 2 2]
            (mkTick 1000000 2 2).
Proof.
  split.
  - repeat constructor.
  - vm_compute. discriminate.
Qed.

Lemma calibration_commits_unchecked_witness :
  run_until (calibration_limit 1) [mkTick 0 2 2; mkTick 500000 2 2]
            (mkTick 1000000 2 2) /\
  exists st',
    calibrateTPS 1 stuck_ticks startup = Some st' /\
    isCalibrated (TPS0 st') = true /\ isCalibrated (TPS1 st') = true.
Proof.
  split; [exact stuck_run | ].
  destruct (calibration_commits_unchecked 1 [mkTick 0 2 2; mkTick 500000 2 2] []
              (mkTick 1000000 2 2) startup stuck_run)
    as (st' & Hrun & H0 & H1 & _).
  exists st'. repeat split; assumption.
Defined.

(** ** The spec bounds *)

Lemma calibration_loop_spec_bounds (limit : Z) (ticks : list Tick) (st st' : State) :
  calibration_loop limit ticks st = Some st' ->
  specMin (TPS0 st') = specMin (TPS0 st) /\ specMax (TPS0 st') = specMax (TPS0 st) /\
  specMin (TPS1 st') = specMin (TPS1 st) /\ specMax (TPS1 st') = specMax (TPS1 st).
Proof.
  revert st. induction ticks as [ | t ticks IH]; intros st H; cbn [calibration_loop] in H.
  - discriminate.
  - destruct (ubyte4 (elapsed_us t) <? limit).
    + destruct (IH _ H) as (A & B & C & D).
      destruct (observe_TPS0 st t) as (_ & _ & A' & B' & _).
      destruct (observe_TPS1 st t) as (_ & _ & C' & D' & _).
      unfold observe in *. rewrite A, B, C, D. auto.
    + inversion H; subst. auto.
Qed.

Lemma calibrateTPS_spec_bounds (secs : Z) (ticks : list Tick) (st st' : State) :
  calibrateTPS secs ticks st = Some st' ->
  specMin (TPS0 st') = specMin (TPS0 st) /\ specMax (TPS0 st') = specMax (TPS0 st) /\
  specMin (TPS1 st') = specMin (TPS1 st) /\ specMax (TPS1 st') = specMax (TPS1 st).
Proof.
  unfold calibrateTPS. intros H.
  destruct (calibration_loop (calibration_limit secs) ticks (reset_calibration st))
    as [st1 | ] eqn:Hloop; [ | discriminate].
  inversion H; subst st'. clear H.
  apply calibration_loop_spec_bounds in Hloop.
  destruct Hloop as (A & B & C & D).
  cbn [commit_calibration TPS0 TPS1 set_isCalibrated specMin specMax].
  rewrite A, B, C, D. repeat split.
Qed.

(** The spec bounds are an invariant of the runtime states. *)
Lemma reachable_spec_bounds (st : State) :
  reachable st ->
  specMin (TPS0 st) = specMin Sensor_TPS0 /\ specMax (TPS0 st) = specMax Sensor_TPS0 /\
  specMin (TPS1 st) = specMin Sensor_TPS1 /\ specMax (TPS1 st) = specMax Sensor_TPS1.
Proof.
  induction 1 as [ | t st Hst IH | secs ticks st st' Hst IH Hcal].
  - repeat split.
  - exact IH.
  - destruct (calibrateTPS_spec_bounds _ _ _ _ Hcal) as (A & B & C & D).
    destruct IH as (A' & B' & C' & D').
    rewrite A, B, C, D. auto.
Qed.

Lemma Sensor_TPS0_spec : specMin Sensor_TPS0 = 0 /\ specMax Sensor_TPS0 = 4.
Proof. vm_compute. split; reflexivity. Qed.

Lemma Sensor_TPS1_spec : specMin Sensor_TPS1 = 4 /\ specMax Sensor_TPS1 = 0.
Proof. vm_compute. split; reflexivity. Qed.

(** C5. [Sensor_TPS1] is initialized with the bounds 4.5 and 0.5, which
    its [ubyte2] members hold as 4 and 0.  In every state the program
    reaches the bounds are these, the range check of TPS1 is true
    whatever the sample, an error is counted and [GetThrottlePosition]
    returns zero: the mean is never returned. *)
Theorem tps1_range_check_always_fails (st : State) :
  reachable st ->
  specMin (TPS1 st) = 4 /\ specMax (TPS1 st) = 0 /\
  (forall v, (v <? specMin (TPS1 st)) || (v >? specMax (TPS1 st)) = true) /\
  out_of_range (TPS1 st) = true /\
  0 < TPSErrorState st /\
  GetThrottlePosition st = fzero.
Proof.
  intros Hreach.
  destruct (reachable_spec_bounds st Hreach) as (_ & _ & Hmin & Hmax).
  destruct Sensor_TPS1_spec as [E4 E0]. rewrite E4 in Hmin. rewrite E0 in Hmax.
  assert (Hout : out_of_range (TPS1 st) = true).
  { apply out_of_range_spec. rewrite Hmin, Hmax. lia. }
  destruct (counted_fault_failsafe st) as [Hpos Hfail]; [tauto | ].
  repeat split; try assumption.
  intros v. rewrite Hmin, Hmax. apply orb_true_iff.
  rewrite Z.ltb_lt, Z.gtb_gt. lia.
Qed.

Lemma tps1_range_check_always_fails_witness :
  reachable (deposit (mkTick 0 2 2) startup) /\
  GetThrottlePosition (deposit (mkTick 0 2 2) startup) = fzero.
Proof.
  assert (R : reachable (deposit (mkTick 0 2 2) startup))
    by (apply reach_deposit, reach_startup).
  split; [exact R | ].
  apply (tps1_range_check_always_fails _ R).
Defined.


(** C4, as stated, fails: the wheel speed sensors are initialized without
    bounds, so both are zero, and [Sensor_TPS1] is initialized with its
    bounds in descending order. *)
Lemma spec_bounds_not_all_ordered :
  specMin Sensor_WSS_FL = 0 /\ specMax Sensor_WSS_FL = 0 /\
  (specMin Sensor_WSS_FL <? specMax Sensor_WSS_FL) = false /\
  specMin Sensor_TPS1 = 4 /\ specMax Sensor_TPS1 = 0 /\
  (specMin Sensor_TPS1 <? specMax Sensor_TPS1) = false /\
  forallb (fun s => specMin s <? specMax s) all_sensors = false.
Proof. vm_compute. repeat split; reflexivity. Qed.

(** C4 (amended). The spec bounds are set by the initializers and no
    function writes them: a calibration run and the deposit of samples
    leave [specMin] and [specMax] as they were.  [specMin < specMax] holds
    for the channels initialized with bounds in ascending order,
    [Sensor_TPS0] and [Sensor_BPS0] (0 and 4 once converted to the 16-bit
    members); the channels initialized without bounds have both at
    zero. *)
Theorem spec_bounds_fixed_by_initializer :
  specMin Sensor_TPS0 < specMax Sensor_TPS0 /\
  specMin Sensor_BPS0 < specMax Sensor_BPS0 /\
  Forall (fun s => specMin s = 0 /\ specMax s = 0)
    [ Sensor_WSS_FL; Sensor_WSS_FR; Sensor_WSS_RL; Sensor_WSS_RR;
      Sensor_WPS_FL; Sensor_WPS_FR; Sensor_WPS_RL; Sensor_WPS_RR;
      Sensor_LVBattery ] /\
  (forall secs ticks st,
     match calibrateTPS secs ticks st with
     | Some st' =>
         specMin (TPS0 st') = specMin (TPS0 st) /\
         specMax (TPS0 st') = specMax (TPS0 st) /\
         specMin (TPS1 st') = specMin (TPS1 st) /\
         specMax (TPS1 st') = specMax (TPS1 st)
     | None => True
     end) /\
  (forall t st,
     specMin (TPS0 (deposit t st)) = specMin (TPS0 st) /\
     specMax (TPS0 (deposit t st)) = specMax (TPS0 st) /\
     specMin (TPS1 (deposit t st)) = specMin (TPS1 st) /\
     specMax (TPS1 (deposit t st)) = specMax (TPS1 st)) /\
  (forall st,
     reachable st ->
     specMin (TPS0 st) = specMin Sensor_TPS0 /\
     specMax (TPS0 st) = specMax Sensor_TPS0 /\
     specMin (TPS1 st) = specMin Sensor_TPS1 /\
     specMax (TPS1 st) = specMax Sensor_TPS1).
Proof.
  split; [vm_compute; reflexivity | ].
  split; [vm_compute; reflexivity | ].
  split; [repeat constructor | ].
  split.
  { intros secs ticks st.
    destruct (calibrateTPS secs ticks st) as [st' | ] eqn:Hcal; [ | exact I].
    exact (calibrateTPS_spec_bounds _ _ _ _ Hcal). }
  split.
  { intros t st. repeat split. }
  exact reachable_spec_bounds.
Qed.

(** ** Wheel speed *)

Lemma lit_pi_value : lit_pi = S754_finite false 7074237743944945 (-51).
Proof. vm_compute. reflexivity. Qed.

(** The literal is the [double] nearest to 3.14159265. *)
Lemma lit_pi_nearest :
  2 * Z.abs (7074237743944945 * 10 ^ 8 - 314159265 * 2 ^ 51) <= 10 ^ 8.
Proof. vm_compute. discriminate. Qed.

(** C10. [freq_to_rpm] divides the pulse frequency by the 16 pulses of a
    rotation and multiplies by 60; [rpm_to_mph] multiplies 3.14159265, the
    wheel diameter of 18 inches, the rotation rate and 60 and divides by
    63360.  Sixteen hertz are exactly 60 rotations per minute, and 60
    rotations per minute are 3.212992... miles per hour.  Both are
    functions of their argument alone. *)
Theorem wheel_speed_conversions :
  NUM_BUMPS = 16 /\ WHEEL_DIAMETER = 18 /\
  freq_to_rpm (F64.of_Z 16) = F64.of_Z 60 /\
  (forall freq,
     freq_to_rpm freq = F64.mul (F64.div freq (F64.of_Z 16)) (F64.of_Z 60)) /\
  (forall rpm,
     rpm_to_mph rpm
     = F64.div (F64.mul (F64.mul (F64.mul (F64.of_decimal 314159265 8)
                                          (F64.of_Z 18)) rpm) (F64.of_Z 60))
               (F64.of_Z 63360)) /\
  rpm_to_mph (F64.of_Z 60) = S754_finite false 7235015874489149 (-51) /\
  3212992 * 2 ^ 51 < 7235015874489149 * 10 ^ 6 < 3212993 * 2 ^ 51.
Proof.
  split; [reflexivity | ]. split; [reflexivity | ].
  split; [vm_compute; reflexivity | ].
  split; [intros freq; reflexivity | ].
  split; [intros rpm; reflexivity | ].
  split; [vm_compute; reflexivity | ].
  split; reflexivity.
Qed.

(** * Further properties of the code *)

(** ** Over- and under-travel *)

Lemma pack_finite (s : bool) (E M : Z) :
  exists m e, pack s E M = S754_finite s m e.
Proof. unfold pack. destruct (M =? 2 ^ 24); eauto. Qed.

Lemma div_int_negative (a d : Z) :
  - 2 ^ 24 < a < 0 -> 0 < d < 2 ^ 24 ->
  exists m e, F32.div (int_float a) (int_float d) = S754_finite true m e.
Proof.
  intros Ha Hd.
  pose proof (canon_mantissa (- a) ltac:(lia)) as HA.
  pose proof (canon_mantissa d Hd) as HD.
  pose proof (dig_pos (- a) ltac:(lia)). pose proof (dig_pos d ltac:(lia)).
  assert (dig (- a) <= 24) by (apply dig_le_of_lt_pow2; lia).
  assert (dig d <= 24) by (apply dig_le_of_lt_pow2; lia).
  destruct a as [ | pa | pa]; destruct d as [ | pd | pd]; try lia.
  cbn [int_float]. unfold canon.
  rewrite div_normal by (rewrite ?Z2Pos.id; lia). cbn [xorb].
  destruct (_ <? _); apply pack_finite.
Qed.

Lemma fone_pack : fone = pack false (-23) (2 ^ 23).
Proof. reflexivity. Qed.

Lemma div_int_above_one (a d : Z) :
  0 < d < a -> a < 2 ^ 24 -> d < 2 ^ 23 ->
  fgt (F32.div (int_float a) (int_float d)) fone = true.
Proof.
  intros Hd Ha Hd'.
  destruct (div_int_rounded a d ltac:(lia) ltac:(lia)) as (K & HK & B & Q).
  rewrite Q. unfold fgt. rewrite fone_pack.
  assert (PK : 0 < 2 ^ K) by (apply Z.pow_pos_nonneg; lia).
  assert (HK24 : K < 24).
  { destruct (Z.lt_ge_cases K 24) as [ | Hge]; [assumption | exfalso].
    pose proof (pow2_le_mono 24 K ltac:(lia)). nia. }
  pose proof (rne_div_normal (a * 2 ^ K) d ltac:(lia) B) as N.
  apply pack_ltb; try lia.
  destruct (Z.eq_dec K 23) as [E23 | N23].
  - right. right. split; [lia | ]. subst K.
    pose proof (rne_div_bounds (a * 2 ^ 23) d) as R.
    assert (2 ^ 23 + 1 <= a * 2 ^ 23 / d).
    { apply Z.div_le_lower_bound; lia. }
    lia.
  - destruct (Z.eq_dec K 22) as [E22 | N22]; [right; left; lia | left; lia].
Qed.

(** X1. The bounded variant caps: on sensor values with [min < max] it returns
    a fraction in [[0,1]] whatever the value, exactly 0 at and below
    [min], exactly 1 at and above [max]. *)
Theorem getPercent_capped (v mn mx : Z) :
  is_ubyte2 v -> is_ubyte2 mn -> is_ubyte2 mx -> mn < mx ->
  in_unit_interval (getPercent (F32.of_Z v) (F32.of_Z mn) (F32.of_Z mx) true) /\
  (v <= mn -> getPercent (F32.of_Z v) (F32.of_Z mn) (F32.of_Z mx) true = fzero) /\
  (mx <= v -> getPercent (F32.of_Z v) (F32.of_Z mn) (F32.of_Z mx) true = fone).
Proof.
  intros Hv Hmn Hmx Hlt.
  assert (Hlow : v <= mn ->
            getPercent (F32.of_Z v) (F32.of_Z mn) (F32.of_Z mx) true = fzero).
  { intros Hle. rewrite getPercent_clamp. cbv zeta.
    rewrite getPercent_unbounded by assumption. unfold is_ubyte2 in *.
    destruct (Z.eq_dec v mn) as [-> | Hne].
    - replace (mn - mn) with 0 by lia.
      destruct (mx - mn) eqn:Hd; try lia. reflexivity.
    - destruct (div_int_negative (v - mn) (mx - mn)) as (m & e & Hq); try lia.
      rewrite Hq. reflexivity. }
  assert (Hhigh : mx <= v ->
            getPercent (F32.of_Z v) (F32.of_Z mn) (F32.of_Z mx) true = fone).
  { intros Hle. unfold is_ubyte2 in *.
    destruct (Z.eq_dec v mx) as [-> | Hne].
    - rewrite getPercent_bounded_id by (unfold is_ubyte2; lia).
      apply div_int_self. lia.
    - rewrite getPercent_clamp. cbv zeta.
      rewrite getPercent_unbounded by (unfold is_ubyte2; lia).
      rewrite div_int_above_one by lia. reflexivity. }
  split; [ | split; assumption].
  destruct (Z.le_gt_cases v mn) as [L | G].
  - rewrite (Hlow L). split; reflexivity.
  - destruct (Z.le_gt_cases mx v) as [L' | G'].
    + rewrite (Hhigh L'). split; reflexivity.
    + rewrite getPercent_bounded_id by (assumption || lia).
      unfold is_ubyte2 in *. apply quotient_in_unit_interval; lia.
Qed.

(** X2. The unbounded variant tells travel outside the range: on sensor values
    with [min < max] its result is in [[0,1]] exactly when the value is in
    [[min, max]]; below [min] it is negative, above [max] it exceeds 1. *)
Theorem getPercent_detects_overtravel (v mn mx : Z) :
  is_ubyte2 v -> is_ubyte2 mn -> is_ubyte2 mx -> mn < mx ->
  let p := getPercent (F32.of_Z v) (F32.of_Z mn) (F32.of_Z mx) false in
  (v < mn -> flt p fzero = true) /\
  (mx < v -> fgt p fone = true) /\
  (mn <= v <= mx -> fle fzero p = true /\ fle p fone = true).
Proof.
  intros Hv Hmn Hmx Hlt. cbv zeta.
  rewrite getPercent_unbounded by assumption. unfold is_ubyte2 in *.
  split; [ | split].
  - intros H. destruct (div_int_negative (v - mn) (mx - mn)) as (m & e & Hq); try lia.
    rewrite Hq. reflexivity.
  - intros H. apply div_int_above_one; lia.
  - intros H. apply quotient_in_unit_interval; lia.
Qed.

(** ** Accuracy *)

Lemma rne_div_error (N D : Z) :
  0 < D -> 2 * Z.abs (rne_div N D * D - N) <= D.
Proof.
  intros HD. unfold rne_div.
  pose proof (Z.div_mod N D ltac:(lia)) as E.
  pose proof (Z.mod_pos_bound N D HD) as B.
  destruct (Z.compare_spec (2 * (N mod D)) D);
    try destruct (Z.even (N / D)); nia.
Qed.

(** X3. The fraction is the correctly rounded quotient: a finite binary32
    number [m * 2 ^ e] within a relative distance of [2 ^ -24] of
    [(v - min) / (max - min)]. *)
Theorem getPercent_correctly_rounded (v mn mx : Z) :
  is_ubyte2 v -> is_ubyte2 mn -> is_ubyte2 mx -> mn < v -> mn < mx ->
  exists m e,
    getPercent (F32.of_Z v) (F32.of_Z mn) (F32.of_Z mx) false
    = S754_finite false m e /\
    e < 0 /\ 2 ^ 23 <= Zpos m < 2 ^ 24 /\
    2 ^ 24 * Z.abs (Zpos m * (mx - mn) - (v - mn) * 2 ^ (- e))
    <= (v - mn) * 2 ^ (- e).
Proof.
  intros Hv Hmn Hmx Hlo Hlt.
  rewrite getPercent_unbounded by assumption. unfold is_ubyte2 in *.
  set (a := v - mn). set (d := mx - mn).
  assert (Ha : 0 < a < 2 ^ 16) by (unfold a; lia).
  assert (Hd : 0 < d < 2 ^ 16) by (unfold d; lia).
  destruct (div_int_rounded a d ltac:(lia) ltac:(lia)) as (K & HK & B & Q).
  rewrite Q.
  assert (PK : 0 < 2 ^ K) by (apply Z.pow_pos_nonneg; lia).
  assert (HK8 : 8 <= K).
  { destruct (Z.le_gt_cases 8 K) as [ | Hgt]; [assumption | exfalso].
    pose proof (pow2_le_mono K 7 ltac:(lia)). nia. }
  pose proof (rne_div_normal (a * 2 ^ K) d ltac:(lia) B) as N.
  pose proof (rne_div_error (a * 2 ^ K) d ltac:(lia)) as Err.
  set (M := rne_div (a * 2 ^ K) d) in *.
  unfold pack. destruct (Z.eqb_spec M (2 ^ 24)) as [E24 | N24].
  - exists (Z.to_pos (2 ^ 23)), (- K + 1).
    split; [reflexivity | ]. split; [lia | ].
    split; [vm_compute; split; [discriminate | reflexivity] | ].
    replace (- (- K + 1)) with (K - 1) by lia.
    assert (HP : 2 ^ K = 2 * 2 ^ (K - 1)).
    { replace K with (Z.succ (K - 1)) at 1 by lia. apply Z.pow_succ_r. lia. }
    change (Zpos (Z.to_pos (2 ^ 23))) with (2 ^ 23).
    rewrite E24, HP in *. lia.
  - exists (Z.to_pos M), (- K).
    split; [reflexivity | ]. split; [lia | ].
    rewrite Z2Pos.id by lia. split; [lia | ].
    replace (- - K) with K by lia. lia.
Qed.

Lemma getPercent_capped_witness :
  is_ubyte2 700 /\ is_ubyte2 100 /\ is_ubyte2 500 /\ 100 < 500 /\
  getPercent (F32.of_Z 700) (F32.of_Z 100) (F32.of_Z 500) true = fone.
Proof.
  assert (Hv : is_ubyte2 700) by (unfold is_ubyte2; lia).
  assert (Hmn : is_ubyte2 100) by (unfold is_ubyte2; lia).
  assert (Hmx : is_ubyte2 500) by (unfold is_ubyte2; lia).
  assert (Hlt : 100 < 500) by lia.
  repeat (split; [assumption | ]).
  apply (getPercent_capped 700 100 500 Hv Hmn Hmx Hlt). lia.
Defined.

Lemma getPercent_detects_overtravel_witness :
  is_ubyte2 700 /\ is_ubyte2 100 /\ is_ubyte2 500 /\ 100 < 500 /\
  fgt (getPercent (F32.of_Z 700) (F32.of_Z 100) (F32.of_Z 500) false) fone = true.
Proof.
  assert (Hv : is_ubyte2 700) by (unfold is_ubyte2; lia).
  assert (Hmn : is_ubyte2 100) by (unfold is_ubyte2; lia).
  assert (Hmx : is_ubyte2 500) by (unfold is_ubyte2; lia).
  assert (Hlt : 100 < 500) by lia.
  repeat (split; [assumption | ]).
  pose proof (getPercent_detects_overtravel 700 100 500 Hv Hmn Hmx Hlt) as H.
  cbv zeta in H. destruct H as (_ & H & _). apply H. lia.
Defined.

Lemma getPercent_correctly_rounded_witness :
  is_ubyte2 200 /\ is_ubyte2 100 /\ is_ubyte2 400 /\ 100 < 200 /\ 100 < 400 /\
  exists m e,
    getPercent (F32.of_Z 200) (F32.of_Z 100) (F32.of_Z 400) false
    = S754_finite false m e /\
    2 ^ 24 * Z.abs (Zpos m * (400 - 100) - (200 - 100) * 2 ^ (- e))
    <= (200 - 100) * 2 ^ (- e).
Proof.
  assert (Hv : is_ubyte2 200) by (unfold is_ubyte2; lia).
  assert (Hmn : is_ubyte2 100) by (unfold is_ubyte2; lia).
  assert (Hmx : is_ubyte2 400) by (unfold is_ubyte2; lia).
  assert (Hlo : 100 < 200) by lia.
  assert (Hlt : 100 < 400) by lia.
  repeat (split; [assumption | ]).
  destruct (getPercent_correctly_rounded 200 100 400 Hv Hmn Hmx Hlo Hlt)
    as (m & e & Hq & _ & _ & Herr).
  exists m, e. split; assumption.
Defined.

(** ** The time limit *)

(** X4. The limit in microseconds never wraps: it is the number of seconds
    (an 8-bit value) times one million, at most 255 seconds. *)
Theorem calibration_limit_no_overflow (secs : Z) :
  calibration_limit secs = ubyte1 secs * 1000000 /\
  0 <= calibration_limit secs <= 255000000 /\
  calibration_limit secs < 2 ^ 32.
Proof.
  unfold calibration_limit, ubyte4, ubyte1.
  pose proof (Z.mod_pos_bound secs (2 ^ 8) ltac:(lia)) as B.
  rewrite (Z.mod_small (secs mod 2 ^ 8) (2 ^ 32)) by lia.
  rewrite (Z.mod_small (secs mod 2 ^ 8 * 1000) (2 ^ 32)) by lia.
  rewrite (Z.mod_small (secs mod 2 ^ 8 * 1000 * 1000) (2 ^ 32)) by lia.
  lia.
Qed.

(** ** When the run ends *)

Lemma calibration_loop_none (limit : Z) (ticks : list Tick) (st : State) :
  calibration_loop limit ticks st = None <->
  Forall (fun t => ubyte4 (elapsed_us t) < limit) ticks.
Proof.
  revert st. induction ticks as [ | t ticks IH]; intros st; cbn [calibration_loop].
  - split; [constructor | reflexivity].
  - destruct (Z.ltb_spec (ubyte4 (elapsed_us t)) limit) as [Hlt | Hge].
    + rewrite IH. split.
      * intros H. constructor; assumption.
      * intros H. inversion H; assumption.
    + split; [discriminate | ].
      intros H. inversion H; subst. lia.
Qed.

(** X5. [calibrateTPS] returns exactly when the clock reaches the limit: it is
    still in its loop after the observed ticks if and only if every
    reading of the clock was below the limit, whatever the samples and the
    state. *)
Theorem calibrateTPS_returns_iff_clock_reaches_limit (secs : Z)
  (ticks : list Tick) (st : State) :
  (calibrateTPS secs ticks st = None <->
   Forall (fun t => ubyte4 (elapsed_us t) < calibration_limit secs) ticks) /\
  ((exists st', calibrateTPS secs ticks st = Some st') <->
   Exists (fun t => calibration_limit secs <= ubyte4 (elapsed_us t)) ticks).
Proof.
  assert (Hnone : calibrateTPS secs ticks st = None <->
            Forall (fun t => ubyte4 (elapsed_us t) < calibration_limit secs) ticks).
  { unfold calibrateTPS.
    rewrite <- (calibration_loop_none _ ticks (reset_calibration st)).
    destruct (calibration_loop _ ticks _); split; congruence. }
  split; [exact Hnone | ].
  split.
  - intros [st' Hsome].
    apply Exists_exists.
    destruct (Forall_Exists_dec (fun t => ubyte4 (elapsed_us t) < calibration_limit secs)
                (fun t => Z_lt_dec (ubyte4 (elapsed_us t)) (calibration_limit secs)) ticks)
      as [Hall | Hex].
    + apply Hnone in Hall. congruence.
    + apply Exists_exists in Hex. destruct Hex as (t & Hin & Hn).
      exists t. split; [assumption | lia].
  - intros Hex.
    assert (Hnn : calibrateTPS secs ticks st <> None).
    { intros Hc. apply Hnone in Hc. rewrite Forall_forall in Hc.
      apply Exists_exists in Hex. destruct Hex as (t & Hin & Hge).
      specialize (Hc t Hin). cbv beta in Hc. lia. }
    destruct (calibrateTPS secs ticks st) as [st' | ]; [eauto | congruence].
Qed.

(** X6. A run whose time is up at the first reading of the clock (as always
    with zero seconds) looks at no sample, and still completes: it commits
    [calibMin = specMax] and [calibMax = specMin] as a calibration. *)
Theorem calibration_without_samples (secs : Z) (t : Tick) (rest : list Tick)
  (st : State) :
  calibration_limit secs <= ubyte4 (elapsed_us t) ->
  exists st',
    calibrateTPS secs (t :: rest) st = Some st' /\
    calibMin (TPS0 st') = specMax (TPS0 st) /\
    calibMax (TPS0 st') = specMin (TPS0 st) /\
    isCalibrated (TPS0 st') = true /\
    calibMin (TPS1 st') = specMax (TPS1 st) /\
    calibMax (TPS1 st') = specMin (TPS1 st) /\
    isCalibrated (TPS1 st') = true /\
    sensorValue (TPS0 st') = sensorValue (TPS0 st) /\
    sensorValue (TPS1 st') = sensorValue (TPS1 st).
Proof.
  intros Hend. eexists. split.
  - apply (calibrateTPS_run secs [] rest t st). split; [constructor | exact Hend].
  - repeat split.
Qed.

Lemma calibration_without_samples_witness :
  calibration_limit 0 <= ubyte4 (elapsed_us (mkTick 0 3 3)) /\
  exists st',
    calibrateTPS 0 [mkTick 0 3 3] startup = Some st' /\
    calibMin (TPS0 st') = 4 /\ calibMax (TPS0 st') = 0 /\
    isCalibrated (TPS0 st') = true.
Proof.
  assert (H : calibration_limit 0 <= ubyte4 (elapsed_us (mkTick 0 3 3)))
    by (vm_compute; discriminate).
  split; [exact H | ].
  destruct (calibration_without_samples 0 (mkTick 0 3 3) [] startup H)
    as (st' & Hrun & A & B & C & _).
  exists st'. repeat split; assumption.
Defined.

(** ** A run forgets the calibration before it *)


Lemma observe_same (st1 st2 : State) (t : Tick) :
  same_spec_bounds st1 st2 -> same_calibration st1 st2 ->
  same_spec_bounds (observe st1 t) (observe st2 t) /\
  same_calibration (observe st1 t) (observe st2 t).
Proof.
  intros (S1 & S2 & S3 & S4) (A & B & C & D & E & F).
  destruct (observe_TPS0 st1 t) as (a1 & b1 & c1 & d1 & e1).
  destruct (observe_TPS0 st2 t) as (a2 & b2 & c2 & d2 & e2).
  destruct (observe_TPS1 st1 t) as (f1 & g1 & h1 & i1 & j1).
  destruct (observe_TPS1 st2 t) as (f2 & g2 & h2 & i2 & j2).
  unfold same_spec_bounds, same_calibration.
  rewrite a1, b1, c1, d1, e1, a2, b2, c2, d2, e2.
  rewrite f1, g1, h1, i1, j1, f2, g2, h2, i2, j2.
  rewrite A, B, C, D, E, F, S1, S2, S3, S4. repeat split.
Qed.

Lemma calibration_loop_same (limit : Z) (ticks : list Tick) (st1 st2 : State) :
  same_spec_bounds st1 st2 -> same_calibration st1 st2 ->
  match calibration_loop limit ticks st1, calibration_loop limit ticks st2 with
  | Some a, Some b => same_calibration a b
  | None, None => True
  | _, _ => False
  end.
Proof.
  revert st1 st2. induction ticks as [ | t ticks IH]; intros st1 st2 HS HC;
    cbn [calibration_loop].
  - exact I.
  - destruct (ubyte4 (elapsed_us t) <? limit).
    + destruct (observe_same st1 st2 t HS HC) as [HS' HC'].
      exact (IH _ _ HS' HC').
    + exact HC.
Qed.

(** X7. A calibration run starts from the spec bounds alone: two states with
    the same spec bounds end a run over the same ticks with the same
    calibration, whatever calibration each had before. *)
Theorem calibration_forgets_previous (secs : Z) (ticks : list Tick)
  (st1 st2 : State) :
  same_spec_bounds st1 st2 ->
  match calibrateTPS secs ticks st1, calibrateTPS secs ticks st2 with
  | Some a, Some b => same_calibration a b
  | None, None => True
  | _, _ => False
  end.
Proof.
  intros HS. unfold calibrateTPS.
  assert (HS' : same_spec_bounds (reset_calibration st1) (reset_calibration st2)).
  { destruct HS as (A & B & C & D). repeat split; assumption. }
  assert (HC' : same_calibration (reset_calibration st1) (reset_calibration st2)).
  { destruct HS as (A & B & C & D). unfold same_calibration.
    cbn [reset_calibration TPS0 TPS1 reset_sensor set_isCalibrated set_calibMax
         set_calibMin calibMin calibMax isCalibrated].
    repeat split; assumption. }
  pose proof (calibration_loop_same (calibration_limit secs) ticks _ _ HS' HC') as H.
  destruct (calibration_loop _ ticks (reset_calibration st1)) as [a | ];
    destruct (calibration_loop _ ticks (reset_calibration st2)) as [b | ];
    try exact H.
  destruct H as (A & B & C & D & E & F).
  unfold same_calibration.
  cbn [commit_calibration TPS0 TPS1 set_isCalibrated calibMin calibMax isCalibrated].
  repeat split; assumption.
Qed.

Lemma calibration_forgets_previous_witness :
  same_spec_bounds startup (mkState (with_reading 1 2 3 true Sensor_TPS0)
                                    (with_reading 1 2 3 true Sensor_TPS1)) /\
  match calibrateTPS 1 stuck_ticks startup,
        calibrateTPS 1 stuck_ticks
          (mkState (with_reading 1 2 3 true Sensor_TPS0)
                   (with_reading 1 2 3 true Sensor_TPS1)) with
  | Some a, Some b => same_calibration a b
  | None, None => True
  | _, _ => False
  end.
Proof.
  assert (H : same_spec_bounds startup
                (mkState (with_reading 1 2 3 true Sensor_TPS0)
                         (with_reading 1 2 3 true Sensor_TPS1)))
    by (repeat split).
  split; [exact H | ].
  exact (calibration_forgets_previous 1 stuck_ticks _ _ H).
Defined.

(** ** The committed bounds enclose the samples *)

Lemma fold_min_le (l : list Z) (init : Z) :
  fold_left Z.min l init <= init /\
  Forall (fun v => fold_left Z.min l init <= v) l.
Proof.
  revert init. induction l as [ | x l IH]; intros init; cbn [fold_left].
  - split; [lia | constructor].
  - destruct (IH (Z.min init x)) as [A B]. split; [lia | ].
    constructor; [lia | exact B].
Qed.

Lemma fold_max_ge (l : list Z) (init : Z) :
  init <= fold_left Z.max l init /\
  Forall (fun v => v <= fold_left Z.max l init) l.
Proof.
  revert init. induction l as [ | x l IH]; intros init; cbn [fold_left].
  - split; [lia | constructor].
  - destruct (IH (Z.max init x)) as [A B]. split; [lia | ].
    constructor; [lia | exact B].
Qed.

Lemma Forall_and_bounds (l : list Z) (lo hi : Z) :
  Forall (fun v => lo <= v) l -> Forall (fun v => v <= hi) l ->
  Forall (fun v => lo <= v <= hi) l.
Proof.
  intros A B. rewrite Forall_forall in *. intros v Hin.
  split; [apply A | apply B]; assumption.
Qed.

(** X8. After a completed run the committed bounds enclose every sample the
    loop saw, [calibMin] is at most [specMax] and [calibMax] at least
    [specMin]; once the loop saw a sample, [calibMin <= calibMax]. *)
Theorem calibration_encloses_samples (secs : Z) (body rest : list Tick)
  (t_end : Tick) (st : State) :
  run_until (calibration_limit secs) body t_end ->
  exists st',
    calibrateTPS secs (body ++ t_end :: rest) st = Some st' /\
    Forall (fun v => calibMin (TPS0 st') <= v <= calibMax (TPS0 st')) (samples0 body) /\
    Forall (fun v => calibMin (TPS1 st') <= v <= calibMax (TPS1 st')) (samples1 body) /\
    calibMin (TPS0 st') <= specMax (TPS0 st) /\
    specMin (TPS0 st) <= calibMax (TPS0 st') /\
    calibMin (TPS1 st') <= specMax (TPS1 st) /\
    specMin (TPS1 st) <= calibMax (TPS1 st') /\
    (body <> [] ->
     calibMin (TPS0 st') <= calibMax (TPS0 st') /\
     calibMin (TPS1 st') <= calibMax (TPS1 st')).
Proof.
  intros Hrun. eexists. split; [apply calibrateTPS_run; exact Hrun | ].
  cbn [commit_calibration TPS0 TPS1 set_isCalibrated calibMin calibMax].
  destruct (observed_TPS0 body (reset_calibration st)) as (A & B & _).
  destruct (observed_TPS1 body (reset_calibration st)) as (C & D & _).
  rewrite A, B, C, D.
  cbn [reset_calibration TPS0 TPS1 reset_sensor set_isCalibrated set_calibMax
       set_calibMin calibMin calibMax].
  destruct (fold_min_le (samples0 body) (specMax (TPS0 st))) as [m0 M0].
  destruct (fold_max_ge (samples0 body) (specMin (TPS0 st))) as [x0 X0].
  destruct (fold_min_le (samples1 body) (specMax (TPS1 st))) as [m1 M1].
  destruct (fold_max_ge (samples1 body) (specMin (TPS1 st))) as [x1 X1].
  split; [apply Forall_and_bounds; assumption | ].
  split; [apply Forall_and_bounds; assumption | ].
  repeat (split; [assumption | ]).
  intros Hne. destruct body as [ | t body]; [congruence | ].
  cbn [samples0 samples1 map] in *.
  inversion M0; inversion X0; inversion M1; inversion X1; subst. lia.
Qed.

Lemma calibration_encloses_samples_witness :
  run_until (calibration_limit 1) sweep_body sweep_end /\
  exists st',
    calibrateTPS 1 (sweep_body ++ sweep_end :: []) startup = Some st' /\
    Forall (fun v => calibMin (TPS0 st') <= v <= calibMax (TPS0 st'))
           (samples0 sweep_body).
Proof.
  split; [exact sweep_run | ].
  destruct (calibration_encloses_samples 1 sweep_body [] sweep_end startup sweep_run)
    as (st' & Hrun & H0 & _).
  exists st'. split; assumption.
Defined.

(** ** The order of the samples does not matter *)

Lemma fold_min_perm (l l' : list Z) :
  Permutation l l' -> forall init, fold_left Z.min l init = fold_left Z.min l' init.
Proof.
  induction 1 as [ | x l l' _ IH | x y l | l l' l'' _ IH1 _ IH2]; intros init;
    cbn [fold_left].
  - reflexivity.
  - apply IH.
  - f_equal. lia.
  - rewrite IH1. apply IH2.
Qed.

Lemma fold_max_perm (l l' : list Z) :
  Permutation l l' -> forall init, fold_left Z.max l init = fold_left Z.max l' init.
Proof.
  induction 1 as [ | x l l' _ IH | x y l | l l' l'' _ IH1 _ IH2]; intros init;
    cbn [fold_left].
  - reflexivity.
  - apply IH.
  - f_equal. lia.
  - rewrite IH1. apply IH2.
Qed.

(** X9. The committed calibration depends on which samples the loop saw, not
    on their order or on when it saw them: two completed runs whose
    samples are the same up to order commit the same bounds. *)
Theorem calibration_order_independent (secs : Z) (body body' rest rest' : list Tick)
  (t_end t_end' : Tick) (st : State) :
  run_until (calibration_limit secs) body t_end ->
  run_until (calibration_limit secs) body' t_end' ->
  Permutation (samples0 body) (samples0 body') ->
  Permutation (samples1 body) (samples1 body') ->
  exists a b,
    calibrateTPS secs (body ++ t_end :: rest) st = Some a /\
    calibrateTPS secs (body' ++ t_end' :: rest') st = Some b /\
    same_calibration a b.
Proof.
  intros Hrun Hrun' P0 P1.
  do 2 eexists.
  split; [apply calibrateTPS_run; exact Hrun | ].
  split; [apply calibrateTPS_run; exact Hrun' | ].
  unfold same_calibration.
  cbn [commit_calibration TPS0 TPS1 set_isCalibrated calibMin calibMax isCalibrated].
  destruct (observed_TPS0 body (reset_calibration st)) as (A & B & _).
  destruct (observed_TPS1 body (reset_calibration st)) as (C & D & _).
  destruct (observed_TPS0 body' (reset_calibration st)) as (A' & B' & _).
  destruct (observed_TPS1 body' (reset_calibration st)) as (C' & D' & _).
  rewrite A, B, C, D, A', B', C', D'.
  rewrite (fold_min_perm _ _ P0), (fold_max_perm _ _ P0).
  rewrite (fold_min_perm _ _ P1), (fold_max_perm _ _ P1).
  repeat split.
Qed.

Lemma sweep_down_run : run_until (calibration_limit 1) sweep_body_down sweep_end.
Proof.
  split.
  - repeat constructor.
  - vm_compute. discriminate.
Qed.

Lemma calibration_order_independent_witness :
  run_until (calibration_limit 1) sweep_body sweep_end /\
  run_until (calibration_limit 1) sweep_body_down sweep_end /\
  Permutation (samples0 sweep_body) (samples0 sweep_body_down) /\
  Permutation (samples1 sweep_body) (samples1 sweep_body_down) /\
  exists a b,
    calibrateTPS 1 (sweep_body ++ sweep_end :: []) startup = Some a /\
    calibrateTPS 1 (sweep_body_down ++ sweep_end :: []) startup = Some b /\
    same_calibration a b.
Proof.
  assert (P0 : Permutation (samples0 sweep_body) (samples0 sweep_body_down))
    by (exact (Permutation_rev (samples0 sweep_body))).
  assert (P1 : Permutation (samples1 sweep_body) (samples1 sweep_body_down))
    by (exact (Permutation_rev (samples1 sweep_body))).
  split; [exact sweep_run | ]. split; [exact sweep_down_run | ].
  split; [exact P0 | ]. split; [exact P1 | ].
  exact (calibration_order_independent 1 sweep_body sweep_body_down [] []
           sweep_end sweep_end startup sweep_run sweep_down_run P0 P1).
Defined.

(** ** The error counter *)

(** X11. [TPSErrorState] ends as the number of checks that failed: the four
    checks are all made, none hides another, and the 8-bit counter does
    not wrap. *)
Theorem TPSErrorState_counts_failed_checks (st : State) :
  TPSErrorState st
  = Z.b2z (out_of_range (TPS0 st)) + Z.b2z (out_of_range (TPS1 st))
    + Z.b2z (discrepancy st) + Z.b2z (uncalibrated st).
Proof.
  unfold TPSErrorState.
  destruct (out_of_range (TPS0 st)), (out_of_range (TPS1 st)),
    (discrepancy st), (uncalibrated st); reflexivity.
Qed.

(** ** Degenerate calibration *)

Lemma pins_plausible_no_pin_fault (st : State) :
  pins_plausible st ->
  out_of_range (TPS0 st) = false /\ out_of_range (TPS1 st) = false /\
  uncalibrated st = false.
Proof.
  intros (C0 & C1 & R0 & R1). unfold out_of_range, uncalibrated.
  rewrite C0, C1. repeat split; try reflexivity;
    apply orb_false_iff; split;
      try (apply Z.ltb_ge; lia); rewrite Z.gtb_ltb; apply Z.ltb_ge; lia.
Qed.

Lemma no_discrepancy_mean (st : State) :
  pins_plausible st -> discrepancy st = false ->
  TPSErrorState st = 0 /\
  GetThrottlePosition st
  = F32.div (F32.add (PedalPercent (TPS0 st)) (PedalPercent (TPS1 st)))
            (F32.of_Z 2).
Proof.
  intros Hp Hd. destruct (pins_plausible_no_pin_fault st Hp) as (A & B & C).
  assert (Hz : TPSErrorState st = 0)
    by (apply TPSErrorState_zero; repeat split; assumption).
  split; [exact Hz | ]. unfold GetThrottlePosition. rewrite Hz. reflexivity.
Qed.

Lemma PedalPercent_stuck (s : Sensor) :
  ubyte2_reading s ->
  calibMin s = sensorValue s -> calibMax s = sensorValue s ->
  PedalPercent s = S754_nan.
Proof.
  intros (Hv & Hmn & Hmx) E1 E2. unfold PedalPercent.
  rewrite getPercent_unbounded by assumption.
  rewrite E1, E2. replace (sensorValue s - sensorValue s) with 0 by lia.
  reflexivity.
Qed.

Lemma sub_nan_l (x : spec_float) : F32.sub S754_nan x = S754_nan.
Proof. reflexivity. Qed.

Lemma sub_nan_r (x : spec_float) : F32.sub x S754_nan = S754_nan.
Proof. destruct x; reflexivity. Qed.

Lemma add_nan_l (x : spec_float) : F32.add S754_nan x = S754_nan.
Proof. reflexivity. Qed.

Lemma add_nan_r (x : spec_float) : F32.add x S754_nan = S754_nan.
Proof. destruct x; reflexivity. Qed.

(** X12. A channel whose calibration bounds coincide and whose sample sits on
    them has a NaN fraction.  The discrepancy test is false on a NaN, so
    with both channels calibrated and in their spec ranges no fault is
    counted and [GetThrottlePosition] returns the NaN, whatever the other
    channel reads. *)
Theorem stuck_calibration_returns_nan (st : State) :
  pins_plausible st ->
  (ubyte2_reading (TPS0 st) /\
   calibMin (TPS0 st) = sensorValue (TPS0 st) /\
   calibMax (TPS0 st) = sensorValue (TPS0 st)) \/
  (ubyte2_reading (TPS1 st) /\
   calibMin (TPS1 st) = sensorValue (TPS1 st) /\
   calibMax (TPS1 st) = sensorValue (TPS1 st)) ->
  TPSErrorState st = 0 /\ GetThrottlePosition st = S754_nan.
Proof.
  intros Hp Hstuck.
  assert (Hd : discrepancy st = false).
  { unfold discrepancy.
    destruct Hstuck as [(U & E1 & E2) | (U & E1 & E2)];
      rewrite (PedalPercent_stuck _ U E1 E2);
      rewrite ?sub_nan_l, ?sub_nan_r; reflexivity. }
  destruct (no_discrepancy_mean st Hp Hd) as [Hz Hm].
  split; [exact Hz | ]. rewrite Hm.
  destruct Hstuck as [(U & E1 & E2) | (U & E1 & E2)];
    rewrite (PedalPercent_stuck _ U E1 E2);
    rewrite ?add_nan_l, ?add_nan_r; reflexivity.
Qed.

Lemma stuck_calibration_returns_nan_witness :
  (let st := mkState (mkSensor 0 0 4 true 2 2 0 2 false 0)
                     (mkSensor 0 0 4 true 1 3 0 3 false 0) in
   pins_plausible st /\
   TPSErrorState st = 0 /\ GetThrottlePosition st = S754_nan).
Proof.
  cbv zeta.
  assert (Hp : pins_plausible (mkState (mkSensor 0 0 4 true 2 2 0 2 false 0)
                                       (mkSensor 0 0 4 true 1 3 0 3 false 0)))
    by (repeat split; simpl; lia).
  split; [exact Hp | ].
  apply (stuck_calibration_returns_nan _ Hp).
  left. repeat split; simpl; lia.
Defined.

Lemma PedalPercent_zero_span (s : Sensor) :
  ubyte2_reading s -> calibMin s = calibMax s -> calibMin s <> sensorValue s ->
  PedalPercent s = S754_infinity (sensorValue s <? calibMin s).
Proof.
  intros (Hv & Hmn & Hmx) E Hne. unfold PedalPercent.
  rewrite getPercent_unbounded by assumption.
  rewrite <- E. replace (calibMin s - calibMin s) with 0 by lia.
  unfold is_ubyte2 in *.
  destruct (Z.ltb_spec (sensorValue s) (calibMin s));
    destruct (sensorValue s - calibMin s) eqn:Hd; try lia; reflexivity.
Qed.

(** X13. When the calibration bounds of both channels coincide and both samples
    lie on the same side of them, both fractions are the same infinity,
    their difference is a NaN, no fault is counted and
    [GetThrottlePosition] returns that infinity. *)
Theorem zero_span_returns_infinity (st : State) :
  pins_plausible st ->
  ubyte2_reading (TPS0 st) -> ubyte2_reading (TPS1 st) ->
  calibMin (TPS0 st) = calibMax (TPS0 st) ->
  calibMin (TPS1 st) = calibMax (TPS1 st) ->
  calibMin (TPS0 st) <> sensorValue (TPS0 st) ->
  calibMin (TPS1 st) <> sensorValue (TPS1 st) ->
  (sensorValue (TPS0 st) <? calibMin (TPS0 st))
  = (sensorValue (TPS1 st) <? calibMin (TPS1 st)) ->
  TPSErrorState st = 0 /\
  GetThrottlePosition st = S754_infinity (sensorValue (TPS0 st) <? calibMin (TPS0 st)).
Proof.
  intros Hp U0 U1 E0 E1 N0 N1 Hside.
  pose proof (PedalPercent_zero_span _ U0 E0 N0) as P0.
  pose proof (PedalPercent_zero_span _ U1 E1 N1) as P1.
  rewrite <- Hside in P1.
  assert (Hd : discrepancy st = false).
  { unfold discrepancy. rewrite P0, P1.
    destruct (sensorValue (TPS0 st) <? calibMin (TPS0 st)); reflexivity. }
  destruct (no_discrepancy_mean st Hp Hd) as [Hz Hm].
  split; [exact Hz | ]. rewrite Hm, P0, P1.
  destruct (sensorValue (TPS0 st) <? calibMin (TPS0 st)); reflexivity.
Qed.

Lemma zero_span_returns_infinity_witness :
  pins_plausible zero_span_state /\
  TPSErrorState zero_span_state = 0 /\
  GetThrottlePosition zero_span_state = S754_infinity false.
Proof.
  assert (Hp : pins_plausible zero_span_state) by (repeat split; simpl; lia).
  split; [exact Hp | ].
  apply (zero_span_returns_infinity zero_span_state Hp);
    try (repeat split; simpl; lia); try reflexivity; simpl; lia.
Defined.

(** ** The two channels are interchangeable *)

Lemma add_comm (x y : spec_float) : F32.add x y = F32.add y x.
Proof.
  unfold F32.add.
  destruct x as [sx | sx | | sx mx ex]; destruct y as [sy | sy | | sy my ey];
    try reflexivity; try (destruct sx, sy; reflexivity).
  cbn [SFadd]. rewrite (Z.min_comm ey ex). f_equal. apply Z.add_comm.
Qed.

Lemma binary_round_abs (prec emax : Z) (s : bool) (m : positive) (e : Z) :
  SFabs (binary_round prec emax s m e) = SFabs (binary_round prec emax false m e).
Proof.
  unfold binary_round.
  destruct (shl_align m e _) as [mz ez].
  unfold binary_round_aux.
  destruct (shr_fexp prec emax (Zpos mz) ez loc_Exact) as [mrs' e'].
  destruct (shr_fexp prec emax _ e' loc_Exact) as [mrs'' e''].
  destruct (shr_m mrs''); try reflexivity.
  destruct (e'' <=? emax - prec); reflexivity.
Qed.

Lemma binary_normalize_abs_opp (prec emax m e : Z) :
  SFabs (binary_normalize prec emax (- m) e false)
  = SFabs (binary_normalize prec emax m e false).
Proof.
  destruct m as [ | p | p]; cbn [Z.opp binary_normalize]; try reflexivity.
  - rewrite binary_round_abs. reflexivity.
  - rewrite (binary_round_abs prec emax true). reflexivity.
Qed.

Lemma of_float4_abs (x y : spec_float) :
  SFabs x = SFabs y -> SFabs (F64.of_float4 x) = SFabs (F64.of_float4 y).
Proof.
  destruct x as [sx | sx | | sx mx ex]; destruct y as [sy | sy | | sy my ey];
    cbn [SFabs F64.of_float4]; try discriminate; try (intros _; reflexivity).
  intros H. inversion H; subst.
  destruct sx, sy; cbn [cond_Zopp]; try reflexivity.
  - apply (binary_normalize_abs_opp F64.prec F64.emax (Zpos my)).
  - symmetry. apply (binary_normalize_abs_opp F64.prec F64.emax (Zpos my)).
Qed.

Lemma sub_abs_swap (x y : spec_float) :
  SFabs (F32.sub x y) = SFabs (F32.sub y x).
Proof.
  unfold F32.sub.
  destruct x as [sx | sx | | sx mx ex]; destruct y as [sy | sy | | sy my ey];
    try reflexivity; try (destruct sx, sy; reflexivity).
  cbn [SFsub]. rewrite (Z.min_comm ey ex).
  rewrite <- binary_normalize_abs_opp. f_equal. f_equal. lia.
Qed.

(** X15. [GetThrottlePosition] treats the two channels alike: exchanging the
    two sensor objects changes neither the error count nor the result. *)
Theorem GetThrottlePosition_symmetric (st : State) :
  TPSErrorState (swap_channels st) = TPSErrorState st /\
  GetThrottlePosition (swap_channels st) = GetThrottlePosition st.
Proof.
  assert (Hd : discrepancy (swap_channels st) = discrepancy st).
  { unfold discrepancy, swap_channels. cbn [TPS0 TPS1].
    rewrite (of_float4_abs _ _ (sub_abs_swap (PedalPercent (TPS0 st))
                                             (PedalPercent (TPS1 st)))).
    reflexivity. }
  assert (Hu : uncalibrated (swap_channels st) = uncalibrated st).
  { unfold uncalibrated, swap_channels. cbn [TPS0 TPS1]. apply orb_comm. }
  assert (He : TPSErrorState (swap_channels st) = TPSErrorState st).
  { unfold TPSErrorState. rewrite Hd, Hu.
    unfold swap_channels. cbn [TPS0 TPS1].
    destruct (out_of_range (TPS0 st)), (out_of_range (TPS1 st)),
      (discrepancy st), (uncalibrated st); reflexivity. }
  split; [exact He | ].
  unfold GetThrottlePosition. rewrite He.
  unfold swap_channels. cbn [TPS0 TPS1].
  rewrite (add_comm (PedalPercent (TPS1 st))). reflexivity.
Qed.

(** ** Shifting out several bits *)

Lemma shr_1_nonneg (m : Z) (r s : bool) :
  0 <= m ->
  shr_1 (Build_shr_record m r s) = Build_shr_record (Z.div2 m) (Z.odd m) (r || s).
Proof.
  intros Hm. destruct m as [ | [p | p | ] | p]; try lia; reflexivity.
Qed.

(** After [k + 1] shifts the record holds the quotient by [2 ^ (k + 1)],
    the bit shifted out last and whether any bit before it was set. *)
Lemma shr_iter_record (S : Z) (k : nat) :
  0 <= S ->
  Nat.iter (Datatypes.S k) shr_1 (exact_record S)
  = Build_shr_record (S / 2 ^ (Z.of_nat k + 1))
                     (Z.odd (S / 2 ^ Z.of_nat k))
                     (negb (S mod 2 ^ Z.of_nat k =? 0)).
Proof.
  intros HS. induction k as [ | k IH].
  - cbn [Nat.iter]. unfold exact_record. rewrite shr_1_nonneg by assumption.
    cbn [Z.of_nat]. rewrite Z.pow_0_r, Z.div_1_r, Z.mod_1_r, Z.div2_div.
    reflexivity.
  - change (Nat.iter (Datatypes.S (Datatypes.S k)) shr_1 (exact_record S))
      with (shr_1 (Nat.iter (Datatypes.S k) shr_1 (exact_record S))).
    rewrite IH.
    assert (P : 0 < 2 ^ Z.of_nat k) by (apply Z.pow_pos_nonneg; lia).
    assert (Hq : 0 <= S / 2 ^ (Z.of_nat k + 1))
      by (apply Z.div_pos; [lia | apply Z.pow_pos_nonneg; lia]).
    rewrite shr_1_nonneg by assumption.
    rewrite Nat2Z.inj_succ.
    replace (Z.succ (Z.of_nat k)) with (Z.of_nat k + 1) by lia.
    f_equal.
    + rewrite Z.div2_div, Z.div_div by lia.
      f_equal. rewrite (Z.pow_add_r 2 (Z.of_nat k + 1) 1) by lia. reflexivity.
    + (* a bit of the remainder is set iff bit k is, or one below *)
      rewrite (Z.pow_add_r 2 (Z.of_nat k) 1) by lia. change (2 ^ 1) with 2.
      rewrite Z.rem_mul_r by lia.
      pose proof (Z.mod_pos_bound S (2 ^ Z.of_nat k) P) as B1.
      pose proof (Z.mod_pos_bound (S / 2 ^ Z.of_nat k) 2 ltac:(lia)) as B2.
      rewrite <- Z.bit0_mod. rewrite Z.bit0_odd.
      destruct (Z.odd (S / 2 ^ Z.of_nat k)); cbn [Z.b2z orb].
      * symmetry. apply negb_true_iff, Z.eqb_neq. nia.
      * rewrite Z.mul_0_r, Z.add_0_r. reflexivity.
Qed.

Lemma round_shifted (S : Z) (k : nat) :
  0 <= S ->
  let mrs := Nat.iter (Datatypes.S k) shr_1 (exact_record S) in
  round_nearest_even (shr_m mrs) (loc_of_shr_record mrs)
  = rne_div S (2 ^ (Z.of_nat k + 1)).
Proof.
  intros HS. cbv zeta. rewrite shr_iter_record by assumption.
  cbn [shr_m]. unfold rne_div.
  assert (P : 0 < 2 ^ Z.of_nat k) by (apply Z.pow_pos_nonneg; lia).
  rewrite (Z.pow_add_r 2 (Z.of_nat k) 1) by lia. change (2 ^ 1) with 2.
  rewrite (Z.rem_mul_r S (2 ^ Z.of_nat k) 2) by lia.
  pose proof (Z.mod_pos_bound S (2 ^ Z.of_nat k) P) as B1.
  rewrite <- Z.bit0_mod, Z.bit0_odd.
  set (R := S mod 2 ^ Z.of_nat k) in *.
  set (q := S / (2 ^ Z.of_nat k * 2)).
  destruct (Z.odd (S / 2 ^ Z.of_nat k)); destruct (Z.eqb_spec R 0);
    cbn [Z.b2z negb loc_of_shr_record round_nearest_even];
    match goal with
    | |- context [?a ?= ?b] => destruct (Z.compare_spec a b)
    end; try reflexivity; nia.
Qed.

(** Rounding an exact mantissa of [24 + n] bits. *)
Lemma binary_round_aux_shift (s : bool) (S e n : Z) :
  0 < n -> 2 ^ (23 + n) <= S < 2 ^ (24 + n) -> -149 <= e + n <= 103 ->
  binary_round_aux 24 128 s S e loc_Exact = pack s (e + n) (rne_div S (2 ^ n)).
Proof.
  intros Hn HS He. unfold binary_round_aux.
  assert (P : 0 < 2 ^ (23 + n)) by (apply Z.pow_pos_nonneg; lia).
  assert (Hs : shr_fexp 24 128 S e loc_Exact
               = (Nat.iter (Z.to_nat n) shr_1 (exact_record S), e + n)).
  { unfold shr_fexp. rewrite Zdigits2_pos by lia.
    rewrite (dig_unique S (24 + n)) by (replace (24 + n - 1) with (23 + n) by lia; lia).
    rewrite fexp32_normal by lia.
    replace (24 + n + e - 24 - e) with n by lia.
    destruct n as [ | p | p]; try lia.
    unfold shr. rewrite iter_pos_nat. reflexivity. }
  rewrite Hs.
  destruct (Z.to_nat n) as [ | k] eqn:Hk; [lia | ].
  rewrite (round_shifted S k) by lia.
  replace (Z.of_nat k + 1) with n by lia.
  apply pack_of_rounded; [ | lia].
  assert (Pn : 0 < 2 ^ n) by (apply Z.pow_pos_nonneg; lia).
  apply rne_div_normal; [assumption | ].
  rewrite <- !Z.pow_add_r by lia. exact HS.
Qed.

(** ** Addition of normal numbers *)

Lemma add_normal (m1 m2 : positive) (e1 e2 : Z) :
  normal m1 -> normal m2 -> -100 <= e1 <= 50 -> -100 <= e2 <= 50 ->
  let ez := Z.min e1 e2 in
  let S := Zpos m1 * 2 ^ (e1 - ez) + Zpos m2 * 2 ^ (e2 - ez) in
  let n := dig S - 24 in
  0 < n /\ ez + n <= Z.max e1 e2 + 1 /\ 2 ^ (23 + n) <= S < 2 ^ (24 + n) /\
  F32.add (S754_finite false m1 e1) (S754_finite false m2 e2)
  = pack false (ez + n) (rne_div S (2 ^ n)).
Proof.
  intros N1 N2 He1 He2. unfold normal in *. cbv zeta.
  set (ez := Z.min e1 e2).
  assert (P1 : 1 <= 2 ^ (e1 - ez)) by (apply (pow2_le_mono 0); unfold ez; lia).
  assert (P2 : 1 <= 2 ^ (e2 - ez)) by (apply (pow2_le_mono 0); unfold ez; lia).
  set (S := Zpos m1 * 2 ^ (e1 - ez) + Zpos m2 * 2 ^ (e2 - ez)).
  assert (HS24 : 2 ^ 24 <= S) by (unfold S; nia).
  assert (Hdig : 25 <= dig S).
  { rewrite <- (dig_unique (2 ^ 24) 25) by lia. apply dig_le; lia. }
  pose proof (dig_bounds S ltac:(lia)) as HB.
  assert (Hup : dig S <= 25 + (Z.max e1 e2 - ez)).
  { apply dig_le_of_lt_pow2; try (unfold ez; lia).
    assert (2 ^ (e1 - ez) <= 2 ^ (Z.max e1 e2 - ez))
      by (apply pow2_le_mono; unfold ez; lia).
    assert (2 ^ (e2 - ez) <= 2 ^ (Z.max e1 e2 - ez))
      by (apply pow2_le_mono; unfold ez; lia).
    rewrite Z.pow_add_r by (unfold ez; lia). nia. }
  split; [lia | ]. split; [lia | ]. split.
  { replace (23 + (dig S - 24)) with (dig S - 1) by lia.
    replace (24 + (dig S - 24)) with (dig S) by lia. exact HB. }
  unfold F32.add, F32.prec, F32.emax. cbn [SFadd cond_Zopp]. fold ez.
  rewrite !shl_align_fst by (unfold ez; lia). fold S.
  clearbody S. destruct S as [ | p | p]; try lia.
  cbn [binary_normalize]. unfold binary_round.
  rewrite digits2_pos_dig. rewrite fexp32_normal by (unfold ez; lia).
  unfold shl_align.
  destruct (dig (Zpos p) + ez - 24 - ez) as [ | q | q] eqn:Hq; try lia.
  rewrite (binary_round_aux_shift false (Zpos p) ez (dig (Zpos p) - 24)).
  - reflexivity.
  - lia.
  - replace (23 + (dig (Zpos p) - 24)) with (dig (Zpos p) - 1) by lia.
    replace (24 + (dig (Zpos p) - 24)) with (dig (Zpos p)) by lia. exact HB.
  - unfold ez. lia.
Qed.

(** ** Order of rounded values *)

(** Rounding is monotone: of two scaled quotients [N1 / D1 * 2 ^ E1 <=
    N2 / D2 * 2 ^ E2], each with its quotient in the 24-bit range, the
    first rounds to at most the second. *)
Lemma pack_round_mono (E E1 E2 N1 D1 N2 D2 : Z) :
  0 < D1 -> 0 < D2 ->
  2 ^ 23 * D1 <= N1 < 2 ^ 24 * D1 -> 2 ^ 23 * D2 <= N2 < 2 ^ 24 * D2 ->
  E <= E1 -> E <= E2 ->
  N1 * D2 * 2 ^ (E1 - E) <= N2 * D1 * 2 ^ (E2 - E) ->
  SFleb (pack false E1 (rne_div N1 D1)) (pack false E2 (rne_div N2 D2)) = true.
Proof.
  intros HD1 HD2 B1 B2 L1 L2 Hval.
  assert (Q1 : 0 < 2 ^ (E1 - E)) by (apply Z.pow_pos_nonneg; lia).
  assert (Q2 : 0 < 2 ^ (E2 - E)) by (apply Z.pow_pos_nonneg; lia).
  assert (HE : E1 <= E2).
  { destruct (Z.le_gt_cases E1 E2) as [ | Hgt]; [assumption | exfalso].
    pose proof (pow2_le_mono (E2 - E + 1) (E1 - E) ltac:(lia)) as Hp.
    rewrite Z.pow_add_r in Hp by lia. change (2 ^ 1) with 2 in Hp.
    assert (A1 : 2 ^ 23 * (D1 * D2) <= N1 * D2) by nia.
    assert (A2 : N2 * D1 < 2 ^ 24 * (D1 * D2)) by nia.
    assert (A0 : 0 < D1 * D2) by nia.
    set (X := 2 ^ (E2 - E)) in *. set (Y := 2 ^ (E1 - E)) in *.
    set (P := N1 * D2) in *. set (Q := D1 * D2) in *. set (R := N2 * D1) in *.
    assert (2 ^ 24 * Q * X <= P * Y) by nia.
    assert (R * X < 2 ^ 24 * Q * X) by nia.
    lia. }
  apply pack_leb; try (apply rne_div_normal; lia).
  destruct (Z.eq_dec E1 E2) as [Heq | Hne]; [right | left; lia].
  split; [exact Heq | ]. subst E2.
  rewrite <- (rne_div_scale N1 D1 D2) by lia.
  rewrite <- (rne_div_scale N2 D2 D1) by lia.
  rewrite (Z.mul_comm D2 D1). apply rne_div_mono; [nia | nia].
Qed.

Lemma normal_as_pack (m : positive) (e : Z) :
  normal m -> S754_finite false m e = pack false e (rne_div (Zpos m) 1).
Proof.
  intros Hm. unfold normal in Hm.
  pose proof (rne_div_exact (Zpos m) 1 ltac:(lia)) as H.
  rewrite Z.mul_1_r in H. rewrite H. unfold pack.
  destruct (Z.eqb_spec (Zpos m) (2 ^ 24)); [lia | reflexivity].
Qed.

Lemma pack_normal (E M : Z) :
  2 ^ 23 <= M <= 2 ^ 24 ->
  exists m e, pack false E M = S754_finite false m e /\ normal m /\ E <= e <= E + 1.
Proof.
  intros HM. unfold pack, normal.
  destruct (Z.eqb_spec M (2 ^ 24)).
  - exists (Z.to_pos (2 ^ 23)), (E + 1). split; [reflexivity | ].
    split; [vm_compute; split; [discriminate | reflexivity] | lia].
  - exists (Z.to_pos M), E. split; [reflexivity | ].
    rewrite Z2Pos.id by lia. lia.
Qed.

(** ** Halving *)

Lemma halve_normal (m : positive) (e : Z) :
  normal m -> -100 <= e <= 50 ->
  F32.div (S754_finite false m e) (F32.of_Z 2) = S754_finite false m (e - 1).
Proof.
  intros Hm He. unfold normal in Hm.
  change (F32.of_Z 2) with (S754_finite false (Z.to_pos (2 ^ 23)) (-22)).
  rewrite div_normal
    by first [lia | vm_compute; split; [discriminate | reflexivity]].
  change (Zpos (Z.to_pos (2 ^ 23))) with (2 ^ 23).
  destruct (Z.ltb_spec (Zpos m) (2 ^ 23)); [lia | ].
  replace (Zpos m * 2 ^ 24) with (Zpos m * (2 * 2 ^ 23)) by lia.
  rewrite rne_div_exact by lia. unfold pack.
  destruct (Z.eqb_spec (Zpos m) (2 ^ 24)); [lia | ].
  cbn [xorb]. f_equal. lia.
Qed.

Lemma SFleb_shift (m1 m2 : positive) (e1 e2 k : Z) :
  SFleb (S754_finite false m1 (e1 + k)) (S754_finite false m2 (e2 + k))
  = SFleb (S754_finite false m1 e1) (S754_finite false m2 e2).
Proof.
  unfold SFleb. cbn [SFcompare].
  destruct (Z.compare_spec (e1 + k) (e2 + k)); destruct (Z.compare_spec e1 e2);
    try reflexivity; lia.
Qed.

Lemma SFleb_normal_value (m1 m2 : positive) (e1 e2 E : Z) :
  normal m1 -> normal m2 -> E <= e1 -> E <= e2 ->
  SFleb (S754_finite false m1 e1) (S754_finite false m2 e2) = true ->
  Zpos m1 * 2 ^ (e1 - E) <= Zpos m2 * 2 ^ (e2 - E).
Proof.
  unfold normal. intros N1 N2 L1 L2. unfold SFleb. cbn [SFcompare].
  assert (Q1 : 0 < 2 ^ (e1 - E)) by (apply Z.pow_pos_nonneg; lia).
  destruct (Z.compare_spec e1 e2) as [Heq | Hlt | Hgt].
  - subst e2.
    change (Pos.compare_cont Eq m1 m2) with (Pos.compare m1 m2).
    destruct (Pos.compare_spec m1 m2); try discriminate; intros _; subst; nia.
  - intros _.
    pose proof (pow2_le_mono (e1 - E + 1) (e2 - E) ltac:(lia)) as Hp.
    rewrite Z.pow_add_r in Hp by lia. change (2 ^ 1) with 2 in Hp. nia.
  - discriminate.
Qed.

(** ** The mean of two normal numbers *)

(** The binary32 mean [(x0 + x1) / 2] of two positive normal numbers lies
    between them. *)
Lemma mean_between_normal (m0 m1 : positive) (e0 e1 : Z) :
  normal m0 -> normal m1 -> -100 <= e0 <= 48 -> -100 <= e1 <= 48 ->
  SFleb (S754_finite false m0 e0) (S754_finite false m1 e1) = true ->
  exists m e,
    F32.div (F32.add (S754_finite false m0 e0) (S754_finite false m1 e1))
            (F32.of_Z 2) = S754_finite false m e /\
    normal m /\
    SFleb (S754_finite false m0 e0) (S754_finite false m e) = true /\
    SFleb (S754_finite false m e) (S754_finite false m1 e1) = true.
Proof.
  intros N0 N1 He0 He1 Hle.
  destruct (add_normal m0 m1 e0 e1 N0 N1 ltac:(lia) ltac:(lia))
    as (Hn & Hup & HS & Hadd).
  pose proof (SFleb_normal_value m0 m1 e0 e1 (Z.min e0 e1) N0 N1
                ltac:(lia) ltac:(lia) Hle) as Hval.
  set (ez := Z.min e0 e1) in *.
  set (A0 := Zpos m0 * 2 ^ (e0 - ez)) in *.
  set (A1 := Zpos m1 * 2 ^ (e1 - ez)) in *.
  set (S := A0 + A1) in *. set (n := dig S - 24) in *.
  assert (Pn : 2 ^ n = 2 * 2 ^ (n - 1)).
  { replace n with (Z.succ (n - 1)) at 1 by lia. apply Z.pow_succ_r. lia. }
  assert (Pn1 : 0 < 2 ^ (n - 1)) by (apply Z.pow_pos_nonneg; lia).
  assert (HSn : 2 ^ 23 * 2 ^ n <= S < 2 ^ 24 * 2 ^ n)
    by (rewrite <- !Z.pow_add_r by lia; exact HS).
  pose proof (rne_div_normal S (2 ^ n) ltac:(lia) HSn) as HM.
  assert (Hlow : SFleb (S754_finite false m0 (e0 + 1))
                       (pack false (ez + n) (rne_div S (2 ^ n))) = true).
  { rewrite (normal_as_pack m0 (e0 + 1) N0).
    apply (pack_round_mono (ez + 1)); unfold normal in *; try lia.
    replace (e0 + 1 - (ez + 1)) with (e0 - ez) by lia.
    replace (ez + n - (ez + 1)) with (n - 1) by lia.
    fold A0. rewrite Pn. unfold S. nia. }
  assert (Hhigh : SFleb (pack false (ez + n) (rne_div S (2 ^ n)))
                        (S754_finite false m1 (e1 + 1)) = true).
  { rewrite (normal_as_pack m1 (e1 + 1) N1).
    apply (pack_round_mono (ez + 1)); unfold normal in *; try lia.
    replace (e1 + 1 - (ez + 1)) with (e1 - ez) by lia.
    replace (ez + n - (ez + 1)) with (n - 1) by lia.
    fold A1. rewrite Pn. unfold S. nia. }
  destruct (pack_normal (ez + n) (rne_div S (2 ^ n)) HM) as (ms & es & Hp & Ns & Hes).
  rewrite Hadd, Hp in *.
  exists ms, (es - 1).
  split; [apply halve_normal; [assumption | unfold ez in *; lia] | ].
  split; [assumption | ].
  replace es with (es - 1 + 1) in Hlow, Hhigh by lia.
  rewrite SFleb_shift in Hlow, Hhigh. split; assumption.
Qed.

Lemma unit_fraction_shape (a d : Z) :
  0 <= a <= d -> 0 < d < 2 ^ 16 ->
  unit_float (F32.div (int_float a) (int_float d)).
Proof.
  intros Ha Hd. destruct (Z.eq_dec a 0) as [-> | Hnz].
  - left. destruct d; try lia. reflexivity.
  - right.
    destruct (div_int_rounded a d ltac:(lia) ltac:(lia)) as (K & HK & B & Q).
    pose proof (rne_div_normal (a * 2 ^ K) d ltac:(lia) B) as HM.
    destruct (pack_normal (- K) _ HM) as (m & e & Hp & Nm & He).
    exists m, e. rewrite Q. split; [exact Hp | ]. split; [exact Nm | lia].
Qed.

Lemma PedalPercent_unit (s : Sensor) :
  within_calibration s ->
  unit_float (PedalPercent s) /\ in_unit_interval (PedalPercent s).
Proof.
  intros ((Hv & Hmn & Hmx) & Hlt & Hin). unfold PedalPercent.
  rewrite getPercent_unbounded by assumption. unfold is_ubyte2 in *.
  split.
  - apply unit_fraction_shape; lia.
  - apply quotient_in_unit_interval; lia.
Qed.

Lemma fle_total_unit (x y : spec_float) :
  unit_float x -> unit_float y -> fle x y = true \/ fle y x = true.
Proof.
  intros [-> | (mx & ex & -> & _ & _)] [-> | (my & ey & -> & _ & _)];
    try (left; reflexivity); try (right; reflexivity).
  unfold fle, SFleb. rewrite (SFcompare_swap (S754_finite false mx ex)).
  destruct (SFcompare (S754_finite false mx ex) (S754_finite false my ey))
    as [[ | | ] | ] eqn:Hc; cbn; auto.
  discriminate.
Qed.

Lemma unit_float_nonneg (x : spec_float) : unit_float x -> nonneg_float x.
Proof. intros [-> | (m & e & -> & _)]; exact I. Qed.

Lemma fle_trans_nonneg (x y z : spec_float) :
  nonneg_float x -> nonneg_float y -> nonneg_float z ->
  fle x y = true -> fle y z = true -> fle x z = true.
Proof.
  destruct x as [[ | ] | | | [ | ] mx ex]; try contradiction;
    destruct y as [[ | ] | | | [ | ] my ey]; try contradiction;
    destruct z as [[ | ] | | | [ | ] mz ez]; try contradiction;
    intros _ _ _;
    unfold fle, SFleb; cbn [SFcompare]; try reflexivity; try discriminate.
  change (Pos.compare_cont Eq mx my) with (Pos.compare mx my).
  change (Pos.compare_cont Eq my mz) with (Pos.compare my mz).
  change (Pos.compare_cont Eq mx mz) with (Pos.compare mx mz).
  destruct (Z.compare_spec ex ey); destruct (Z.compare_spec ey ez);
    destruct (Z.compare_spec ex ez); try lia; try reflexivity; try discriminate;
    destruct (Pos.compare_spec mx my); destruct (Pos.compare_spec my mz);
    destruct (Pos.compare_spec mx mz); try lia; try reflexivity; try discriminate.
Qed.

(** The mean of two such numbers is one of them again and lies between
    them. *)
Lemma mean_between (x y : spec_float) :
  unit_float x -> unit_float y -> fle x y = true ->
  let r := F32.div (F32.add x y) (F32.of_Z 2) in
  nonneg_float r /\ fle x r = true /\ fle r y = true.
Proof.
  intros [-> | (mx & ex & -> & Nx & Hex)] [-> | (my & ey & -> & Ny & Hey)] Hle;
    cbv zeta.
  - split; [exact I | split; reflexivity].
  - change (F32.add (S754_zero false) (S754_finite false my ey))
      with (S754_finite false my ey).
    rewrite halve_normal by (assumption || lia).
    split; [exact I | ]. split; [reflexivity | ].
    unfold fle, SFleb. cbn [SFcompare].
    destruct (Z.compare_spec (ey - 1) ey); first [reflexivity | lia].
  - discriminate.
  - destruct (mean_between_normal mx my ex ey Nx Ny Hex Hey Hle)
      as (m & e & Hr & Nm & L1 & L2).
    rewrite Hr. split; [exact I | split; assumption].
Qed.

(** The mean of two such numbers of [[0,1]], in whatever order, is in
    [[0,1]] and between them. *)
Lemma mean_of_units (p0 p1 : spec_float) :
  unit_float p0 -> unit_float p1 ->
  in_unit_interval p0 -> in_unit_interval p1 ->
  between p0 (F32.div (F32.add p0 p1) (F32.of_Z 2)) p1 /\
  in_unit_interval (F32.div (F32.add p0 p1) (F32.of_Z 2)).
Proof.
  intros U0 U1 I0 I1.
  assert (Hmean : nonneg_float (F32.div (F32.add p0 p1) (F32.of_Z 2)) /\
                  between p0 (F32.div (F32.add p0 p1) (F32.of_Z 2)) p1).
  { destruct (fle_total_unit p0 p1 U0 U1) as [Hle | Hle].
    - destruct (mean_between p0 p1 U0 U1 Hle) as (Ur & A & B).
      split; [exact Ur | left; split; assumption].
    - destruct (mean_between p1 p0 U1 U0 Hle) as (Ur & A & B).
      rewrite (add_comm p1 p0) in Ur, A, B.
      split; [exact Ur | right; split; assumption]. }
  destruct Hmean as [Ur Hb]. split; [exact Hb | ].
  split.
  - destruct (F32.div (F32.add p0 p1) (F32.of_Z 2)) as [[ | ] | | | [ | ] m e];
      try contradiction; reflexivity.
  - destruct I0 as [_ I0]. destruct I1 as [_ I1].
    destruct Hb as [[_ B] | [_ B]].
    + exact (fle_trans_nonneg _ _ fone Ur (unit_float_nonneg _ U1) I B I1).
    + exact (fle_trans_nonneg _ _ fone Ur (unit_float_nonneg _ U0) I B I0).
Qed.

Lemma GetThrottlePosition_unit (st : State) :
  within_calibration (TPS0 st) -> within_calibration (TPS1 st) ->
  in_unit_interval (GetThrottlePosition st).
Proof.
  intros W0 W1.
  destruct (PedalPercent_unit _ W0) as [U0 I0].
  destruct (PedalPercent_unit _ W1) as [U1 I1].
  destruct (mean_of_units _ _ U0 U1 I0 I1) as [_ Hunit].
  unfold GetThrottlePosition.
  destruct (TPSErrorState st >? 0); [split; reflexivity | exact Hunit].
Qed.

(** X16. With both samples within their calibrated ranges the two fractions
    are in [[0,1]], and so is the result of [GetThrottlePosition]; when no
    fault is counted the result lies between the two fractions. *)
Theorem calibrated_travel_is_bounded (st : State) :
  within_calibration (TPS0 st) -> within_calibration (TPS1 st) ->
  in_unit_interval (PedalPercent (TPS0 st)) /\
  in_unit_interval (PedalPercent (TPS1 st)) /\
  in_unit_interval (GetThrottlePosition st) /\
  (TPSErrorState st = 0 ->
   between (PedalPercent (TPS0 st)) (GetThrottlePosition st)
           (PedalPercent (TPS1 st))).
Proof.
  intros W0 W1.
  destruct (PedalPercent_unit _ W0) as [U0 I0].
  destruct (PedalPercent_unit _ W1) as [U1 I1].
  split; [exact I0 | ]. split; [exact I1 | ].
  split; [apply GetThrottlePosition_unit; assumption | ].
  destruct (mean_of_units _ _ U0 U1 I0 I1) as [Hb _].
  intros Hz. unfold GetThrottlePosition. rewrite Hz. exact Hb.
Qed.

Lemma calibrated_travel_is_bounded_witness :
  within_calibration (TPS0 plausible_state) /\
  within_calibration (TPS1 plausible_state) /\
  in_unit_interval (GetThrottlePosition plausible_state).
Proof.
  assert (W0 : within_calibration (TPS0 plausible_state))
    by (repeat split; simpl; lia).
  assert (W1 : within_calibration (TPS1 plausible_state))
    by (repeat split; simpl; lia).
  split; [exact W0 | ]. split; [exact W1 | ].
  apply (calibrated_travel_is_bounded plausible_state W0 W1).
Defined.

(** ** Channels that agree exactly *)

Lemma fle_antisym_nonneg (x y : spec_float) :
  nonneg_float x -> nonneg_float y ->
  fle x y = true -> fle y x = true -> x = y.
Proof.
  destruct x as [[ | ] | | | [ | ] mx ex]; try contradiction;
    destruct y as [[ | ] | | | [ | ] my ey]; try contradiction;
    intros _ _; unfold fle, SFleb; cbn [SFcompare];
    try reflexivity; try discriminate.
  change (Pos.compare_cont Eq mx my) with (Pos.compare mx my).
  change (Pos.compare_cont Eq my mx) with (Pos.compare my mx).
  destruct (Z.compare_spec ex ey); destruct (Z.compare_spec ey ex);
    try lia; try discriminate.
  destruct (Pos.compare_spec mx my); destruct (Pos.compare_spec my mx);
    try lia; try discriminate; intros _ _; subst; reflexivity.
Qed.

Lemma sub_self_unit (x : spec_float) :
  unit_float x -> F32.sub x x = S754_zero false.
Proof.
  intros [-> | (m & e & -> & _)]; [reflexivity | ].
  unfold F32.sub. cbn [SFsub cond_Zopp].
  rewrite Z.sub_diag. reflexivity.
Qed.

(** X17. When the two fractions are the same number (both samples within
    their calibrated ranges), the difference is zero, no discrepancy is
    seen, and the mean is that number itself: with both channels
    calibrated and in their spec ranges it is returned exactly. *)
Theorem equal_fractions_are_returned (st : State) :
  pins_plausible st ->
  within_calibration (TPS0 st) -> within_calibration (TPS1 st) ->
  PedalPercent (TPS0 st) = PedalPercent (TPS1 st) ->
  discrepancy st = false /\ TPSErrorState st = 0 /\
  GetThrottlePosition st = PedalPercent (TPS0 st).
Proof.
  intros Hp W0 W1 Heq.
  destruct (PedalPercent_unit _ W0) as [U0 I0].
  assert (Hd : discrepancy st = false).
  { unfold discrepancy. rewrite <- Heq, (sub_self_unit _ U0). reflexivity. }
  destruct (no_discrepancy_mean st Hp Hd) as [Hz Hm].
  split; [exact Hd | ]. split; [exact Hz | ].
  rewrite Hm, <- Heq.
  assert (Hle : fle (PedalPercent (TPS0 st)) (PedalPercent (TPS0 st)) = true).
  { destruct U0 as [-> | (m & e & -> & _)]; unfold fle, SFleb; cbn [SFcompare];
      [reflexivity | ].
    rewrite Z.compare_refl, Pos.compare_cont_refl. reflexivity. }
  destruct (mean_between _ _ U0 U0 Hle) as (Nr & A & B).
  symmetry. apply fle_antisym_nonneg; try assumption.
  apply unit_float_nonneg. exact U0.
Qed.

Lemma equal_fractions_are_returned_witness :
  (let st := mkState (mkSensor 0 0 100 true 10 90 0 30 false 0)
                     (mkSensor 0 0 100 true 20 60 0 30 false 0) in
   pins_plausible st /\ within_calibration (TPS0 st) /\
   within_calibration (TPS1 st) /\
   PedalPercent (TPS0 st) = PedalPercent (TPS1 st) /\
   GetThrottlePosition st = PedalPercent (TPS0 st)).
Proof.
  cbv zeta.
  set (st := mkState (mkSensor 0 0 100 true 10 90 0 30 false 0)
                     (mkSensor 0 0 100 true 20 60 0 30 false 0)).
  assert (Hp : pins_plausible st) by (repeat split; simpl; lia).
  assert (W0 : within_calibration (TPS0 st)) by (repeat split; simpl; lia).
  assert (W1 : within_calibration (TPS1 st)) by (repeat split; simpl; lia).
  assert (E : PedalPercent (TPS0 st) = PedalPercent (TPS1 st))
    by (vm_compute; reflexivity).
  split; [exact Hp | ]. split; [exact W0 | ]. split; [exact W1 | ].
  split; [exact E | ].
  exact (proj2 (proj2 (equal_fractions_are_returned st Hp W0 W1 E))).
Defined.

(** ** A single degenerate channel *)

Lemma discrepancy_infinite (x : spec_float) (s : bool) :
  unit_float x ->
  fgt (SFabs (F64.of_float4 (F32.sub x (S754_infinity s)))) tolerance = true /\
  fgt (SFabs (F64.of_float4 (F32.sub (S754_infinity s) x))) tolerance = true.
Proof.
  intros [-> | (m & e & -> & _)]; split; reflexivity.
Qed.

(** X14. One channel with coinciding calibration bounds and its sample off
    them has an infinite fraction; against a channel within its
    calibrated range the discrepancy test fires and the result is
    zero. *)
Theorem single_zero_span_is_caught (st : State) :
  (ubyte2_reading (TPS0 st) /\ calibMin (TPS0 st) = calibMax (TPS0 st) /\
   calibMin (TPS0 st) <> sensorValue (TPS0 st) /\ within_calibration (TPS1 st)) \/
  (ubyte2_reading (TPS1 st) /\ calibMin (TPS1 st) = calibMax (TPS1 st) /\
   calibMin (TPS1 st) <> sensorValue (TPS1 st) /\ within_calibration (TPS0 st)) ->
  discrepancy st = true /\ GetThrottlePosition st = fzero.
Proof.
  intros H.
  assert (Hd : discrepancy st = true).
  { unfold discrepancy.
    destruct H as [(U & E & N & W) | (U & E & N & W)];
      rewrite (PedalPercent_zero_span _ U E N);
      destruct (PedalPercent_unit _ W) as [Uo _];
      apply (discrepancy_infinite _ _ Uo). }
  split; [exact Hd | ].
  apply counted_fault_failsafe. tauto.
Qed.

Lemma single_zero_span_is_caught_witness :
  (let st := mkState (mkSensor 0 0 4 true 2 2 0 3 false 0)
                     (mkSensor 0 0 4 true 1 3 0 3 false 0) in
   ubyte2_reading (TPS0 st) /\ calibMin (TPS0 st) = calibMax (TPS0 st) /\
   calibMin (TPS0 st) <> sensorValue (TPS0 st) /\ within_calibration (TPS1 st) /\
   GetThrottlePosition st = fzero).
Proof.
  cbv zeta.
  set (st := mkState (mkSensor 0 0 4 true 2 2 0 3 false 0)
                     (mkSensor 0 0 4 true 1 3 0 3 false 0)).
  assert (U : ubyte2_reading (TPS0 st)) by (repeat split; simpl; lia).
  assert (E : calibMin (TPS0 st) = calibMax (TPS0 st)) by reflexivity.
  assert (N : calibMin (TPS0 st) <> sensorValue (TPS0 st)) by (simpl; lia).
  assert (W : within_calibration (TPS1 st)) by (repeat split; simpl; lia).
  split; [exact U | ]. split; [exact E | ]. split; [exact N | ].
  split; [exact W | ].
  exact (proj2 (single_zero_span_is_caught st
                  (or_introl (conj U (conj E (conj N W)))))).
Defined.

(** ** Calibration, then evaluation *)

Lemma fold_min_ubyte2 (l : list Z) (init : Z) :
  is_ubyte2 init -> Forall is_ubyte2 l -> is_ubyte2 (fold_left Z.min l init).
Proof.
  revert init. induction l as [ | x l IH]; intros init Hi Hl; cbn [fold_left].
  - exact Hi.
  - inversion Hl; subst. apply IH; [ | assumption].
    unfold is_ubyte2 in *. lia.
Qed.

Lemma fold_max_ubyte2 (l : list Z) (init : Z) :
  is_ubyte2 init -> Forall is_ubyte2 l -> is_ubyte2 (fold_left Z.max l init).
Proof.
  revert init. induction l as [ | x l IH]; intros init Hi Hl; cbn [fold_left].
  - exact Hi.
  - inversion Hl; subst. apply IH; [ | assumption].
    unfold is_ubyte2 in *. lia.
Qed.

Lemma ubyte2_is_ubyte2 (n : Z) : is_ubyte2 (ubyte2 n).
Proof. unfold is_ubyte2, ubyte2. apply Z.mod_pos_bound. lia. Qed.

Lemma samples0_ubyte2 (body : list Tick) : Forall is_ubyte2 (samples0 body).
Proof.
  unfold samples0. apply Forall_forall. intros v Hin.
  apply in_map_iff in Hin. destruct Hin as (t & <- & _). apply ubyte2_is_ubyte2.
Qed.

Lemma samples1_ubyte2 (body : list Tick) : Forall is_ubyte2 (samples1 body).
Proof.
  unfold samples1. apply Forall_forall. intros v Hin.
  apply in_map_iff in Hin. destruct Hin as (t & <- & _). apply ubyte2_is_ubyte2.
Qed.

Lemma calibrateTPS_folds (secs : Z) (body rest : list Tick) (t_end : Tick)
  (st : State) :
  run_until (calibration_limit secs) body t_end ->
  exists st',
    calibrateTPS secs (body ++ t_end :: rest) st = Some st' /\
    calibMin (TPS0 st') = fold_left Z.min (samples0 body) (specMax (TPS0 st)) /\
    calibMax (TPS0 st') = fold_left Z.max (samples0 body) (specMin (TPS0 st)) /\
    calibMin (TPS1 st') = fold_left Z.min (samples1 body) (specMax (TPS1 st)) /\
    calibMax (TPS1 st') = fold_left Z.max (samples1 body) (specMin (TPS1 st)).
Proof.
  intros Hrun. eexists. split; [apply calibrateTPS_run; exact Hrun | ].
  cbn [commit_calibration TPS0 TPS1 set_isCalibrated calibMin calibMax].
  destruct (observed_TPS0 body (reset_calibration st)) as (A & B & _).
  destruct (observed_TPS1 body (reset_calibration st)) as (C & D & _).
  rewrite A, B, C, D. repeat split.
Qed.

(** X18. After a completed run, every sample the loop saw normalizes into
    [[0,1]] on its channel, provided each channel saw two different
    samples: deposited again, such a pair of samples lies within the
    committed ranges, and [GetThrottlePosition] returns a value in
    [[0,1]]. *)
Theorem seen_samples_normalize (secs : Z) (body rest : list Tick)
  (t_end t : Tick) (st : State) :
  run_until (calibration_limit secs) body t_end ->
  ubyte2_spec_bounds st ->
  In t body ->
  (exists u, In u body /\ ubyte2 (sample0 u) <> ubyte2 (sample0 t)) ->
  (exists u, In u body /\ ubyte2 (sample1 u) <> ubyte2 (sample1 t)) ->
  exists st',
    calibrateTPS secs (body ++ t_end :: rest) st = Some st' /\
    within_calibration (TPS0 (deposit t st')) /\
    within_calibration (TPS1 (deposit t st')) /\
    in_unit_interval (PedalPercent (TPS0 (deposit t st'))) /\
    in_unit_interval (PedalPercent (TPS1 (deposit t st'))) /\
    in_unit_interval (GetThrottlePosition (deposit t st')).
Proof.
  intros Hrun (B0 & B1 & B2 & B3) Hin (u0 & Hu0 & Hd0) (u1 & Hu1 & Hd1).
  destruct (calibrateTPS_folds secs body rest t_end st Hrun)
    as (st' & Hc & F0 & F1 & G0 & G1).
  assert (E0 : Forall (fun v => calibMin (TPS0 st') <= v <= calibMax (TPS0 st'))
                      (samples0 body)).
  { rewrite F0, F1. apply Forall_and_bounds;
      [apply fold_min_le | apply fold_max_ge]. }
  assert (E1 : Forall (fun v => calibMin (TPS1 st') <= v <= calibMax (TPS1 st'))
                      (samples1 body)).
  { rewrite G0, G1. apply Forall_and_bounds;
      [apply fold_min_le | apply fold_max_ge]. }
  exists st'. split; [exact Hc | ].
  assert (W0 : within_calibration (TPS0 (deposit t st'))).
  { unfold within_calibration, ubyte2_reading.
    cbn [deposit TPS0 set_sensorValue sensorValue calibMin calibMax].
    rewrite Forall_forall in E0.
    pose proof (E0 _ (in_map (fun x => ubyte2 (sample0 x)) _ _ Hin)) as Ht.
    pose proof (E0 _ (in_map (fun x => ubyte2 (sample0 x)) _ _ Hu0)) as Hu.
    cbv beta in Ht, Hu.
    split; [ | split; [lia | exact Ht]].
    split; [apply ubyte2_is_ubyte2 | ].
    rewrite F0, F1. split;
      [apply fold_min_ubyte2 | apply fold_max_ubyte2];
      try assumption; apply samples0_ubyte2. }
  assert (W1 : within_calibration (TPS1 (deposit t st'))).
  { unfold within_calibration, ubyte2_reading.
    cbn [deposit TPS1 set_sensorValue sensorValue calibMin calibMax].
    rewrite Forall_forall in E1.
    pose proof (E1 _ (in_map (fun x => ubyte2 (sample1 x)) _ _ Hin)) as Ht.
    pose proof (E1 _ (in_map (fun x => ubyte2 (sample1 x)) _ _ Hu1)) as Hu.
    cbv beta in Ht, Hu.
    split; [ | split; [lia | exact Ht]].
    split; [apply ubyte2_is_ubyte2 | ].
    rewrite G0, G1. split;
      [apply fold_min_ubyte2 | apply fold_max_ubyte2];
      try assumption; apply samples1_ubyte2. }
  split; [exact W0 | ]. split; [exact W1 | ].
  destruct (PedalPercent_unit _ W0) as [_ I0].
  destruct (PedalPercent_unit _ W1) as [_ I1].
  split; [exact I0 | ]. split; [exact I1 | ].
  apply GetThrottlePosition_unit; assumption.
Qed.

(** ** Invariants of the runtime states *)

Lemma ubyte2_nonneg (n : Z) : 0 <= ubyte2 n < 2 ^ 16.
Proof. unfold ubyte2. apply Z.mod_pos_bound. lia. Qed.

Lemma observe_calibrating (st : State) (t : Tick) :
  calibrating st -> calibrating (observe st t).
Proof.
  intros (A & B & C & D & E & F).
  destruct (observe_TPS0 st t) as (A0 & B0 & _).
  destruct (observe_TPS1 st t) as (A1 & B1 & _).
  pose proof (ubyte2_nonneg (sample0 t)).
  pose proof (ubyte2_nonneg (sample1 t)).
  unfold calibrating. rewrite A0, B0, A1, B1.
  repeat split; try lia.
  - unfold observe, record_minmax, record_sensor, deposit.
    cbn [TPS0]. repeat match goal with |- context [if ?c then _ else _] =>
      destruct c end; cbn; assumption.
  - unfold observe, record_minmax, record_sensor, deposit.
    cbn [TPS1]. repeat match goal with |- context [if ?c then _ else _] =>
      destruct c end; cbn; assumption.
Qed.

Lemma calibration_loop_calibrating (limit : Z) (ticks : list Tick) (st st' : State) :
  calibrating st -> calibration_loop limit ticks st = Some st' -> calibrating st'.
Proof.
  revert st. induction ticks as [ | t ticks IH]; intros st K H;
    cbn [calibration_loop] in H.
  - discriminate.
  - destruct (ubyte4 (elapsed_us t) <? limit).
    + apply (IH _ (observe_calibrating st t K) H).
    + inversion H; subst. exact K.
Qed.

(** X10. In every state the program reaches, the two channels are calibrated
    together or not at all, the calibrated range of TPS1 starts at 0, and
    once calibrated it reaches 4 at least: the calibrated range of TPS1
    never degenerates, and that of TPS0 never starts above 4. *)
Theorem reachable_calibration_ranges (st : State) :
  reachable st ->
  isCalibrated (TPS0 st) = isCalibrated (TPS1 st) /\
  calibMin (TPS1 st) = 0 /\
  0 <= calibMin (TPS0 st) <= 4 /\ 0 <= calibMax (TPS0 st) /\
  (isCalibrated (TPS1 st) = true ->
   4 <= calibMax (TPS1 st) /\ calibMin (TPS1 st) < calibMax (TPS1 st)).
Proof.
  induction 1 as [ | t st Hst IH | secs ticks st st' Hst IH Hcal].
  - vm_compute. repeat split; discriminate.
  - exact IH.
  - destruct (reachable_spec_bounds st Hst) as (S0 & S1 & S2 & S3).
    destruct Sensor_TPS0_spec as [T0 T1]. destruct Sensor_TPS1_spec as [T2 T3].
    unfold calibrateTPS in Hcal.
    destruct (calibration_loop (calibration_limit secs) ticks (reset_calibration st))
      as [st1 | ] eqn:Hloop; [ | discriminate].
    inversion Hcal; subst st'. clear Hcal.
    assert (K : calibrating (reset_calibration st)).
    { unfold calibrating.
      cbn [reset_calibration TPS0 TPS1 reset_sensor set_isCalibrated set_calibMax
           set_calibMin calibMin calibMax isCalibrated].
      rewrite S0, S1, S2, S3, T0, T1, T2, T3. repeat split; lia. }
    destruct (calibration_loop_calibrating _ _ _ _ K Hloop) as (A & B & C & D & _).
    cbn [commit_calibration TPS0 TPS1 set_isCalibrated calibMin calibMax isCalibrated].
    repeat split; try lia.
Qed.

Lemma reachable_calibration_ranges_witness :
  (let st' := commit_calibration
                (fold_left observe sweep_body (reset_calibration startup)) in
   reachable st' /\ isCalibrated (TPS1 st') = true /\
   calibMin (TPS1 st') = 0 /\ 4 <= calibMax (TPS1 st')).
Proof.
  cbv zeta.
  set (st' := commit_calibration
                (fold_left observe sweep_body (reset_calibration startup))).
  assert (Hc : calibrateTPS 1 (sweep_body ++ [sweep_end]) startup = Some st')
    by (vm_compute; reflexivity).
  assert (R : reachable st') by (exact (reach_calibrate _ _ _ _ reach_startup Hc)).
  assert (Ht : isCalibrated (TPS1 st') = true) by reflexivity.
  split; [exact R | ]. split; [exact Ht | ].
  destruct (reachable_calibration_ranges st' R) as (_ & Hmin & _ & _ & Hcal).
  split; [exact Hmin | exact (proj1 (Hcal Ht))].
Defined.

(** ** The sweep, calibrated and evaluated *)

Lemma seen_samples_normalize_witness :
  exists st',
    calibrateTPS 1 (sweep_body ++ sweep_end :: []) startup = Some st' /\
    in_unit_interval (GetThrottlePosition (deposit (mkTick 200000 1 3) st')).
Proof.
  assert (B : ubyte2_spec_bounds startup)
    by (vm_compute; repeat split; discriminate || reflexivity).
  assert (I : In (mkTick 200000 1 3) sweep_body) by (vm_compute; tauto).
  assert (D0 : exists u, In u sweep_body /\
                 ubyte2 (sample0 u) <> ubyte2 (sample0 (mkTick 200000 1 3))).
  { exists (mkTick 0 0 4). split; [vm_compute; tauto | vm_compute; discriminate]. }
  assert (D1 : exists u, In u sweep_body /\
                 ubyte2 (sample1 u) <> ubyte2 (sample1 (mkTick 200000 1 3))).
  { exists (mkTick 0 0 4). split; [vm_compute; tauto | vm_compute; discriminate]. }
  destruct (seen_samples_normalize 1 sweep_body [] sweep_end (mkTick 200000 1 3)
              startup sweep_run B I D0 D1) as (st' & Hc & _ & _ & _ & _ & Hu).
  exists st'. split; assumption.
Defined.

(** ** Wheel speed *)

Lemma SFopp_round (prec emax : Z) (s : bool) (m e : Z) (l : location) :
  binary_round_aux prec emax (negb s) m e l
  = SFopp (binary_round_aux prec emax s m e l).
Proof.
  unfold binary_round_aux.
  destruct (shr_fexp prec emax m e l) as [mrs e'].
  destruct (shr_fexp prec emax _ e' loc_Exact) as [mrs' e''].
  destruct (shr_m mrs'); try reflexivity.
  destruct (e'' <=? emax - prec); reflexivity.
Qed.

Lemma xorb_negb_l (a b : bool) : xorb (negb a) b = negb (xorb a b).
Proof. destruct a, b; reflexivity. Qed.

Lemma xorb_negb_r (a b : bool) : xorb a (negb b) = negb (xorb a b).
Proof. destruct a, b; reflexivity. Qed.

Lemma mul_opp_l (x y : spec_float) :
  F64.mul (SFopp x) y = SFopp (F64.mul x y).
Proof.
  unfold F64.mul.
  destruct x as [sx | sx | | sx mx ex]; destruct y as [sy | sy | | sy my ey];
    cbn [SFopp SFmul]; try reflexivity; try (rewrite xorb_negb_l; reflexivity).
  rewrite xorb_negb_l. apply SFopp_round.
Qed.

Lemma mul_opp_r (x y : spec_float) :
  F64.mul x (SFopp y) = SFopp (F64.mul x y).
Proof.
  unfold F64.mul.
  destruct x as [sx | sx | | sx mx ex]; destruct y as [sy | sy | | sy my ey];
    cbn [SFopp SFmul]; try reflexivity; try (rewrite xorb_negb_r; reflexivity).
  rewrite xorb_negb_r. apply SFopp_round.
Qed.

Lemma div_opp_l (x y : spec_float) :
  F64.div (SFopp x) y = SFopp (F64.div x y).
Proof.
  unfold F64.div.
  destruct x as [sx | sx | | sx mx ex]; destruct y as [sy | sy | | sy my ey];
    cbn [SFopp SFdiv]; try reflexivity; try (rewrite xorb_negb_l; reflexivity).
  destruct (SFdiv_core_binary F64.prec F64.emax (Z.pos mx) ex (Z.pos my) ey)
    as [[m e] l].
  rewrite xorb_negb_l. apply SFopp_round.
Qed.

(** X20. Both conversions are odd functions: a frequency or a rotation rate
    of the opposite sign gives the opposite result, and neither
    conversion clamps or takes an absolute value. *)
Theorem wheel_speed_conversions_odd (x : spec_float) :
  freq_to_rpm (SFopp x) = SFopp (freq_to_rpm x) /\
  rpm_to_mph (SFopp x) = SFopp (rpm_to_mph x).
Proof.
  unfold freq_to_rpm, rpm_to_mph. split.
  - rewrite div_opp_l, mul_opp_l. reflexivity.
  - rewrite mul_opp_r, mul_opp_l, div_opp_l. reflexivity.
Qed.

(** *** binary64 operations that need no rounding *)

Lemma fexp64_normal (e : Z) : -1021 <= e -> fexp 53 1024 e = e - 53.
Proof. intros H. unfold fexp, emin. lia. Qed.

Lemma shr_fexp_exact64 (M e k : Z) :
  2 ^ 52 <= M < 2 ^ 53 -> 0 <= k -> -1074 <= e + k ->
  shr_fexp 53 1024 (M * 2 ^ k) e loc_Exact = (exact_record M, e + k).
Proof.
  intros HM Hk He. unfold shr_fexp.
  assert (HM0 : 0 < M) by lia.
  assert (Hp : 0 < M * 2 ^ k) by (apply Z.mul_pos_pos; [lia | apply Z.pow_pos_nonneg; lia]).
  rewrite Zdigits2_pos by exact Hp.
  rewrite dig_mul_pow2 by lia.
  rewrite (dig_unique M 53) by lia.
  rewrite fexp64_normal by lia.
  replace (53 + k + e - 53 - e) with k by lia.
  apply shr_exact; lia.
Qed.

Lemma binary_round_aux_exact64 (s : bool) (M e k : Z) :
  2 ^ 52 <= M < 2 ^ 53 -> 0 <= k -> -1074 <= e + k <= 971 ->
  binary_round_aux 53 1024 s (M * 2 ^ k) e loc_Exact
  = S754_finite s (Z.to_pos M) (e + k).
Proof.
  intros HM Hk He. unfold binary_round_aux.
  rewrite shr_fexp_exact64 by lia.
  cbn [exact_record shr_m loc_of_shr_record round_nearest_even].
  replace M with (M * 2 ^ 0) at 1 by (rewrite Z.pow_0_r; lia).
  rewrite shr_fexp_exact64 by lia.
  cbn [exact_record shr_m]. rewrite Z.add_0_r.
  destruct M as [ | p | p]; try lia.
  replace (e + k <=? 1024 - 53) with true by (symmetry; apply Z.leb_le; lia).
  reflexivity.
Qed.

Lemma canon64_mantissa (n : Z) :
  0 < n < 2 ^ 53 -> 2 ^ 52 <= n * 2 ^ (53 - dig n) < 2 ^ 53.
Proof.
  intros Hn.
  pose proof (dig_bounds n ltac:(lia)) as Hb.
  pose proof (dig_pos n ltac:(lia)) as Hd.
  assert (Hle : dig n <= 53) by (apply dig_le_of_lt_pow2; lia).
  assert (H53 : 2 ^ 53 = 2 ^ dig n * 2 ^ (53 - dig n))
    by (rewrite <- Z.pow_add_r by lia; f_equal; lia).
  assert (H52 : 2 ^ 52 = 2 ^ (dig n - 1) * 2 ^ (53 - dig n))
    by (rewrite <- Z.pow_add_r by lia; f_equal; lia).
  assert (Hp : 0 < 2 ^ (53 - dig n)) by (apply Z.pow_pos_nonneg; lia).
  rewrite H53, H52. split.
  - apply Z.mul_le_mono_nonneg_r; lia.
  - apply Z.mul_lt_mono_pos_r; lia.
Qed.

(** A product [n * 2 ^ j] with [n] of at most 53 bits rounds to [n]
    times the power of two. *)
Lemma binary_round_aux_canon64 (s : bool) (n j e : Z) :
  0 < n < 2 ^ 53 -> 53 - dig n <= j -> -1000 <= e -> e + j <= 900 ->
  binary_round_aux 53 1024 s (n * 2 ^ j) e loc_Exact
  = S754_finite s (Z.to_pos (n * 2 ^ (53 - dig n))) (e + j - (53 - dig n)).
Proof.
  intros Hn Hj He Hj'.
  pose proof (dig_pos n ltac:(lia)) as Hd.
  assert (Hle : dig n <= 53) by (apply dig_le_of_lt_pow2; lia).
  pose proof (canon64_mantissa n Hn) as HM.
  replace (n * 2 ^ j) with (n * 2 ^ (53 - dig n) * 2 ^ (j - (53 - dig n)))
    by (rewrite <- Z.mul_assoc, <- Z.pow_add_r by lia; do 2 f_equal; lia).
  rewrite binary_round_aux_exact64 by lia. f_equal. lia.
Qed.

Lemma of_Z_canon64 (n : Z) : 0 < n < 2 ^ 53 -> F64.of_Z n = canon64 false n.
Proof.
  intros Hn.
  pose proof (dig_pos n ltac:(lia)) as Hd.
  assert (Hle : dig n <= 53) by (apply dig_le_of_lt_pow2; lia).
  pose proof (canon64_mantissa n Hn) as HM.
  unfold F64.of_Z, F64.prec, F64.emax.
  destruct n as [ | p | p]; try lia.
  cbn [binary_normalize]. unfold binary_round.
  rewrite digits2_pos_dig. rewrite fexp64_normal by lia.
  unfold shl_align.
  destruct (dig (Zpos p) + 0 - 53 - 0) as [ | d | d] eqn:Hs.
  - replace (Zpos p) with (Zpos p * 2 ^ 0) at 1 by (rewrite Z.pow_0_r; lia).
    rewrite binary_round_aux_canon64 by lia.
    unfold canon64. f_equal. lia.
  - lia.
  - rewrite pos_iter_xO.
    rewrite binary_round_aux_canon64 by lia.
    unfold canon64. f_equal. lia.
Qed.

Lemma NUM_BUMPS_D_value :
  NUM_BUMPS_D = S754_finite false (Z.to_pos (2 ^ 52)) (-48).
Proof. vm_compute. reflexivity. Qed.

Lemma sixty_value :
  F64.of_Z 60 = S754_finite false (Z.to_pos (15 * 2 ^ 49)) (-47).
Proof. vm_compute. reflexivity. Qed.

(** Dividing a normal double by 16 lowers its exponent by 4. *)
Lemma div_NUM_BUMPS (s : bool) (m : positive) (e : Z) :
  2 ^ 52 <= Zpos m < 2 ^ 53 -> -900 <= e <= 900 ->
  F64.div (S754_finite s m e) NUM_BUMPS_D = S754_finite s m (e - 4).
Proof.
  intros Hm He. rewrite NUM_BUMPS_D_value.
  unfold F64.div, F64.prec, F64.emax.
  cbn [SFdiv]. unfold SFdiv_core_binary.
  rewrite !Zdigits2_pos by lia.
  rewrite (dig_unique (Zpos m) 53) by lia.
  rewrite (dig_unique (Zpos (Z.to_pos (2 ^ 52))) 53)
    by first [lia | vm_compute; split; [discriminate | reflexivity]].
  rewrite fexp64_normal by lia.
  replace (Z.min (53 + e - (53 + -48) - 53) (e - -48)) with (e - 5) by lia.
  replace (e - -48 - (e - 5)) with 53 by lia.
  rewrite Z.shiftl_mul_pow2 by lia.
  change (Zpos (Z.to_pos (2 ^ 52))) with (2 ^ 52).
  assert (Hdiv : Z.div_eucl (Zpos m * 2 ^ 53) (2 ^ 52) = (Zpos m * 2 ^ 1, 0)).
  { pose proof (Z.div_eucl_eq (Zpos m * 2 ^ 53) (2 ^ 52) ltac:(lia)) as E.
    pose proof (Z.mod_pos_bound (Zpos m * 2 ^ 53) (2 ^ 52) ltac:(lia)) as B.
    unfold Z.modulo in B.
    destruct (Z.div_eucl (Zpos m * 2 ^ 53) (2 ^ 52)) as [q r].
    assert (r = 0) by lia. subst r. f_equal. lia. }
  rewrite Hdiv.
  change (new_location (2 ^ 52) 0) with loc_Exact.
  rewrite binary_round_aux_exact64 by lia.
  rewrite xorb_false_r, Pos2Z.id. f_equal. lia.
Qed.

Lemma scaled_value_canon64 (k n e : Z) :
  0 < n < 2 ^ 53 -> e + k = dig n - 53 ->
  scaled_value k (S754_finite false (Z.to_pos (n * 2 ^ (53 - dig n))) e) = Some n.
Proof.
  intros Hn He.
  pose proof (dig_pos n ltac:(lia)) as Hd.
  assert (Hle : dig n <= 53) by (apply dig_le_of_lt_pow2; lia).
  pose proof (canon64_mantissa n Hn) as HM.
  unfold scaled_value. rewrite Z2Pos.id by lia. rewrite He.
  assert (Hp : 0 < 2 ^ (53 - dig n)) by (apply Z.pow_pos_nonneg; lia).
  destruct (Z.leb_spec 0 (dig n - 53)) as [H0 | H0].
  - replace (dig n - 53) with 0 by lia. replace (53 - dig n) with 0 by lia.
    cbn [cond_Zopp]. rewrite Z.pow_0_r. f_equal. lia.
  - replace (- (dig n - 53)) with (53 - dig n) by lia.
    rewrite Z.mod_mul by lia. rewrite Z.eqb_refl.
    rewrite Z.div_mul by lia. reflexivity.
Qed.

(** X21. On a whole number of hertz [freq_to_rpm] is exact: the conversion of
    [n] to a double, the division by 16 and the multiplication by 60 all
    go without a rounding error up to [2 ^ 49] hertz, and four times the
    result is the integer [15 * n]. *)
Theorem freq_to_rpm_whole_hertz (n : Z) :
  0 <= n < 2 ^ 49 ->
  scaled_value 0 (F64.of_Z n) = Some n /\
  scaled_value 2 (freq_to_rpm (F64.of_Z n)) = Some (15 * n).
Proof.
  intros Hn. destruct (Z.eq_dec n 0) as [-> | Hnz]; [split; reflexivity | ].
  rewrite of_Z_canon64 by lia. unfold canon64.
  split; [apply scaled_value_canon64; lia | ].
  pose proof (canon64_mantissa n ltac:(lia)) as HM.
  pose proof (dig_pos n ltac:(lia)) as Hd.
  assert (Hle : dig n <= 49) by (apply dig_le_of_lt_pow2; lia).
  unfold freq_to_rpm.
  rewrite div_NUM_BUMPS by (rewrite ?Z2Pos.id by lia; lia).
  rewrite sixty_value. unfold F64.mul, F64.prec, F64.emax. cbn [SFmul].
  rewrite Pos2Z.inj_mul, !Z2Pos.id by lia.
  assert (H15 : 0 < 15 * n < 2 ^ 53) by lia.
  assert (Hd15 : dig n <= dig (15 * n)) by (apply dig_le; lia).
  assert (Hd15' : dig (15 * n) <= 53) by (apply dig_le_of_lt_pow2; lia).
  replace (n * 2 ^ (53 - dig n) * (15 * 2 ^ 49))
    with (15 * n * 2 ^ (53 - dig n + 49))
    by (rewrite (Z.pow_add_r 2 (53 - dig n) 49) by lia; lia).
  rewrite binary_round_aux_canon64 by lia.
  rewrite xorb_false_r.
  apply scaled_value_canon64; lia.
Qed.

Lemma freq_to_rpm_whole_hertz_witness :
  0 <= 500 < 2 ^ 49 /\
  scaled_value 2 (freq_to_rpm (F64.of_Z 500)) = Some (15 * 500).
Proof.
  assert (H : 0 <= 500 < 2 ^ 49) by lia.
  split; [exact H | ].
  exact (proj2 (freq_to_rpm_whole_hertz 500 H)).
Defined.

(** *** Ground speed *)

Lemma speeds_rise_spec (k : nat) (n : Z) :
  speeds_rise k n (ground_speed (n - 1)) = true ->
  forall i, n <= i < n + Z.of_nat k ->
    close_to 50 (i * mph_per_hertz_num) mph_per_hertz_den (ground_speed i) = true /\
    flt (ground_speed (i - 1)) (ground_speed i) = true.
Proof.
  revert n. induction k as [ | k IH]; intros n H i Hi; [lia | ].
  cbn [speeds_rise] in H. cbv zeta in H.
  apply andb_true_iff in H. destruct H as [H H3].
  apply andb_true_iff in H. destruct H as [H1 H2].
  destruct (Z.eq_dec i n) as [-> | Hne]; [split; assumption | ].
  apply (IH (n + 1)); [ | lia].
  replace (n + 1 - 1) with n by lia. exact H3.
Qed.

Lemma close_to_spec (bits num den : Z) (x : spec_float) :
  close_to bits num den x = true ->
  exists m e, x = S754_finite false m e /\ e < 0 /\
    2 ^ bits * Z.abs (Zpos m * den - num * 2 ^ (- e)) <= num * 2 ^ (- e).
Proof.
  destruct x as [ | | | [ | ] m e]; try discriminate.
  cbn [close_to]. intros H. apply andb_true_iff in H. destruct H as [H1 H2].
  exists m, e. split; [reflexivity | ]. split; [apply Z.ltb_lt | apply Z.leb_le];
    assumption.
Qed.

(** X22. For every whole pulse frequency from 1 to 4095 hertz, the ground
    speed computed by [freq_to_rpm] and then [rpm_to_mph] is a positive
    double within a relative distance of [2 ^ -50] of the value of the
    formula with the literal 3.14159265, and it is above the speed
    computed for one hertz less: the five roundings neither accumulate
    nor reorder neighbouring frequencies. *)
Theorem ground_speed_whole_hertz (n : Z) :
  0 < n < 2 ^ 12 ->
  (exists m e,
     rpm_to_mph (freq_to_rpm (F64.of_Z n)) = S754_finite false m e /\ e < 0 /\
     2 ^ 50 * Z.abs (Zpos m * mph_per_hertz_den - n * mph_per_hertz_num * 2 ^ (- e))
     <= n * mph_per_hertz_num * 2 ^ (- e)) /\
  flt (rpm_to_mph (freq_to_rpm (F64.of_Z (n - 1))))
      (rpm_to_mph (freq_to_rpm (F64.of_Z n))) = true.
Proof.
  intros Hn.
  assert (H : speeds_rise (Z.to_nat (2 ^ 12 - 1)) 1 (ground_speed (1 - 1)) = true)
    by (vm_compute; reflexivity).
  destruct (speeds_rise_spec _ _ H n) as [Hc Hr];
    [rewrite Z2Nat.id; lia | ].
  split; [exact (close_to_spec _ _ _ _ Hc) | exact Hr].
Qed.

Lemma ground_speed_whole_hertz_witness :
  0 < 500 < 2 ^ 12 /\
  flt (rpm_to_mph (freq_to_rpm (F64.of_Z (500 - 1))))
      (rpm_to_mph (freq_to_rpm (F64.of_Z 500))) = true.
Proof.
  assert (H : 0 < 500 < 2 ^ 12) by lia.
  split; [exact H | ].
  exact (proj2 (ground_speed_whole_hertz 500 H)).
Defined.

(** ** Rounding to 24 bits, in general *)

Lemma val_pack (s : bool) (E M : Z) :
  2 ^ 23 <= M <= 2 ^ 24 -> -70 <= E ->
  val (pack s E M) = cond_Zopp s (M * 2 ^ (E + 70)).
Proof.
  intros HM HE. unfold pack.
  destruct (Z.eqb_spec M (2 ^ 24)) as [-> | Hne]; cbn [val].
  - f_equal. change (Zpos (Z.to_pos (2 ^ 23))) with (2 ^ 23).
    replace (E + 1 + 70) with (E + 70 + 1) by lia.
    rewrite (Z.pow_add_r 2 (E + 70) 1) by lia. lia.
  - rewrite Z2Pos.id by lia. reflexivity.
Qed.

Lemma small_pack (s : bool) (E M : Z) :
  2 ^ 23 <= M <= 2 ^ 24 -> -70 <= E <= -1 -> small_float (pack s E M).
Proof.
  intros HM HE. right. unfold pack, normal.
  destruct (Z.eqb_spec M (2 ^ 24)).
  - exists s, (Z.to_pos (2 ^ 23)), (E + 1). split; [reflexivity | ].
    split; [vm_compute; split; [discriminate | reflexivity] | lia].
  - exists s, (Z.to_pos M), E. split; [reflexivity | ].
    rewrite Z2Pos.id by lia. lia.
Qed.

(** [binary_round] keeps 24 bits of the mantissa: the result is the
    mantissa scaled to 24 bits, rounded to nearest when bits are lost. *)
Lemma binary_round_pack (s : bool) (m : positive) (e : Z) :
  -47 <= e <= 0 -> dig (Zpos m) <= 80 ->
  exists M,
    binary_round 24 128 s m e = pack s (e + dig (Zpos m) - 24) M /\
    2 ^ 23 <= M <= 2 ^ 24 /\
    2 * Z.abs (M * 2 ^ (e + dig (Zpos m) - 24 + 70) - Zpos m * 2 ^ (e + 70))
    <= 2 ^ (e + dig (Zpos m) - 24 + 70).
Proof.
  intros He Hdig.
  pose proof (dig_pos (Zpos m) ltac:(lia)) as Hd.
  pose proof (dig_bounds (Zpos m) ltac:(lia)) as Hb.
  set (dm := dig (Zpos m)) in *.
  assert (P70 : 0 < 2 ^ (e + 70)) by (apply Z.pow_pos_nonneg; lia).
  unfold binary_round.
  rewrite digits2_pos_dig. fold dm. rewrite fexp32_normal by lia.
  unfold shl_align.
  destruct (dm + e - 24 - e) as [ | d | d] eqn:Hs.
  - (* 24 digits *)
    assert (dm = 24) by lia.
    exists (Zpos m).
    assert (HM : 2 ^ 23 <= Zpos m < 2 ^ 24)
      by (replace 23 with (dm - 1) by lia; replace 24 with dm by lia; exact Hb).
    replace (Zpos m) with (Zpos m * 2 ^ 0) at 1 by (rewrite Z.pow_0_r; lia).
    rewrite binary_round_aux_exact by lia.
    split.
    + unfold pack. destruct (Z.eqb_spec (Zpos m) (2 ^ 24)); [lia | ].
      rewrite Pos2Z.id. f_equal. lia.
    + split; [lia | ].
      replace (e + dm - 24 + 70) with (e + 70) by lia.
      rewrite Z.sub_diag. cbn [Z.abs]. lia.
  - (* more: the low bits are rounded away *)
    assert (Hn : 0 < dm - 24) by lia.
    assert (HS : 2 ^ (23 + (dm - 24)) <= Zpos m < 2 ^ (24 + (dm - 24))).
    { replace (23 + (dm - 24)) with (dm - 1) by lia.
      replace (24 + (dm - 24)) with dm by lia. exact Hb. }
    rewrite (binary_round_aux_shift s (Zpos m) e (dm - 24)) by lia.
    assert (Pn : 0 < 2 ^ (dm - 24)) by (apply Z.pow_pos_nonneg; lia).
    exists (rne_div (Zpos m) (2 ^ (dm - 24))).
    split; [f_equal; lia | ].
    split.
    { apply rne_div_normal; [assumption | ].
      rewrite <- !Z.pow_add_r by lia. exact HS. }
    pose proof (rne_div_error (Zpos m) (2 ^ (dm - 24)) Pn) as Err.
    replace (e + dm - 24 + 70) with ((dm - 24) + (e + 70)) by lia.
    rewrite (Z.pow_add_r 2 (dm - 24) (e + 70)) by lia.
    set (M := rne_div (Zpos m) (2 ^ (dm - 24))) in *.
    set (Q := 2 ^ (dm - 24)) in *. set (R := 2 ^ (e + 70)) in *.
    replace (M * (Q * R) - Zpos m * R) with ((M * Q - Zpos m) * R) by lia.
    rewrite Z.abs_mul, (Z.abs_eq R) by lia.
    nia.
  - (* fewer: shift left *)
    assert (Hlt : dm < 24) by lia.
    assert (Hm24 : 0 < Zpos m < 2 ^ 24).
    { split; [lia | ].
      assert (2 ^ dm <= 2 ^ 24) by (apply pow2_le_mono; lia). lia. }
    pose proof (canon_mantissa (Zpos m) Hm24) as HM. fold dm in HM.
    rewrite pos_iter_xO.
    replace (Zpos d) with (24 - dm) by lia.
    pose proof (binary_round_aux_exact s (Zpos m * 2 ^ (24 - dm)) (dm + e - 24) 0
                  HM ltac:(lia) ltac:(lia)) as Hr.
    rewrite Z.pow_0_r, Z.mul_1_r, Z.add_0_r in Hr. rewrite Hr.
    exists (Zpos m * 2 ^ (24 - dm)).
    split.
    + unfold pack. destruct (Z.eqb_spec (Zpos m * 2 ^ (24 - dm)) (2 ^ 24)); [lia | ].
      f_equal. lia.
    + split; [lia | ].
      replace (e + 70) with ((24 - dm) + (e + dm - 24 + 70)) by lia.
      rewrite (Z.pow_add_r 2 (24 - dm)) by lia.
      replace (Zpos m * 2 ^ (24 - dm) * 2 ^ (e + dm - 24 + 70) -
               Zpos m * (2 ^ (24 - dm) * 2 ^ (e + dm - 24 + 70))) with 0 by lia.
      cbn [Z.abs].
      assert (0 < 2 ^ (e + dm - 24 + 70)) by (apply Z.pow_pos_nonneg; lia). lia.
Qed.

(** ** The fractions and their difference *)

Lemma fraction_value (a d : Z) :
  0 <= a <= d -> 0 < d < 2 ^ 16 ->
  fraction_float (F32.div (int_float a) (int_float d)) /\
  0 <= val (F32.div (int_float a) (int_float d)) <= 2 ^ 70 /\
  Z.abs (val (F32.div (int_float a) (int_float d)) * d - a * 2 ^ 70) <= d * 2 ^ 46.
Proof.
  intros Ha Hd. destruct (Z.eq_dec a 0) as [-> | Hnz].
  - assert (E : F32.div (int_float 0) (int_float d) = S754_zero false)
      by (destruct d; try lia; reflexivity).
    rewrite E. cbn [val]. split; [left; reflexivity | ]. split; [lia | ].
    rewrite Z.mul_0_l, Z.sub_diag. cbn [Z.abs]. lia.
  - destruct (div_int_rounded a d ltac:(lia) ltac:(lia)) as (K & HK & B & Q).
    rewrite Q.
    assert (PK : 0 < 2 ^ K) by (apply Z.pow_pos_nonneg; lia).
    assert (HK23 : 23 <= K).
    { destruct (Z.le_gt_cases 23 K) as [ | Hgt]; [assumption | exfalso].
      pose proof (pow2_le_mono K 22 ltac:(lia)). nia. }
    assert (HK39 : K <= 39).
    { destruct (Z.le_gt_cases K 39) as [ | Hgt]; [assumption | exfalso].
      pose proof (pow2_le_mono 40 K ltac:(lia)). nia. }
    pose proof (rne_div_normal (a * 2 ^ K) d ltac:(lia) B) as HM.
    pose proof (rne_div_error (a * 2 ^ K) d ltac:(lia)) as Err.
    assert (HMK : rne_div (a * 2 ^ K) d <= 2 ^ K).
    { rewrite <- (rne_div_exact (2 ^ K) d) at 2 by lia.
      apply rne_div_mono; [lia | nia]. }
    set (M := rne_div (a * 2 ^ K) d) in *.
    assert (P : 0 < 2 ^ (70 - K)) by (apply Z.pow_pos_nonneg; lia).
    assert (P47 : 2 ^ (70 - K) <= 2 ^ 47) by (apply pow2_le_mono; lia).
    assert (P70 : 2 ^ 70 = 2 ^ K * 2 ^ (70 - K))
      by (rewrite <- Z.pow_add_r by lia; f_equal; lia).
    split; [ | split].
    + right. unfold pack, normal.
      destruct (Z.eqb_spec M (2 ^ 24)) as [E24 | N24].
      * exists (Z.to_pos (2 ^ 23)), (- K + 1). split; [reflexivity | ].
        split; [vm_compute; split; [discriminate | reflexivity] | ].
        assert (24 <= K).
        { destruct (Z.le_gt_cases 24 K) as [ | Hgt]; [assumption | exfalso].
          pose proof (pow2_le_mono K 23 ltac:(lia)). lia. }
        lia.
      * exists (Z.to_pos M), (- K). split; [reflexivity | ].
        rewrite Z2Pos.id by lia. lia.
    + rewrite val_pack by lia. cbn [cond_Zopp].
      replace (- K + 70) with (70 - K) by lia. rewrite P70. nia.
    + rewrite val_pack by lia. cbn [cond_Zopp].
      replace (- K + 70) with (70 - K) by lia. rewrite P70.
      replace (M * 2 ^ (70 - K) * d - a * (2 ^ K * 2 ^ (70 - K)))
        with ((M * d - a * 2 ^ K) * 2 ^ (70 - K)) by lia.
      rewrite Z.abs_mul, (Z.abs_eq (2 ^ (70 - K))) by lia.
      change (2 ^ 46) with (2 ^ 47 / 2) in *. 
      set (A := Z.abs (M * d - a * 2 ^ K)) in *.
      assert (0 <= A) by (unfold A; apply Z.abs_nonneg).
      change (2 ^ 47 / 2) with (2 ^ 46).
      assert (2 * (A * 2 ^ (70 - K)) <= d * 2 ^ 47) by nia.
      lia.
Qed.

Lemma val_fraction (m : positive) (e E : Z) :
  -70 <= E -> E <= e ->
  Zpos m * 2 ^ (e + 70) = Zpos m * 2 ^ (e - E) * 2 ^ (E + 70).
Proof.
  intros H1 H2. rewrite <- Z.mul_assoc, <- Z.pow_add_r by lia.
  do 2 f_equal. lia.
Qed.

(** The difference of two fractions is a small number within [2 ^ -24]
    of the difference of their values. *)
Lemma sub_value (x y : spec_float) :
  fraction_float x -> fraction_float y ->
  0 <= val x <= 2 ^ 70 -> 0 <= val y <= 2 ^ 70 ->
  small_float (F32.sub x y) /\
  Z.abs (val (F32.sub x y) - (val x - val y)) <= 2 ^ 46.
Proof.
  intros [-> | (mx & ex & -> & Nx & Hex)] [-> | (my & ey & -> & Ny & Hey)] Vx Vy.
  - split; [left; exists false; reflexivity | ]. cbn. lia.
  - unfold F32.sub. cbn [SFsub negb]. split.
    + right. exists true, my, ey. split; [reflexivity | ]. split; [assumption | lia].
    + cbn [val cond_Zopp].
      replace (- (Zpos my * 2 ^ (ey + 70)) - (0 - Zpos my * 2 ^ (ey + 70))) with 0 by lia.
      cbn. lia.
  - unfold F32.sub. cbn [SFsub]. split.
    + right. exists false, mx, ex. split; [reflexivity | ]. split; [assumption | lia].
    + cbn [val cond_Zopp]. rewrite Z.sub_0_r, Z.sub_diag. cbn. lia.
  - unfold F32.sub, F32.prec, F32.emax. cbn [SFsub cond_Zopp].
    set (ez := Z.min ex ey).
    rewrite !shl_align_fst by (unfold ez; lia).
    cbn [val cond_Zopp] in *.
    rewrite (val_fraction mx ex ez) in * by (unfold ez; lia).
    rewrite (val_fraction my ey ez) in * by (unfold ez; lia).
    set (X := Zpos mx * 2 ^ (ex - ez)) in *.
    set (Y := Zpos my * 2 ^ (ey - ez)) in *.
    assert (P : 0 < 2 ^ (ez + 70)) by (apply Z.pow_pos_nonneg; unfold ez; lia).
    assert (Hez : -40 <= ez <= -23) by (unfold ez; lia).
    assert (P70 : 2 ^ 70 = 2 ^ (- ez) * 2 ^ (ez + 70))
      by (rewrite <- Z.pow_add_r by lia; f_equal; lia).
    assert (Pz : 0 < 2 ^ (- ez)) by (apply Z.pow_pos_nonneg; lia).
    assert (HX : 0 <= X <= 2 ^ (- ez)) by nia.
    assert (HY : 0 <= Y <= 2 ^ (- ez)) by nia.
    replace (X * 2 ^ (ez + 70) - Y * 2 ^ (ez + 70)) with ((X - Y) * 2 ^ (ez + 70))
      by lia.
    assert (rounded : forall (s : bool) (p : positive),
              Zpos p <= 2 ^ (- ez) ->
              small_float (binary_round 24 128 s p ez) /\
              Z.abs (val (binary_round 24 128 s p ez)
                     - cond_Zopp s (Zpos p * 2 ^ (ez + 70))) <= 2 ^ 46).
    { intros s p Hp.
      pose proof (dig_pos (Zpos p) ltac:(lia)) as Hd.
      assert (Hdig : dig (Zpos p) <= - ez + 1).
      { apply dig_le_of_lt_pow2; try lia.
        rewrite (Z.pow_add_r 2 (- ez) 1) by lia. lia. }
      destruct (binary_round_pack s p ez ltac:(lia) ltac:(lia)) as (M & HR & HM & Err).
      rewrite HR.
      split; [apply small_pack; lia | ].
      rewrite val_pack by lia.
      assert (P47 : 2 ^ (ez + dig (Zpos p) - 24 + 70) <= 2 ^ 47)
        by (apply pow2_le_mono; lia).
      destruct s; cbn [cond_Zopp].
      - replace (- (M * 2 ^ (ez + dig (Zpos p) - 24 + 70)) - - (Zpos p * 2 ^ (ez + 70)))
          with (- (M * 2 ^ (ez + dig (Zpos p) - 24 + 70) - Zpos p * 2 ^ (ez + 70)))
          by lia.
        rewrite Z.abs_opp. lia.
      - lia. }
    destruct (X - Y) as [ | p | p] eqn:HD; cbn [binary_normalize].
    + split; [left; exists false; reflexivity | ]. cbn. lia.
    + destruct (rounded false p ltac:(lia)) as [Hs He].
      split; [exact Hs | ]. cbn [cond_Zopp] in He. exact He.
    + destruct (rounded true p ltac:(lia)) as [Hs He].
      split; [exact Hs | ]. cbn [cond_Zopp] in He.
      replace (Z.neg p * 2 ^ (ez + 70)) with (- (Zpos p * 2 ^ (ez + 70))) by lia.
      exact He.
Qed.

(** ** The comparison with the tolerance *)

Lemma ltb_normal53 (c : Z) (m1 m2 : positive) (e1 e2 : Z) :
  2 ^ 52 <= Zpos m1 < 2 ^ 53 -> 2 ^ 52 <= Zpos m2 < 2 ^ 53 ->
  0 <= e1 + c -> 0 <= e2 + c ->
  SFltb (S754_finite false m1 e1) (S754_finite false m2 e2)
  = (Zpos m1 * 2 ^ (e1 + c) <? Zpos m2 * 2 ^ (e2 + c)).
Proof.
  intros N1 N2 H1 H2. unfold SFltb. cbn [SFcompare].
  assert (Q1 : 0 < 2 ^ (e1 + c)) by (apply Z.pow_pos_nonneg; lia).
  assert (Q2 : 0 < 2 ^ (e2 + c)) by (apply Z.pow_pos_nonneg; lia).
  destruct (Z.compare_spec e1 e2) as [Heq | Hlt | Hgt].
  - subst e2.
    change (Pos.compare_cont Eq m1 m2) with (Pos.compare m1 m2).
    destruct (Pos.compare_spec m1 m2); symmetry;
      first [apply Z.ltb_lt | apply Z.ltb_ge]; subst; nia.
  - symmetry. apply Z.ltb_lt.
    assert (2 * 2 ^ (e1 + c) <= 2 ^ (e2 + c)).
    { replace (2 * 2 ^ (e1 + c)) with (2 ^ (e1 + c + 1))
        by (rewrite Z.pow_add_r by lia; lia).
      apply pow2_le_mono; lia. }
    nia.
  - symmetry. apply Z.ltb_ge.
    assert (2 * 2 ^ (e2 + c) <= 2 ^ (e1 + c)).
    { replace (2 * 2 ^ (e2 + c)) with (2 ^ (e2 + c + 1))
        by (rewrite Z.pow_add_r by lia; lia).
      apply pow2_le_mono; lia. }
    nia.
Qed.

(** Widening a normal [float4] to [double] appends 29 zero bits. *)
Lemma widen_normal (m : positive) (e : Z) :
  normal m -> -900 <= e <= 900 ->
  binary_round 53 1024 false m e
  = S754_finite false (Z.to_pos (Zpos m * 2 ^ 29)) (e - 29).
Proof.
  unfold normal. intros Hm He. unfold binary_round.
  rewrite digits2_pos_dig, (dig_unique (Zpos m) 24) by lia.
  rewrite fexp64_normal by lia.
  unfold shl_align.
  destruct (24 + e - 53 - e) as [ | d | d] eqn:Hs; try lia.
  rewrite pos_iter_xO. replace (Zpos d) with 29 by lia.
  assert (HM : 2 ^ 52 <= Zpos m * 2 ^ 29 < 2 ^ 53) by lia.
  pose proof (binary_round_aux_exact64 false (Zpos m * 2 ^ 29) (24 + e - 53) 0
                HM ltac:(lia) ltac:(lia)) as Hr.
  rewrite Z.pow_0_r, Z.mul_1_r, Z.add_0_r in Hr. rewrite Hr.
  f_equal. lia.
Qed.

(** The test [fabs(x) > .1] on a small [float4]: it compares the value
    with the double nearest to one tenth. *)
Lemma exceeds_tolerance (r : spec_float) :
  small_float r ->
  fgt (SFabs (F64.of_float4 r)) tolerance
  = (7205759403792794 * 2 ^ 14 <? Z.abs (val r)).
Proof.
  intros [[s ->] | (s & m & e & -> & Nm & He)].
  - destruct s; reflexivity.
  - assert (Ha : SFabs (F64.of_float4 (S754_finite s m e))
                 = S754_finite false (Z.to_pos (Zpos m * 2 ^ 29)) (e - 29)).
    { unfold F64.of_float4, F64.prec, F64.emax.
      destruct s; cbn [cond_Zopp Z.opp binary_normalize].
      - rewrite binary_round_abs, (widen_normal m e Nm ltac:(lia)). reflexivity.
      - rewrite (widen_normal m e Nm ltac:(lia)). reflexivity. }
    rewrite Ha, tolerance_value. unfold fgt. unfold normal in Nm.
    rewrite (ltb_normal53 99);
      try (rewrite Z2Pos.id by lia; lia);
      try (vm_compute; split; [discriminate | reflexivity]); try lia.
    rewrite Z2Pos.id by lia.
    assert (P : 0 < 2 ^ (e + 70)) by (apply Z.pow_pos_nonneg; lia).
    assert (Hv : Z.abs (val (S754_finite s m e)) = Zpos m * 2 ^ (e + 70)).
    { cbn [val]. destruct s; cbn [cond_Zopp]; lia. }
    rewrite Hv.
    replace (e - 29 + 99) with (e + 70) by lia.
    change (-56 + 99) with 43.
    destruct (Z.ltb_spec (7205759403792794 * 2 ^ 14) (Zpos m * 2 ^ (e + 70)));
      [apply Z.ltb_lt | apply Z.ltb_ge]; lia.
Qed.

(** ** The 10 % rule *)

Lemma fractions_differ (X1 X0 R a1 d1 a0 d0 : Z) :
  0 < d0 -> 0 < d1 ->
  Z.abs (X1 * d1 - a1 * 2 ^ 70) <= d1 * 2 ^ 46 ->
  Z.abs (X0 * d0 - a0 * 2 ^ 70) <= d0 * 2 ^ 46 ->
  Z.abs (R - (X1 - X0)) <= 2 ^ 46 ->
  (100001 * (d0 * d1) <= 1000000 * Z.abs (a1 * d0 - a0 * d1) ->
   7205759403792794 * 2 ^ 14 < Z.abs R) /\
  (1000000 * Z.abs (a1 * d0 - a0 * d1) <= 99999 * (d0 * d1) ->
   Z.abs R <= 7205759403792794 * 2 ^ 14).
Proof.
  intros Hd0 Hd1 E1 E0 ER.
  set (W := d0 * d1). assert (HW : 0 < W) by (unfold W; nia).
  set (A := a1 * d0 - a0 * d1).
  set (U := X1 - X0) in *.
  assert (HV : Z.abs (U * W - 2 ^ 70 * A) <= 2 ^ 47 * W).
  { replace (U * W - 2 ^ 70 * A)
      with ((X1 * d1 - a1 * 2 ^ 70) * d0 - (X0 * d0 - a0 * 2 ^ 70) * d1)
      by (unfold U, W, A; ring).
    set (F1 := X1 * d1 - a1 * 2 ^ 70) in *.
    set (F0 := X0 * d0 - a0 * 2 ^ 70) in *.
    assert (B1 : Z.abs (F1 * d0) <= d1 * 2 ^ 46 * d0)
      by (rewrite Z.abs_mul, (Z.abs_eq d0) by lia;
          apply Z.mul_le_mono_nonneg_r; lia).
    assert (B0 : Z.abs (F0 * d1) <= d0 * 2 ^ 46 * d1)
      by (rewrite Z.abs_mul, (Z.abs_eq d1) by lia;
          apply Z.mul_le_mono_nonneg_r; lia).
    unfold W. lia. }
  assert (HUW : Z.abs (U * W) = Z.abs U * W)
    by (rewrite Z.abs_mul, (Z.abs_eq W) by lia; reflexivity).
  assert (HA : Z.abs (2 ^ 70 * A) = 2 ^ 70 * Z.abs A)
    by (rewrite Z.abs_mul; reflexivity).
  pose proof (Z.abs_nonneg U) as NU. pose proof (Z.abs_nonneg A) as NA.
  split; intros H.
  - assert (H1 : (2 ^ 70 * 100001 - 1000000 * 2 ^ 47) * W
                 <= 1000000 * Z.abs U * W) by lia.
    assert (H2 : 2 ^ 70 * 100001 - 1000000 * 2 ^ 47 <= 1000000 * Z.abs U).
    { apply (Z.mul_le_mono_pos_r _ _ W HW). exact H1. }
    lia.
  - assert (H1 : 1000000 * Z.abs U * W
                 <= (2 ^ 70 * 99999 + 1000000 * 2 ^ 47) * W) by lia.
    assert (H2 : 1000000 * Z.abs U <= 2 ^ 70 * 99999 + 1000000 * 2 ^ 47).
    { apply (Z.mul_le_mono_pos_r _ _ W HW). exact H1. }
    lia.
Qed.

(** X19. The discrepancy test is the 10 % rule up to rounding.  With both
    samples within their calibrated ranges, write [a / d] for the exact
    fraction of a channel ([a = sensorValue - calibMin],
    [d = calibMax - calibMin]).  If the exact fractions differ by
    10.0001 % or more, the test fires and [GetThrottlePosition] returns
    zero; if they differ by 9.9999 % or less, it does not fire.  The three
    roundings (two divisions, one subtraction) and the comparison with the
    [double] nearest to one tenth stay within that margin. *)
Theorem discrepancy_threshold (st : State) :
  within_calibration (TPS0 st) -> within_calibration (TPS1 st) ->
  let a0 := sensorValue (TPS0 st) - calibMin (TPS0 st) in
  let d0 := calibMax (TPS0 st) - calibMin (TPS0 st) in
  let a1 := sensorValue (TPS1 st) - calibMin (TPS1 st) in
  let d1 := calibMax (TPS1 st) - calibMin (TPS1 st) in
  (100001 * (d0 * d1) <= 1000000 * Z.abs (a1 * d0 - a0 * d1) ->
   discrepancy st = true /\ GetThrottlePosition st = fzero) /\
  (1000000 * Z.abs (a1 * d0 - a0 * d1) <= 99999 * (d0 * d1) ->
   discrepancy st = false).
Proof.
  intros ((Hv0 & Hmn0 & Hmx0) & Hlt0 & Hin0) ((Hv1 & Hmn1 & Hmx1) & Hlt1 & Hin1).
  cbv zeta.
  assert (Hd : forall b, discrepancy st = b ->
                 b = true -> GetThrottlePosition st = fzero).
  { intros b Hb ->. apply counted_fault_failsafe. tauto. }
  unfold discrepancy in *. unfold PedalPercent in *.
  rewrite !getPercent_unbounded in * by assumption.
  unfold is_ubyte2 in *.
  set (a0 := sensorValue (TPS0 st) - calibMin (TPS0 st)) in *.
  set (d0 := calibMax (TPS0 st) - calibMin (TPS0 st)) in *.
  set (a1 := sensorValue (TPS1 st) - calibMin (TPS1 st)) in *.
  set (d1 := calibMax (TPS1 st) - calibMin (TPS1 st)) in *.
  destruct (fraction_value a0 d0 ltac:(unfold a0, d0; lia) ltac:(unfold d0; lia))
    as (F0 & V0 & E0).
  destruct (fraction_value a1 d1 ltac:(unfold a1, d1; lia) ltac:(unfold d1; lia))
    as (F1 & V1 & E1).
  set (p0 := F32.div (int_float a0) (int_float d0)) in *.
  set (p1 := F32.div (int_float a1) (int_float d1)) in *.
  destruct (sub_value p1 p0 F1 F0 V1 V0) as [Sr Er].
  rewrite (exceeds_tolerance _ Sr) in *.
  destruct (fractions_differ (val p1) (val p0) (val (F32.sub p1 p0)) a1 d1 a0 d0
              ltac:(unfold d0; lia) ltac:(unfold d1; lia) E1 E0 Er) as [Hhi Hlo].
  split; intros H.
  - assert (Ht : (7205759403792794 * 2 ^ 14 <? Z.abs (val (F32.sub p1 p0))) = true)
      by (apply Z.ltb_lt; exact (Hhi H)).
    split; [exact Ht | exact (Hd true Ht eq_refl)].
  - apply Z.ltb_ge. exact (Hlo H).
Qed.

Lemma discrepancy_threshold_witness :
  (let st := mkState (mkSensor 0 0 100 true 0 100 0 60 false 0)
                     (mkSensor 0 0 100 true 0 100 0 40 false 0) in
   within_calibration (TPS0 st) /\ within_calibration (TPS1 st) /\
   100001 * (100 * 100) <= 1000000 * Z.abs (40 * 100 - 60 * 100) /\
   discrepancy st = true /\ GetThrottlePosition st = fzero).
Proof.
  cbv zeta.
  set (st := mkState (mkSensor 0 0 100 true 0 100 0 60 false 0)
                     (mkSensor 0 0 100 true 0 100 0 40 false 0)).
  assert (W0 : within_calibration (TPS0 st)) by (repeat split; simpl; lia).
  assert (W1 : within_calibration (TPS1 st)) by (repeat split; simpl; lia).
  assert (H : 100001 * (100 * 100) <= 1000000 * Z.abs (40 * 100 - 60 * 100))
    by (vm_compute; discriminate).
  split; [exact W0 | ]. split; [exact W1 | ]. split; [exact H | ].
  exact (proj1 (discrepancy_threshold st W0 W1) H).
Defined.

(** * The percentage helper and the plausibility evaluation, in general *)

(** ** Values on a common binary grid *)

Lemma grid_float_0 (n : Z) : grid_float 0 n = int_float n.
Proof.
  unfold grid_float. destruct (int_float n); try reflexivity.
  rewrite Z.add_0_r. reflexivity.
Qed.

Lemma grid_float_of_Z (n : Z) :
  - 2 ^ 24 < n < 2 ^ 24 -> grid_float 0 n = F32.of_Z n.
Proof. intros H. rewrite grid_float_0, of_Z_int_float by lia. reflexivity. Qed.







(** The voltages of the data sheet are on the grid of halves. *)
Example grid_float_volts :
  F64.of_float4 (grid_float (-1) 1) = lit_0_5 /\
  F64.of_float4 (grid_float (-1) 9) = lit_4_5.
Proof. vm_compute. split; reflexivity. Qed.




(** ** The fractions in the states the program reaches *)










(** ** The fractions of a state and their difference *)



(** ** Rounding to nearest against one tenth *)



(** ** The mean *)





(** ** The fail-safe path *)




(** ** The mean of agreeing channels *)



